(** * guiqwt cross sections

    A shallow embedding of [guiqwt/cross_section.py]: the profile
    extractors, the pure-Python radial averager, the radial section
    computation, the cross-section curve items and the cross-section
    panel, followed by the properties established about them.

    Conventions.
    - Python exceptions are values of [exn]; a call that may raise returns a
      [result].  Methods that mutate an object run in the monad [M], which
      keeps the state reached when an exception escapes, as Python does.
    - A float is either [NaN] or a finite value [Fin q] with [q] rational:
      arithmetic on finite values is exact.
    - Integer pixel indexes are in [Z]; the two places where the source
      rounds a square root to the nearest integer are computed with
      [Z.sqrt], and shown equal to the real-number expression of the source.
    - Weak references are object identifiers looked up in a [World] that
      records which objects are still alive. *)

From Stdlib Require Import ZArith QArith Qround List Bool Lia Reals Psatz.
Import ListNotations.
Local Open Scope Z_scope.

(** ** Exceptions and results *)

Inductive exn : Type :=
| ValueError
| ZeroDivisionError
| AttributeError
| IndexError
| NotImplementedError.

Inductive result (A : Type) : Type :=
| Ok (a : A)
| Raise (e : exn).
Arguments Ok {A} a.
Arguments Raise {A} e.

Definition rbind {A B} (r : result A) (k : A -> result B) : result B :=
  match r with
  | Ok a => k a
  | Raise e => Raise e
  end.

(** The exceptions named by [except (ValueError, ZeroDivisionError)]. *)
Definition caught (e : exn) : bool :=
  match e with
  | ValueError | ZeroDivisionError => true
  | _ => false
  end.

(** ** Floats and arrays *)

Inductive f64 : Type :=
| NaN
| Fin (q : Q).

Definition isnan (v : f64) : bool :=
  match v with NaN => true | Fin _ => false end.

Definition fadd (a b : f64) : f64 :=
  match a, b with
  | Fin x, Fin y => Fin (x + y)
  | _, _ => NaN
  end.

Definition fsub (a b : f64) : f64 :=
  match a, b with
  | Fin x, Fin y => Fin (x - y)
  | _, _ => NaN
  end.

Definition fsum (l : list f64) : f64 := fold_right fadd (Fin 0) l.

(** [a.mean()] of a flat array; the mean of no value at all is [nan]. *)
Definition fmean (l : list f64) : f64 :=
  match l with
  | [] => NaN
  | _ =>
      match fsum l with
      | NaN => NaN
      | Fin s => Fin (s / inject_Z (Z.of_nat (length l)))
      end
  end.

Inductive dtype : Type := Float64 | Int64.

(** The element type of an array: [Float64] for the floating-point types,
    [Int64] for the integer ones.  Conversion of a float to the element
    type is the identity for [Float64] and truncation toward zero for
    [Int64] (a [nan] becomes the smallest 64-bit integer). *)
Definition Qtrunc (q : Q) : Z := Z.quot (Qnum q) (Zpos (Qden q)).

Definition astype (t : dtype) (v : f64) : f64 :=
  match t, v with
  | Float64, _ => v
  | Int64, Fin q => Fin (inject_Z (Qtrunc q))
  | Int64, NaN => Fin (inject_Z (- 2 ^ 63))
  end.

(** A 2-D array: its element type, its number of columns and its rows
    (the shape is [(length a_rows, a_ncols)]). *)
Record ndarray2 : Type := mk_array {
  a_dtype : dtype;
  a_ncols : nat;
  a_rows : list (list f64)
}.

Definition array_wf (a : ndarray2) : Prop :=
  Forall (fun row => length row = a_ncols a) (a_rows a).

Definition a_nrows (a : ndarray2) : nat := length (a_rows a).

(** [np.arange(a, b)] on integers. *)
Definition arange (a b : Z) : list Z :=
  map (fun k => a + Z.of_nat k) (seq 0 (Z.to_nat (b - a))).

(** Python's [l[a:b]]: negative bounds count from the end, and both
    bounds are clipped to the length. *)
Definition slice_bound (n i : Z) : Z :=
  if i <? 0 then Z.max (i + n) 0 else Z.min i n.

Definition py_slice {A} (l : list A) (a b : Z) : list A :=
  let n := Z.of_nat (length l) in
  let a' := slice_bound n a in
  let b' := slice_bound n b in
  firstn (Z.to_nat (b' - a')) (skipn (Z.to_nat a') l).

(** [orig_data[iy0:iy1, ix0:ix1]] *)
Definition slice2 (a : ndarray2) (iy0 iy1 ix0 ix1 : Z) : ndarray2 :=
  let n := Z.of_nat (a_ncols a) in
  {| a_dtype := a_dtype a;
     a_ncols := Z.to_nat (slice_bound n ix1 - slice_bound n ix0);
     a_rows := map (fun row => py_slice row ix0 ix1) (py_slice (a_rows a) iy0 iy1) |}.

Definition zip_with {A B C} (f : A -> B -> C) (l1 : list A) (l2 : list B) : list C :=
  map (fun p => f (fst p) (snd p)) (combine l1 l2).

(** [a.mean(axis=1)]: one mean per row. *)
Definition mean_axis1 (a : ndarray2) : list f64 := map fmean (a_rows a).

(** [a.mean(axis=0)]: one mean per column. *)
Definition column (a : ndarray2) (j : nat) : list f64 :=
  map (fun row => nth j row NaN) (a_rows a).

Definition mean_axis0 (a : ndarray2) : list f64 :=
  map (fun j => fmean (column a j)) (seq 0 (a_ncols a)).

(** [np.linspace(a, b, n)] *)
Definition linspace (a b : Q) (n : nat) : list f64 :=
  match n with
  | O => []
  | S O => [Fin a]
  | S m =>
      map (fun i => Fin (a + inject_Z (Z.of_nat i) * ((b - a) / inject_Z (Z.of_nat m))))
          (seq 0 n)
  end.

(** ** The pure-Python radial averager *)

(** [floor(sqrt(x**2 + y**2) + .5)] for integers [x] and [y]. *)
Definition shell_index (x y : Z) : Z :=
  (Z.sqrt (4 * (x * x + y * y)) + 1) / 2.

(** [x = (np.ones((h, 1)) * np.arange(0, w)) - c] *)
Definition xgrid (h w c : Z) : list (list Z) :=
  repeat (map (fun j => j - c) (arange 0 w)) (Z.to_nat h).

(** [y = (np.ones((w, 1)) * np.arange(0, h)).T - c] *)
Definition ygrid (h w c : Z) : list (list Z) :=
  map (fun i => repeat (i - c) (Z.to_nat w)) (arange 0 h).

Definition rgrid (h w cx cy : Z) : list (list Z) :=
  zip_with (zip_with shell_index) (xgrid h w cx) (ygrid h w cy).

(** [data[r == i_r]]: the values of [data] where the mask holds, in
    row-major order. *)
Definition mask_select (data : list (list f64)) (r : list (list Z)) (i_r : Z) : list f64 :=
  concat (zip_with
            (fun drow rrow => map fst (filter (fun p => snd p =? i_r) (combine drow rrow)))
            data r).

(** A boolean mask selects from an array of its own shape; a mask of
    another shape is refused with an [IndexError]. *)
Definition same_shape (a : ndarray2) (h w : Z) : bool :=
  (Z.of_nat (a_nrows a) =? h) && (Z.of_nat (a_ncols a) =? w).

Definition radial_average (orig_data : ndarray2)
    (ix0 iy0 ix1 iy1 ixc iyc iradius : Z) : result (list f64) :=
  let data := slice2 orig_data iy0 iy1 ix0 ix1 in
  let h := iy1 - iy0 in
  let w := ix1 - ix0 in
  if (h <? 0) || (w <? 0) then Raise ValueError
  else
    let r := rgrid h w (ixc - ix0) (iyc - iy0) in
    let shells := arange 0 (iradius + 1) in
    match shells with
    | [] => Ok []
    | _ =>
        if same_shape data h w then
          let ylist :=
            flat_map (fun i_r =>
                        let r_data := mask_select (a_rows data) r i_r in
                        match r_data with
                        | [] => []
                        | _ => [fmean r_data]
                        end) shells in
          Ok (map (astype (a_dtype data)) ylist)
        else Raise IndexError
    end.

(** ** Radial section of a source image *)

(** The integer radius
    [int(np.floor(.5*np.sqrt(.5*dx**2 + .5*dy**2) + .5))]. *)
Definition radius_of (dx dy : Z) : Z :=
  (Z.sqrt ((dx * dx + dy * dy) / 2) + 1) / 2.

Definition profile : Type := (list f64 * list f64)%type.
Definition empty_profile : profile := ([], []).

(** ** Sequencing of calls that may raise *)

Declare Scope result_scope.
Delimit Scope result_scope with result.
Notation "x <- c ;; k" := (rbind c (fun x => k))
  (at level 61, c at next level, right associativity) : result_scope.
Notation "' pat <- c ;; k" := (rbind c (fun x => match x with pat => k end))
  (at level 61, pat pattern, c at next level, right associativity) : result_scope.

(** ** Plots, plot items and the objects placed on a plot *)

Definition QPoint : Type := (Q * Q)%type.

(** The tuple returned by [TrImageItem.get_transform()]:
    [(x0, y0, angle, dx, dy, hflip, vflip)]. *)
Record Transform : Type := mk_transform {
  tr_x0 : Q;
  tr_y0 : Q;
  tr_angle : Q;
  tr_dx : Q;
  tr_dy : Q;
  tr_hflip : bool;
  tr_vflip : bool
}.

(** An item of an image plot.  The classes [ImageItem], [XYImageItem] and
    [TrImageItem] are declared in [guiqwt.image]; what
    [isinstance(item, C)] answers for each of them is a field. *)
Record PlotItem : Type := mk_item {
  is_ImageItem : bool;
  is_XYImageItem : bool;
  is_TrImageItem : bool;
  get_transform : Transform
}.

(** What the cross sections read from an image plot: its items, the
    direction of its left axis ([get_axis_direction("left")]), the ends
    [p1()], [p2()] of the canvas maps of its bottom and left axes, and the
    bounds of the scale divisions of these axes. *)
Record Plot : Type := mk_plot {
  items : list PlotItem;
  axis_direction_left : bool;
  xmap_p1 : Q;
  xmap_p2 : Q;
  ymap_p1 : Q;
  ymap_p2 : Q;
  scale_bottom : Q * Q;
  scale_left : Q * Q
}.

(** The geometry of an object on a plot, and with it the methods the
    object has: a marker has [xValue] and [yValue], a point shape or an
    annotated point has [get_pos], a rectangular shape has [get_rect]. *)
Inductive Geometry : Type :=
| MarkerG (x y : Q)
| PointG (x y : Q)
| RectG (x0 y0 x1 y1 : Q).

Record PlotObject : Type := mk_object {
  geom : Geometry;
  plot : option Plot;
  axes_to_canvas : Q -> Q -> result QPoint;
  canvas_to_axes : QPoint -> result (Q * Q)
}.

(** A source image, with the methods of [guiqwt.image] the cross sections
    call on it. *)
Record SourceImage : Type := mk_source {
  data : ndarray2;
  mask : option (list (list bool));
  get_closest_pixel_indexes : Q -> Q -> Z * Z;
  get_x_values : Z -> Z -> list f64;
  get_xsection : Q -> bool -> result profile;
  get_ysection : Q -> bool -> result profile;
  get_average_xsection : Q -> Q -> Q -> Q -> bool -> result profile;
  get_average_ysection : Q -> Q -> Q -> Q -> bool -> result profile;
  source_plot : option Plot
}.

(** The functions of [guiqwt.image] and of the extension module
    [guiqwt._ext.radialaverage] that the module calls.  [radavg] and
    [radavg_mask] fill two arrays of [iradius + 1] floats in place; they
    are given by the pair they store at each index. *)
Record Ext : Type := mk_ext {
  get_plot_source_rect : Plot -> QPoint -> QPoint -> result (Q * Q * Q * Q);
  get_image_from_plot : Plot -> QPoint -> QPoint -> Q -> Q -> bool -> result ndarray2;
  radavg : ndarray2 -> Z -> Z -> Z -> Z -> f64 * f64;
  radavg_mask : ndarray2 -> list (list bool) -> Z -> Z -> Z -> Z -> f64 * f64
}.

(** ** Python arithmetic on coordinates *)

Definition py_div (a b : Q) : result Q :=
  if Qeq_bool b 0 then Raise ZeroDivisionError else Ok (a / b)%Q.

Fixpoint py_max_from (m : Q) (l : list Q) : Q :=
  match l with
  | [] => m
  | x :: t => py_max_from (if Qle_bool x m then m else x) t
  end.

Definition py_max (l : list Q) : result Q :=
  match l with
  | [] => Raise ValueError
  | x :: t => Ok (py_max_from x t)
  end.

Definition Qgt_bool (a b : Q) : bool := negb (Qle_bool a b).
Definition Qlt_bool (a b : Q) : bool := negb (Qle_bool b a).

(** ** Sampling the plot: [get_image_data] *)

Definition eligible (item : PlotItem) : bool :=
  is_ImageItem item && negb (is_XYImageItem item).

Definition get_image_data (E : Ext) (plot : Plot) (p0 p1 : QPoint)
    (apply_lut : bool) : result (option ndarray2) :=
  let items := filter eligible (items plot) in
  match items with
  | [] => Ok None
  | _ =>
      (' (_src_x, _src_y, src_w, src_h) <- get_plot_source_rect E plot p0 p1 ;;
       let trparams := map get_transform (filter is_TrImageItem items) in
       match trparams with
       | [] =>
           a <- get_image_from_plot E plot p0 p1 src_w src_h apply_lut ;;
           Ok (Some a)
       | _ =>
           mx <- py_max (map tr_dx trparams) ;;
           src_w' <- py_div src_w mx ;;
           my <- py_max (map tr_dy trparams) ;;
           src_h' <- py_div src_h my ;;
           a <- get_image_from_plot E plot p0 p1 src_w' src_h' apply_lut ;;
           Ok (Some a)
       end)%result
  end.

(** ** Objects: rectangular area and coordinates *)

Definition get_rectangular_area (obj : PlotObject) : option (Q * Q * Q * Q) :=
  match geom obj with
  | RectG x0 y0 x1 y1 => Some (x0, y0, x1, y1)
  | _ => None
  end.

(** [obj.get_rect()] *)
Definition get_rect (obj : PlotObject) : result (Q * Q * Q * Q) :=
  match get_rectangular_area obj with
  | Some r => Ok r
  | None => Raise AttributeError
  end.

Definition get_object_coordinates (obj : PlotObject) : result (Q * Q) :=
  match geom obj with
  | PointG x y => Ok (x, y)
  | MarkerG x y => Ok (x, y)
  | RectG _ _ _ _ => Raise AttributeError
  end.

(** [plot = obj.plot()] followed by an attribute access on [plot]. *)
Definition plot_of (obj : PlotObject) : result Plot :=
  match plot obj with
  | Some p => Ok p
  | None => Raise AttributeError
  end.

(** ** The four profile extractors working on the plot *)

(** The [try ... except (ValueError, ZeroDivisionError)] around
    [get_image_data], followed by the rest of the function. *)
Definition with_image_data (sampled : result (option ndarray2))
    (rest : option ndarray2 -> result profile) : result profile :=
  match sampled with
  | Ok d => rest d
  | Raise e => if caught e then Ok empty_profile else Raise e
  end.

(** [data.mean(axis=...)], where [data] may be [None]. *)
Definition data_mean (axis : nat) (d : option ndarray2) : result (list f64) :=
  match d with
  | None => Raise AttributeError
  | Some a => Ok (match axis with O => mean_axis0 a | _ => mean_axis1 a end)
  end.

Definition get_plot_x_section (E : Ext) (obj : PlotObject) (apply_lut : bool)
    : result profile :=
  (' (_x0, y0) <- get_object_coordinates obj ;;
   plot <- plot_of obj ;;
   let xc0 := xmap_p1 plot in
   let xc1 := xmap_p2 plot in
   ' (_xc0, yc0) <- axes_to_canvas obj 0%Q y0 ;;
   let yc1 := if axis_direction_left plot then (yc0 + 1)%Q else (yc0 - 1)%Q in
   with_image_data (get_image_data E plot (xc0, yc0) (xc1, yc1) apply_lut)
     (fun d =>
        y <- data_mean 0 d ;;
        ' (x0, _y0) <- canvas_to_axes obj (xc0, yc0) ;;
        ' (x1, _y1) <- canvas_to_axes obj (xc1, yc1) ;;
        Ok (linspace x0 x1 (length y), y)))%result.

Definition get_plot_y_section (E : Ext) (obj : PlotObject) (apply_lut : bool)
    : result profile :=
  (' (x0, _y0) <- get_object_coordinates obj ;;
   plot <- plot_of obj ;;
   let yc0 := if axis_direction_left plot then ymap_p2 plot else ymap_p1 plot in
   let yc1 := if axis_direction_left plot then ymap_p1 plot else ymap_p2 plot in
   ' (xc0, _yc0) <- axes_to_canvas obj x0 0%Q ;;
   let xc1 := (xc0 + 1)%Q in
   with_image_data (get_image_data E plot (xc0, yc0) (xc1, yc1) apply_lut)
     (fun d =>
        y <- data_mean 1 d ;;
        ' (_x0, y0) <- canvas_to_axes obj (xc0, yc0) ;;
        ' (_x1, y1) <- canvas_to_axes obj (xc1, yc1) ;;
        Ok (linspace y0 y1 (length y), y)))%result.

(** [if (ydir and yc0 > yc1) or (not ydir and yc0 < yc1)] *)
Definition y_swapped (ydir : bool) (yc0 yc1 : Q) : bool :=
  (ydir && Qgt_bool yc0 yc1) || (negb ydir && Qlt_bool yc0 yc1).

Definition get_plot_average_x_section (E : Ext) (obj : PlotObject)
    (apply_lut : bool) : result profile :=
  (' (x0, y0, x1, y1) <- get_rect obj ;;
   ' (xc0, yc0) <- axes_to_canvas obj x0 y0 ;;
   ' (xc1, yc1) <- axes_to_canvas obj x1 y1 ;;
   let invert := Qgt_bool xc0 xc1 in
   let xa := if invert then xc1 else xc0 in
   let xb := if invert then xc0 else xc1 in
   plot <- plot_of obj ;;
   let ydir := axis_direction_left plot in
   let swap := y_swapped ydir yc0 yc1 in
   let ya := if swap then yc1 else yc0 in
   let yb := if swap then yc0 else yc1 in
   with_image_data (get_image_data E plot (xa, ya) (xb, yb) apply_lut)
     (fun d =>
        y <- data_mean 0 d ;;
        let y := if invert then rev y else y in
        Ok (linspace x0 x1 (length y), y)))%result.

Definition get_plot_average_y_section (E : Ext) (obj : PlotObject)
    (apply_lut : bool) : result profile :=
  (' (x0, y0, x1, y1) <- get_rect obj ;;
   ' (xc0, yc0) <- axes_to_canvas obj x0 y0 ;;
   ' (xc1, yc1) <- axes_to_canvas obj x1 y1 ;;
   plot <- plot_of obj ;;
   let ydir := axis_direction_left plot in
   let invert := y_swapped ydir yc0 yc1 in
   let ya := if invert then yc1 else yc0 in
   let yb := if invert then yc0 else yc1 in
   let swap := Qgt_bool xc0 xc1 in
   let xa := if swap then xc1 else xc0 in
   let xb := if swap then xc0 else xc1 in
   with_image_data (get_image_data E plot (xa, ya) (xb, yb) apply_lut)
     (fun d =>
        y <- data_mean 1 d ;;
        let x := linspace y0 y1 (length y) in
        let x := if invert then rev x else x in
        Ok (x, y)))%result.

(** ** [compute_radial_section] *)

Definition dy_policy : Type := list f64 -> list f64 -> list f64.

Definition compute_radial_section (E : Ext) (item : SourceImage)
    (x0 y0 x1 y1 : Q) (dyfunc : option dy_policy)
    : list f64 * list f64 * option (list f64) :=
  let '(ix0, iy0) := get_closest_pixel_indexes item x0 y0 in
  let '(ix1, iy1) := get_closest_pixel_indexes item x1 y1 in
  let '(ixc, iyc) :=
    get_closest_pixel_indexes item ((1 # 2) * (x0 + x1))%Q ((1 # 2) * (y0 + y1))%Q in
  let iradius := radius_of (ix1 - ix0) (iy1 - iy0) in
  if iradius =? 0 then ([], [], Some [])
  else
    let fill :=
      match mask item with
      | Some m => radavg_mask E (data item) m iyc ixc iradius
      | None => radavg E (data item) iyc ixc iradius
      end in
    let cells := map fill (arange 0 (iradius + 1)) in
    let ydata := map fst cells in
    let ycount := map snd cells in
    let dydata :=
      match dyfunc with
      | None => None
      | Some f => Some (f ydata ycount)
      end in
    let xdata := firstn (length ydata) (get_x_values item iyc (iyc + Z.of_nat (length ydata))) in
    let xdata :=
      match xdata with
      | [] => []
      | first :: _ => map (fun v => fsub v first) xdata
      end in
    (xdata, ydata, dydata).

(** ** Mutable objects: the monad of methods *)

(** A method working on a state [S]: it returns a value or raises, and in
    both cases leaves a state behind. *)
Definition M (S A : Type) : Type := S -> result A * S.

Definition ret {S A} (a : A) : M S A := fun s => (Ok a, s).

Definition bind {S A B} (m : M S A) (k : A -> M S B) : M S B :=
  fun s =>
    match m s with
    | (Ok a, s') => k a s'
    | (Raise e, s') => (Raise e, s')
    end.

Definition raise {S A} (e : exn) : M S A := fun s => (Raise e, s).
Definition get_state {S} : M S S := fun s => (Ok s, s).
Definition modify {S} (f : S -> S) : M S unit := fun s => (Ok tt, f s).
Definition lift {S A} (r : result A) : M S A := fun s => (r, s).

Declare Scope method_scope.
Delimit Scope method_scope with M.
Notation "x <- c ;; k" := (bind c (fun x => k))
  (at level 61, c at next level, right associativity) : method_scope.
Notation "c ;; k" := (bind c (fun _ => k))
  (at level 61, right associativity) : method_scope.

(** ** The world outside the panel *)

Definition obj_id : Type := nat.
Definition src_id : Type := nat.
Definition plot_id : Type := nat.

(** Markers, shapes and source images belong to the image plots.  The
    panel only holds weak references to them: an identifier, which is
    dereferenced in the world and yields nothing once the object is gone. *)
Record World : Type := mk_world {
  objects : obj_id -> PlotObject;
  obj_alive : obj_id -> bool;
  sources : src_id -> option SourceImage
}.

(** ** Cross-section items *)

Inductive ItemClass : Type :=
| CrossSectionItem
| XCrossSectionItem
| YCrossSectionItem
| RACrossSectionItem.

(** The class attribute [_inverted]. *)
Definition _inverted (k : ItemClass) : option bool :=
  match k with
  | XCrossSectionItem => Some false
  | YCrossSectionItem => Some true
  | CrossSectionItem | RACrossSectionItem => None
  end.

Definition truthy (b : option bool) : bool :=
  match b with Some true => true | _ => false end.

(** The data of a curve, as set by [set_data(x, y, dx, dy)] ([dx] is
    never given here). *)
Record CurveData : Type := mk_data {
  cx : list f64;
  cy : list f64;
  cdy : option (list f64)
}.

Record Curve : Type := mk_curve {
  cid : nat;
  klass : ItemClass;
  c_perimage_mode : bool;
  c_autoscale_mode : bool;
  c_apply_lut : bool;
  source : option src_id;
  attached : bool;
  shown : bool;
  curve_data : CurveData
}.

(** What an item or the panel does to its plot widget. *)
Inductive Action : Type :=
| Emit_SIG_CS_CURVE_CHANGED (curve : nat)
| SetAxisScale (bottom : bool) (lower upper : Q)
| Replot
| DoAutoscale
| UpdateAnnotation (shape : obj_id).

Record ItemState : Type := mk_item_state {
  self : Curve;
  actions : list Action
}.

Definition set_data (x y : list f64) (dy : option (list f64)) : M ItemState unit :=
  modify (fun st =>
    let c := self st in
    {| self := {| cid := cid c; klass := klass c;
                  c_perimage_mode := c_perimage_mode c;
                  c_autoscale_mode := c_autoscale_mode c;
                  c_apply_lut := c_apply_lut c;
                  source := source c; attached := attached c; shown := shown c;
                  curve_data := {| cx := x; cy := y; cdy := dy |} |};
       actions := actions st |}).

Definition act (a : Action) : M ItemState unit :=
  modify (fun st => {| self := self st; actions := actions st ++ [a] |}).

Definition get_source_image (W : World) (c : Curve) : option SourceImage :=
  match source c with
  | Some s => sources W s
  | None => None
  end.

(** A method call on [source], which may be [None]. *)
Definition on_source {A} (src : option SourceImage)
    (method : SourceImage -> result A) : result A :=
  match src with
  | Some s => method s
  | None => Raise AttributeError
  end.

Definition get_cross_section (W : World) (E : Ext) (c : Curve)
    (obj : PlotObject) : result profile :=
  match klass c with
  | XCrossSectionItem =>
      let source := get_source_image W c in
      match get_rectangular_area obj with
      | None =>
          (' (_x0, y0) <- get_object_coordinates obj ;;
           if c_perimage_mode c
           then on_source source (fun s => get_xsection s y0 (c_apply_lut c))
           else get_plot_x_section E obj (c_apply_lut c))%result
      | Some (x0, y0, x1, y1) =>
          if c_perimage_mode c
          then on_source source
                 (fun s => get_average_xsection s x0 y0 x1 y1 (c_apply_lut c))
          else get_plot_average_x_section E obj (c_apply_lut c)
      end
  | YCrossSectionItem =>
      let source := get_source_image W c in
      match get_rectangular_area obj with
      | None =>
          (' (x0, _y0) <- get_object_coordinates obj ;;
           if c_perimage_mode c
           then on_source source (fun s => get_ysection s x0 (c_apply_lut c))
           else get_plot_y_section E obj (c_apply_lut c))%result
      | Some (x0, y0, x1, y1) =>
          if c_perimage_mode c
          then on_source source
                 (fun s => get_average_ysection s x0 y0 x1 y1 (c_apply_lut c))
          else get_plot_average_y_section E obj (c_apply_lut c)
      end
  | CrossSectionItem | RACrossSectionItem => Raise NotImplementedError
  end.

(** [secty.size == 0 or np.all(np.isnan(secty))] *)
Definition no_signal (secty : list f64) : bool :=
  (length secty =? 0)%nat || forallb isnan secty.

(** [CrossSectionItem.update_curve_data] *)
Definition base_update_curve_data (W : World) (E : Ext) (obj : PlotObject)
    : M ItemState unit :=
  (st <- get_state ;;
   sect <- lift (get_cross_section W E (self st) obj) ;;
   let '(sectx, secty) := if no_signal (snd sect) then ([], []) else sect in
   if truthy (_inverted (klass (self st)))
   then set_data secty sectx None
   else set_data sectx secty None)%M.

(** [RACrossSectionItem.update_curve_data] *)
Definition ra_update_curve_data (W : World) (E : Ext) (obj : PlotObject)
    : M ItemState unit :=
  (st <- get_state ;;
   let source := get_source_image W (self st) in
   match get_rectangular_area obj with
   | Some (x0, y0, x1, y1) =>
       sect <- lift (on_source source
                       (fun s => Ok (compute_radial_section E s x0 y0 x1 y1 None))) ;;
       let '(sectx, secty, sectdy) := sect in
       let '(sectx, secty, sectdy) :=
         if no_signal secty then ([], [], None) else (sectx, secty, sectdy) in
       set_data sectx secty sectdy
   | None => ret tt
   end)%M.

Definition update_curve_data (W : World) (E : Ext) (obj : PlotObject)
    : M ItemState unit :=
  (st <- get_state ;;
   match klass (self st) with
   | RACrossSectionItem => ra_update_curve_data W E obj
   | _ => base_update_curve_data W E obj
   end)%M.

(** [update_scale] of the X and Y items: the axis of the cross-section
    plot is set to the scale of the source's plot. *)
Definition axis_update_scale (W : World) (bottom : bool) : M ItemState unit :=
  (st <- get_state ;;
   src_plot <- lift (on_source (get_source_image W (self st))
                       (fun s => match source_plot s with
                                 | Some p => Ok p
                                 | None => Raise AttributeError
                                 end)) ;;
   let '(lower, upper) := if bottom then scale_bottom src_plot else scale_left src_plot in
   act (SetAxisScale bottom lower upper) ;;
   act Replot)%M.

Definition update_scale (W : World) : M ItemState unit :=
  (st <- get_state ;;
   match klass (self st) with
   | CrossSectionItem => raise NotImplementedError
   | XCrossSectionItem => axis_update_scale W true
   | YCrossSectionItem => axis_update_scale W false
   | RACrossSectionItem => ret tt
   end)%M.

(** [CrossSectionItem.update_item]; [plot_visible] is what
    [self.plot().isVisible()] answers when the item is attached. *)
Definition update_item (W : World) (E : Ext) (plot_visible : bool)
    (obj : PlotObject) : M ItemState unit :=
  (st <- get_state ;;
   if negb (attached (self st)) then ret tt
   else
     match get_source_image W (self st) with
     | None => ret tt
     | Some _ =>
         if negb plot_visible then ret tt
         else
           update_curve_data W E obj ;;
           st' <- get_state ;;
           act (Emit_SIG_CS_CURVE_CHANGED (cid (self st'))) ;;
           if negb (c_autoscale_mode (self st')) then update_scale W else ret tt
     end)%M.

(** ** The cross-section panel: [CrossSectionPlot] *)

(** [known_items] and [_shapes] are dictionaries; they are kept as
    association lists in the order in which the dictionary is iterated. *)
Record Panel : Type := mk_panel {
  perimage_mode : bool;
  autoscale_mode : bool;
  apply_lut : bool;
  last_obj : option obj_id;
  known_items : list (src_id * Curve);
  _shapes : list (plot_id * list obj_id);
  label_visible : bool;
  isVisible : bool;
  log : list Action
}.

Definition set_shown (b : bool) (c : Curve) : Curve :=
  {| cid := cid c; klass := klass c;
     c_perimage_mode := c_perimage_mode c;
     c_autoscale_mode := c_autoscale_mode c;
     c_apply_lut := c_apply_lut c;
     source := source c; attached := attached c; shown := b;
     curve_data := curve_data c |}.

(** [curve.perimage_mode = self.perimage_mode] and the two assignments
    that follow it. *)
Definition copy_modes (pm am lut : bool) (c : Curve) : Curve :=
  {| cid := cid c; klass := klass c;
     c_perimage_mode := pm;
     c_autoscale_mode := am;
     c_apply_lut := lut;
     source := source c; attached := attached c; shown := shown c;
     curve_data := curve_data c |}.

Definition with_known_items (p : Panel) (l : list (src_id * Curve)) (a : list Action) : Panel :=
  {| perimage_mode := perimage_mode p; autoscale_mode := autoscale_mode p;
     apply_lut := apply_lut p; last_obj := last_obj p;
     known_items := l; _shapes := _shapes p;
     label_visible := label_visible p; isVisible := isVisible p; log := a |}.

Definition with_last_obj (p : Panel) (o : option obj_id) : Panel :=
  {| perimage_mode := perimage_mode p; autoscale_mode := autoscale_mode p;
     apply_lut := apply_lut p; last_obj := o;
     known_items := known_items p; _shapes := _shapes p;
     label_visible := label_visible p; isVisible := isVisible p; log := log p |}.

Definition with_shapes (p : Panel) (r : list (plot_id * list obj_id)) : Panel :=
  {| perimage_mode := perimage_mode p; autoscale_mode := autoscale_mode p;
     apply_lut := apply_lut p; last_obj := last_obj p;
     known_items := known_items p; _shapes := r;
     label_visible := label_visible p; isVisible := isVisible p; log := log p |}.

Definition with_label (p : Panel) (b : bool) : Panel :=
  {| perimage_mode := perimage_mode p; autoscale_mode := autoscale_mode p;
     apply_lut := apply_lut p; last_obj := last_obj p;
     known_items := known_items p; _shapes := _shapes p;
     label_visible := b; isVisible := isVisible p; log := log p |}.

Definition with_modes (p : Panel) (pm am lut : bool) : Panel :=
  {| perimage_mode := pm; autoscale_mode := am;
     apply_lut := lut; last_obj := last_obj p;
     known_items := known_items p; _shapes := _shapes p;
     label_visible := label_visible p; isVisible := isVisible p; log := log p |}.

Definition panel_act (a : Action) : M Panel unit :=
  modify (fun p => with_known_items p (known_items p) (log p ++ [a])).

(** [shape in shapes] *)
Definition shape_in (shape : obj_id) (shapes : list obj_id) : bool :=
  existsb (Nat.eqb shape) shapes.

Definition is_shape_known (p : Panel) (shape : obj_id) : bool :=
  existsb (fun entry => shape_in shape (snd entry)) (_shapes p).

(** [shapes.pop(shapes.index(shape))] *)
Fixpoint pop_first (shape : obj_id) (shapes : list obj_id) : list obj_id :=
  match shapes with
  | [] => []
  | x :: t => if Nat.eqb shape x then t else x :: pop_first shape t
  end.

Fixpoint unregister_in (shape : obj_id) (reg : list (plot_id * list obj_id))
    : list (plot_id * list obj_id) :=
  match reg with
  | [] => []
  | (pl, shapes) :: t =>
      if shape_in shape shapes then (pl, pop_first shape shapes) :: t
      else (pl, shapes) :: unregister_in shape t
  end.

Definition unregister_shape (shape : obj_id) : M Panel unit :=
  modify (fun p => with_shapes p (unregister_in shape (_shapes p))).

Definition get_last_obj (W : World) (p : Panel) : option obj_id :=
  match last_obj p with
  | Some o => if obj_alive W o then Some o else None
  | None => None
  end.

(** The loop of [update_plot] over [known_items], from position [index]
    on.  It returns the curves as the loop leaves them and the actions
    performed; when an item raises, the curves after it are untouched. *)
Fixpoint update_curves (W : World) (E : Ext) (pm am lut visible : bool)
    (obj : PlotObject) (index : nat) (curves : list (src_id * Curve))
    (acts : list Action) : result unit * list (src_id * Curve) * list Action :=
  match curves with
  | [] => (Ok tt, [], acts)
  | (src, curve) :: rest =>
      if negb pm && (0 <? index)%nat then
        let '(r, rest', acts') :=
          update_curves W E pm am lut visible obj (S index) rest acts in
        (r, (src, set_shown false curve) :: rest', acts')
      else
        let shown_curve := copy_modes pm am lut (set_shown true curve) in
        match update_item W E visible obj {| self := shown_curve; actions := acts |} with
        | (Ok _, st) =>
            let '(r, rest', acts') :=
              update_curves W E pm am lut visible obj (S index) rest (actions st) in
            (r, (src, self st) :: rest', acts')
        | (Raise e, st) => (Raise e, (src, self st) :: rest, actions st)
        end
  end.

(** The body of [update_plot] once [obj] is known. *)
Definition refresh (W : World) (E : Ext) (o : obj_id) : M Panel unit :=
  let obj := objects W o in
  match plot obj with
  | None => unregister_shape o
  | Some _ =>
      (p <- get_state ;;
       (if label_visible p then modify (fun p => with_label p false) else ret tt) ;;
       p <- get_state ;;
       (fun p0 =>
          let '(r, curves, acts) :=
            update_curves W E (perimage_mode p) (autoscale_mode p) (apply_lut p)
              (isVisible p) obj 0 (known_items p) (log p) in
          (r, with_known_items p0 curves acts)) ;;
       p <- get_state ;;
       if autoscale_mode p then panel_act DoAutoscale else ret tt)%M
  end.

Definition update_plot (W : World) (E : Ext) (obj : option obj_id) : M Panel unit :=
  match obj with
  | None =>
      (p <- get_state ;;
       match get_last_obj W p with
       | None => ret tt
       | Some o => refresh W E o
       end)%M
  | Some o =>
      (modify (fun p => with_last_obj p (Some o)) ;;
       refresh W E o)%M
  end.

Definition shape_changed (W : World) (E : Ext) (shape : obj_id) : M Panel unit :=
  (p <- get_state ;;
   if is_shape_known p shape then update_plot W E (Some shape) else ret tt)%M.

Definition marker_changed (W : World) (E : Ext) (marker : obj_id) : M Panel unit :=
  update_plot W E (Some marker).

Fixpoint register_in (pl : plot_id) (shape : obj_id)
    (reg : list (plot_id * list obj_id)) : list (plot_id * list obj_id) :=
  match reg with
  | [] => [(pl, [shape])]
  | (pl', shapes) :: t =>
      if Nat.eqb pl pl' then (pl', shapes ++ [shape]) :: t
      else (pl', shapes) :: register_in pl shape t
  end.

(** [self._shapes.get(plot, [])] *)
Fixpoint known_shapes (pl : plot_id) (reg : list (plot_id * list obj_id)) : list obj_id :=
  match reg with
  | [] => []
  | (pl', shapes) :: t => if Nat.eqb pl pl' then shapes else known_shapes pl t
  end.

Definition register_shape (W : World) (E : Ext) (pl : plot_id) (shape : obj_id)
    : M Panel unit :=
  (p <- get_state ;;
   if shape_in shape (known_shapes pl (_shapes p)) then ret tt
   else
     modify (fun p => with_shapes p (register_in pl shape (_shapes p))) ;;
     panel_act (UpdateAnnotation shape) ;;
     update_plot W E (Some shape))%M.

Definition toggle_perimage_mode (W : World) (E : Ext) (state : bool) : M Panel unit :=
  (modify (fun p => with_modes p state (autoscale_mode p) (apply_lut p)) ;;
   update_plot W E None)%M.

Definition toggle_autoscale (W : World) (E : Ext) (state : bool) : M Panel unit :=
  (modify (fun p => with_modes p (perimage_mode p) state (apply_lut p)) ;;
   update_plot W E None)%M.

Definition toggle_apply_lut (W : World) (E : Ext) (state : bool) : M Panel unit :=
  (modify (fun p => with_modes p (perimage_mode p) (autoscale_mode p) state) ;;
   update_plot W E None)%M.

Definition lut_changed (W : World) (E : Ext) : M Panel unit :=
  (p <- get_state ;;
   if apply_lut p then update_plot W E None else ret tt)%M.

(** ** The radial averager as the specification words it *)

(** The pixel of an array at column [px] and row [py]. *)
Definition pixel (a : ndarray2) (px py : Z) : f64 :=
  nth (Z.to_nat px) (nth (Z.to_nat py) (a_rows a) []) NaN.

(** Following the specification: the members of shell [r] are the pixels
    [(px, py)] of the sub-array bounded by the two corners whose rounded
    distance to the centre is [r], taken row after row. *)
Definition in_shell (ixc iyc r px py : Z) : bool :=
  shell_index (px - ixc) (py - iyc) =? r.

Definition shell_members (a : ndarray2) (ix0 iy0 ix1 iy1 ixc iyc r : Z) : list f64 :=
  flat_map (fun py =>
    flat_map (fun px => if in_shell ixc iyc r px py then [pixel a px py] else [])
             (arange ix0 ix1))
    (arange iy0 iy1).

Definition nonempty (m : list f64) : bool := negb (length m =? 0)%nat.

(** The shells the specification keeps: those of radius [0] to [iradius]
    that have a member. *)
Definition kept_shells (a : ndarray2) (ix0 iy0 ix1 iy1 ixc iyc iradius : Z)
    : list (list f64) :=
  filter nonempty
    (map (shell_members a ix0 iy0 ix1 iy1 ixc iyc) (arange 0 (iradius + 1))).

(** What is established about the averager on an array [a] and a region
    inside it: the shell test is the rounded distance of the source; the
    output lists, for the kept shells in increasing radius, the mean of
    the members converted to the element type of [a]; it is not longer
    than [iradius + 1]; and on a float array the values are the means
    themselves. *)
Definition radial_average_correct (a : ndarray2)
    (ix0 iy0 ix1 iy1 ixc iyc iradius : Z) : Prop :=
  (forall px py r,
      in_shell ixc iyc r px py = true <->
      Int_part (sqrt (IZR (px - ixc) * IZR (px - ixc)
                      + IZR (py - iyc) * IZR (py - iyc)) + / 2)%R = r)
  /\ radial_average a ix0 iy0 ix1 iy1 ixc iyc iradius
     = Ok (map (fun m => astype (a_dtype a) (fmean m))
               (kept_shells a ix0 iy0 ix1 iy1 ixc iyc iradius))
  /\ (length (kept_shells a ix0 iy0 ix1 iy1 ixc iyc iradius)
      <= Z.to_nat (iradius + 1))%nat
  /\ (a_dtype a = Float64 ->
      radial_average a ix0 iy0 ix1 iy1 ixc iyc iradius
      = Ok (map fmean (kept_shells a ix0 iy0 ix1 iy1 ixc iyc iradius))).

(** ** Concrete data *)

(** One row of three pixels, as a float array and as an integer array. *)
Definition row_013 (t : dtype) : ndarray2 :=
  {| a_dtype := t; a_ncols := 3;
     a_rows := [[Fin (inject_Z 0); Fin (inject_Z 1); Fin (inject_Z 3)]] |}.

(** A source image of one row of three pixels whose pixel indexes are its
    data coordinates rounded down, and an extension whose [radavg] stores
    the radius index itself with a count of one. *)
Definition no_profile (_ : Q) (_ : bool) : result profile := Ok empty_profile.
Definition no_average (_ _ _ _ : Q) (_ : bool) : result profile := Ok empty_profile.

Definition strip_source : SourceImage :=
  {| data := row_013 Float64;
     mask := None;
     get_closest_pixel_indexes := fun x y => (Qfloor x, Qfloor y);
     get_x_values := fun i0 i1 => map (fun k => Fin (inject_Z k)) (arange i0 i1);
     get_xsection := no_profile;
     get_ysection := no_profile;
     get_average_xsection := no_average;
     get_average_ysection := no_average;
     source_plot := None |}.

(** What is established about [compute_radial_section]: with the corners
    and the centre converted to pixel indexes, and the radius of the
    source, a zero radius gives the empty profile; otherwise the values
    are those the extension stores for the centre pixel and the radius,
    one for each index up to the radius. *)
Definition radial_section_correct (E : Ext) (item : SourceImage)
    (x0 y0 x1 y1 : Q) (dyfunc : option dy_policy) : Prop :=
  let p0 := get_closest_pixel_indexes item x0 y0 in
  let p1 := get_closest_pixel_indexes item x1 y1 in
  let pc := get_closest_pixel_indexes item
              ((1 # 2) * (x0 + x1))%Q ((1 # 2) * (y0 + y1))%Q in
  let dx := fst p1 - fst p0 in
  let dy := snd p1 - snd p0 in
  let iradius :=
    Int_part (/ 2 * sqrt (/ 2 * (IZR dx * IZR dx) + / 2 * (IZR dy * IZR dy)) + / 2)%R in
  let fill :=
    match mask item with
    | Some m => radavg_mask E (data item) m (snd pc) (fst pc) iradius
    | None => radavg E (data item) (snd pc) (fst pc) iradius
    end in
  let ydata := map (fun i => fst (fill i)) (arange 0 (iradius + 1)) in
  let ycount := map (fun i => snd (fill i)) (arange 0 (iradius + 1)) in
  0 <= iradius
  /\ (iradius = 0 <-> dx * dx + dy * dy < 2)
  /\ (iradius = 0 ->
      compute_radial_section E item x0 y0 x1 y1 dyfunc = ([], [], Some []))
  /\ (iradius <> 0 ->
      snd (fst (compute_radial_section E item x0 y0 x1 y1 dyfunc)) = ydata
      /\ length ydata = Z.to_nat (iradius + 1)
      /\ snd (compute_radial_section E item x0 y0 x1 y1 dyfunc)
         = match dyfunc with
           | None => None
           | Some f => Some (f ydata ycount)
           end).

Definition identity_transform (dx dy : Q) : Transform :=
  {| tr_x0 := 0; tr_y0 := 0; tr_angle := 0; tr_dx := dx; tr_dy := dy;
     tr_hflip := false; tr_vflip := false |}.

(** A plain image item, an XY image item and a transformed image item. *)
Definition plain_item : PlotItem :=
  {| is_ImageItem := true; is_XYImageItem := false; is_TrImageItem := false;
     get_transform := identity_transform 1 1 |}.

Definition xy_item : PlotItem :=
  {| is_ImageItem := true; is_XYImageItem := true; is_TrImageItem := false;
     get_transform := identity_transform 1 1 |}.

Definition tr_item (dx dy : Q) : PlotItem :=
  {| is_ImageItem := true; is_XYImageItem := false; is_TrImageItem := true;
     get_transform := identity_transform dx dy |}.

(** A plot whose canvas is four pixels wide and high, one pixel for each
    unit of the axes; the bottom axis runs from 0 to 4, or from 4 to 0
    when it is reversed. *)
Definition canvas_plot (its : list PlotItem) (reversed : bool) : Plot :=
  {| items := its;
     axis_direction_left := true;
     xmap_p1 := 0; xmap_p2 := 4;
     ymap_p1 := 4; ymap_p2 := 0;
     scale_bottom := if reversed then (4, 0)%Q else (0, 4)%Q;
     scale_left := (4, 0)%Q |}.

Definition bottom_reversed (p : Plot) : bool :=
  Qgt_bool (fst (scale_bottom p)) (snd (scale_bottom p)).

(** An extension for this canvas.  The image shown has the value [c] in
    its column [c]; the canvas column [c] of a reversed plot shows the
    image column [3 - c].  The rows are counted downwards when the left
    axis is reversed and upwards otherwise.  Sampling an empty rectangle
    is refused. *)
Definition canvas_source_rect (p : Plot) (p0 p1 : QPoint) : result (Q * Q * Q * Q) :=
  Ok (fst p0, snd p0, fst p1 - fst p0, snd p1 - snd p0)%Q.

Definition canvas_image (p : Plot) (p0 p1 : QPoint) (src_w src_h : Q)
    (apply_lut : bool) : result ndarray2 :=
  let w := Qfloor (fst p1 - fst p0) in
  let h := if axis_direction_left p then Qfloor (snd p1 - snd p0)
           else Qfloor (snd p0 - snd p1) in
  let c0 := Qfloor (fst p0) in
  if (w <=? 0) || (h <=? 0) then Raise ValueError
  else
    Ok {| a_dtype := Float64;
          a_ncols := Z.to_nat w;
          a_rows :=
            map (fun _ =>
                   map (fun j => Fin (inject_Z (if bottom_reversed p
                                                then 3 - (c0 + j) else c0 + j)))
                       (arange 0 w))
                (arange 0 h) |}.

Definition canvas_ext : Ext :=
  {| get_plot_source_rect := canvas_source_rect;
     get_image_from_plot := canvas_image;
     radavg := fun _ _ _ _ i => (Fin (inject_Z i), Fin 1);
     radavg_mask := fun _ _ _ _ _ i => (Fin (inject_Z i), Fin 1) |}.

(** An object of the given geometry on such a plot. *)
Definition on_canvas (g : Geometry) (its : list PlotItem) (reversed : bool) : PlotObject :=
  {| geom := g;
     plot := Some (canvas_plot its reversed);
     axes_to_canvas := fun x y => Ok (if reversed then (4 - x)%Q else x, y);
     canvas_to_axes := fun p => Ok (if reversed then (4 - fst p)%Q else fst p, snd p) |}.

(** The same canvas with the left axis running upwards: the canvas row
    of the ordinate [y] is [4 - y]. *)
Definition upward_plot (its : list PlotItem) : Plot :=
  {| items := its;
     axis_direction_left := false;
     xmap_p1 := 0; xmap_p2 := 4;
     ymap_p1 := 4; ymap_p2 := 0;
     scale_bottom := (0, 4)%Q;
     scale_left := (0, 4)%Q |}.

Definition on_upward_canvas (g : Geometry) (its : list PlotItem) : PlotObject :=
  {| geom := g;
     plot := Some (upward_plot its);
     axes_to_canvas := fun x y => Ok (x, 4 - y)%Q;
     canvas_to_axes := fun p => Ok (fst p, 4 - snd p)%Q |}.

(** The transforms [get_image_data] collects on a plot. *)
Definition transformed (p : Plot) : list Transform :=
  map get_transform (filter is_TrImageItem (filter eligible (items p))).

(** [m] is the largest of the values of [l]. *)
Definition is_max (m : Q) (l : list Q) : Prop :=
  In m l /\ forall x, In x l -> (x <= m)%Q.

(** ** Order of a profile and mirror image of a sample *)

Definition f_le (a b : f64) : Prop :=
  match a, b with
  | Fin x, Fin y => (x <= y)%Q
  | _, _ => False
  end.

Definition ascending (l : list f64) : Prop :=
  forall i j, (i <= j < length l)%nat -> f_le (nth i l NaN) (nth j l NaN).

Definition descending (l : list f64) : Prop :=
  forall i j, (i <= j < length l)%nat -> f_le (nth j l NaN) (nth i l NaN).

(** The same sample seen on a canvas whose horizontal order is reversed. *)
Definition mirror (a : ndarray2) : ndarray2 :=
  {| a_dtype := a_dtype a; a_ncols := a_ncols a; a_rows := map (@rev f64) (a_rows a) |}.

(** The two points passed to [get_image_data] by the averaged sections,
    from the canvas positions [c0] and [c1] of the corners of the region. *)
Definition sampled_corners (ydir : bool) (c0 c1 : QPoint) : QPoint * QPoint :=
  let invert := Qgt_bool (fst c0) (fst c1) in
  let swap := y_swapped ydir (snd c0) (snd c1) in
  ((if invert then fst c1 else fst c0, if swap then snd c1 else snd c0),
   (if invert then fst c0 else fst c1, if swap then snd c0 else snd c1)).

(** [obj'] shows the region of [obj] on a plot whose horizontal order is
    reversed: the corners have the same positions in data coordinates,
    their canvas columns come in the other order, and what is sampled is
    the mirror image of what is sampled for [obj]. *)
Definition reversed_view (E : Ext) (lut : bool) (obj obj' : PlotObject) : Prop :=
  exists x0 y0 x1 y1 xc0 xc1 xc0' xc1' yc0 yc1 p p' a,
    get_rect obj = Ok (x0, y0, x1, y1)
    /\ get_rect obj' = Ok (x0, y0, x1, y1)
    /\ axes_to_canvas obj x0 y0 = Ok (xc0, yc0)
    /\ axes_to_canvas obj x1 y1 = Ok (xc1, yc1)
    /\ axes_to_canvas obj' x0 y0 = Ok (xc0', yc0)
    /\ axes_to_canvas obj' x1 y1 = Ok (xc1', yc1)
    /\ Qgt_bool xc0 xc1 = false
    /\ Qgt_bool xc0' xc1' = true
    /\ plot obj = Some p
    /\ plot obj' = Some p'
    /\ axis_direction_left p = axis_direction_left p'
    /\ array_wf a
    /\ (let '(p0, p1) := sampled_corners (axis_direction_left p) (xc0, yc0) (xc1, yc1) in
        get_image_data E p p0 p1 lut = Ok (Some a))
    /\ (let '(p0, p1) := sampled_corners (axis_direction_left p') (xc0', yc0) (xc1', yc1) in
        get_image_data E p' p0 p1 lut = Ok (Some (mirror a))).

(** [obj'] shows the region of [obj] on a plot whose left axis runs the
    other way: the corners have the same positions in data coordinates
    and the same canvas columns, their canvas rows come in the other
    order, and sampling between the canvas positions of the same two
    points of the region gives the same on both plots. *)
Definition flipped_view (E : Ext) (lut : bool) (obj obj' : PlotObject) : Prop :=
  exists x0 y0 x1 y1 xc0 xc1 yc0 yc1 yc0' yc1' p p',
    get_rect obj = Ok (x0, y0, x1, y1)
    /\ get_rect obj' = Ok (x0, y0, x1, y1)
    /\ axes_to_canvas obj x0 y0 = Ok (xc0, yc0)
    /\ axes_to_canvas obj x1 y1 = Ok (xc1, yc1)
    /\ axes_to_canvas obj' x0 y0 = Ok (xc0, yc0')
    /\ axes_to_canvas obj' x1 y1 = Ok (xc1, yc1')
    /\ plot obj = Some p
    /\ plot obj' = Some p'
    /\ axis_direction_left p' = negb (axis_direction_left p)
    /\ Qgt_bool yc0' yc1' = Qgt_bool yc1 yc0
    /\ Qgt_bool yc1' yc0' = Qgt_bool yc0 yc1
    /\ (forall (xa xb : Q) (exchanged : bool),
          get_image_data E p' (xa, if exchanged then yc1' else yc0')
                              (xb, if exchanged then yc0' else yc1') lut
          = get_image_data E p (xa, if exchanged then yc1 else yc0)
                               (xb, if exchanged then yc0 else yc1) lut).

(** What is established about a profile [(x, y)] returned by the averaged
    x-section for [obj]: [x] runs evenly from [x0] to [x1]; [y] is empty
    only when sampling failed with an exception the extractor catches,
    and holds otherwise the column means of the sample, reversed exactly
    when the canvas columns of the corners come in reverse order; the
    same region seen on a plot of reversed horizontal order, or on a plot
    whose left axis runs the other way, gives the same profile. *)
Definition average_x_section_correct (E : Ext) (obj : PlotObject) (lut : bool)
    (x y : list f64) : Prop :=
  exists x0 y0 x1 y1 xc0 yc0 xc1 yc1 p,
    get_rect obj = Ok (x0, y0, x1, y1)
    /\ axes_to_canvas obj x0 y0 = Ok (xc0, yc0)
    /\ axes_to_canvas obj x1 y1 = Ok (xc1, yc1)
    /\ plot obj = Some p
    /\ x = linspace x0 x1 (length y)
    /\ ((x0 <= x1)%Q -> ascending x)
    /\ ((x1 <= x0)%Q -> descending x)
    /\ (let '(p0, p1) := sampled_corners (axis_direction_left p) (xc0, yc0) (xc1, yc1) in
        match get_image_data E p p0 p1 lut with
        | Ok (Some a) =>
            y = if Qgt_bool xc0 xc1 then rev (mean_axis0 a) else mean_axis0 a
        | Ok None => False
        | Raise e => caught e = true /\ y = []
        end)
    /\ (forall obj', reversed_view E lut obj obj' ->
                     get_plot_average_x_section E obj' lut = Ok (x, y))
    /\ (forall obj', flipped_view E lut obj obj' ->
                     get_plot_average_x_section E obj' lut = Ok (x, y)).

(** ** What the items are expected to do *)

(** Every value of [l] is not-a-number. *)
Definition all_nan (l : list f64) : Prop := forall v, In v l -> v = NaN.

(** [c'] is [c] with other data. *)
Definition same_item_but_data (c c' : Curve) : Prop :=
  cid c' = cid c /\ klass c' = klass c
  /\ c_perimage_mode c' = c_perimage_mode c
  /\ c_autoscale_mode c' = c_autoscale_mode c
  /\ c_apply_lut c' = c_apply_lut c
  /\ source c' = source c /\ attached c' = attached c /\ shown c' = shown c.

(** The curve after [update_curve_data], when the cross section extracted
    is [(sectx, secty)]. *)
Definition curve_data_policy (st st' : ItemState) (sectx secty : list f64) : Prop :=
  actions st' = actions st
  /\ same_item_but_data (self st) (self st')
  /\ cdy (curve_data (self st')) = None
  /\ (secty = [] \/ all_nan secty ->
      cx (curve_data (self st')) = [] /\ cy (curve_data (self st')) = [])
  /\ (~ (secty = [] \/ all_nan secty) ->
      (_inverted (klass (self st)) = Some true ->
       cx (curve_data (self st')) = secty /\ cy (curve_data (self st')) = sectx)
      /\ (_inverted (klass (self st)) <> Some true ->
          cx (curve_data (self st')) = sectx /\ cy (curve_data (self st')) = secty)).

(** ** What a refresh in single-source mode is expected to do *)


(** The panel after a refresh for the object [o]: [o] is remembered, the
    label is hidden, and the curves and the actions are as given. *)
Definition refreshed (p : Panel) (o : obj_id) (curves : list (src_id * Curve))
    (acts : list Action) : Panel :=
  {| perimage_mode := perimage_mode p; autoscale_mode := autoscale_mode p;
     apply_lut := apply_lut p; last_obj := Some o;
     known_items := curves; _shapes := _shapes p;
     label_visible := false; isVisible := isVisible p; log := acts |}.







(** ** A concrete panel *)

(** Object 0 is a marker and object 1 a rectangle on the canvas plot;
    object 2 is a marker that belongs to no plot; the objects from 3 on
    are gone.  The sources 0 and 1 are alive. *)
Definition detached (g : Geometry) : PlotObject :=
  {| geom := g; plot := None;
     axes_to_canvas := fun x y => Ok (x, y);
     canvas_to_axes := fun c => Ok c |}.

Definition canvas_world : World :=
  {| objects := fun o =>
       match o with
       | 0%nat => on_canvas (MarkerG 1 1) [plain_item] false
       | 1%nat => on_canvas (RectG 0 0 2 1) [plain_item] false
       | _ => detached (MarkerG 0 0)
       end;
     obj_alive := fun o => (o <? 3)%nat;
     sources := fun s => if (s <? 2)%nat then Some strip_source else None |}.


Definition old_data : CurveData :=
  {| cx := [Fin 7]; cy := [Fin 7]; cdy := None |}.

Definition new_curve (k : ItemClass) (id : nat) (src : src_id) : Curve :=
  {| cid := id; klass := k;
     c_perimage_mode := true; c_autoscale_mode := true; c_apply_lut := false;
     source := Some src; attached := true; shown := true;
     curve_data := old_data |}.

Definition two_curve_panel (pm : bool) : Panel :=
  {| perimage_mode := pm; autoscale_mode := true; apply_lut := false;
     last_obj := Some 5%nat;
     known_items := [(0%nat, new_curve XCrossSectionItem 0%nat 0%nat);
                     (1%nat, new_curve XCrossSectionItem 1%nat 1%nat)];
     _shapes := [(0%nat, [1%nat])];
     label_visible := true; isVisible := true; log := [] |}.

(** ** Further statements about the extractors *)

(** Sampling the plot [p] between the points [p0] and [p1] fails with one
    of the two exceptions the extractors catch. *)
Definition sampling_fails (E : Ext) (p : Plot) (p0 p1 : QPoint) (lut : bool) : Prop :=
  exists e, get_image_data E p p0 p1 lut = Raise e /\ caught e = true.

(** Each of the four extractors gives the empty profile for [obj] on the
    plot [p] when sampling fails between the two points this extractor
    passes to [get_image_data]: for the x-section the ends of the bottom
    canvas map at the canvas row of the object and at the next row; for
    the y-section the canvas column of the object and the next one, at
    the ends of the left canvas map; for the averaged sections the canvas
    positions of the corners of the region, put in order. *)
Definition sections_empty (E : Ext) (obj : PlotObject) (p : Plot) (lut : bool) : Prop :=
  (forall x y xc yc,
      get_object_coordinates obj = Ok (x, y) ->
      axes_to_canvas obj 0%Q y = Ok (xc, yc) ->
      sampling_fails E p
        (xmap_p1 p, yc)
        (xmap_p2 p, if axis_direction_left p then (yc + 1)%Q else (yc - 1)%Q) lut ->
      get_plot_x_section E obj lut = Ok empty_profile)
  /\ (forall x y xc yc,
         get_object_coordinates obj = Ok (x, y) ->
         axes_to_canvas obj x 0%Q = Ok (xc, yc) ->
         sampling_fails E p
           (xc, if axis_direction_left p then ymap_p2 p else ymap_p1 p)
           ((xc + 1)%Q, if axis_direction_left p then ymap_p1 p else ymap_p2 p) lut ->
         get_plot_y_section E obj lut = Ok empty_profile)
  /\ (forall x0 y0 x1 y1 c0 c1,
         get_rect obj = Ok (x0, y0, x1, y1) ->
         axes_to_canvas obj x0 y0 = Ok c0 ->
         axes_to_canvas obj x1 y1 = Ok c1 ->
         (let '(q0, q1) := sampled_corners (axis_direction_left p) c0 c1 in
          sampling_fails E p q0 q1 lut) ->
         get_plot_average_x_section E obj lut = Ok empty_profile
         /\ get_plot_average_y_section E obj lut = Ok empty_profile).

(** What is established about a profile [(x, y)] returned by the averaged
    y-section for [obj]. *)
Definition average_y_section_correct (E : Ext) (obj : PlotObject) (lut : bool)
    (x y : list f64) : Prop :=
  exists x0 y0 x1 y1 xc0 yc0 xc1 yc1 p,
    get_rect obj = Ok (x0, y0, x1, y1)
    /\ axes_to_canvas obj x0 y0 = Ok (xc0, yc0)
    /\ axes_to_canvas obj x1 y1 = Ok (xc1, yc1)
    /\ plot obj = Some p
    /\ (let swapped := y_swapped (axis_direction_left p) yc0 yc1 in
        x = (if swapped then rev (linspace y0 y1 (length y))
             else linspace y0 y1 (length y))
        /\ (swapped = false -> (y0 <= y1)%Q -> ascending x)
        /\ (swapped = true -> (y0 <= y1)%Q -> descending x)
        /\ (let '(p0, p1) :=
              sampled_corners (axis_direction_left p) (xc0, yc0) (xc1, yc1) in
            match get_image_data E p p0 p1 lut with
            | Ok (Some a) => y = mean_axis1 a
            | Ok None => False
            | Raise e => caught e = true /\ y = []
            end)).

(** ** Further statements about the radial averager *)

(** A float that is the finite value [c], up to the equality of
    rationals. *)
Definition is_value (c : Q) (v : f64) : Prop :=
  exists q, v = Fin q /\ (q == c)%Q.

(** [v] and [w] are the same float: both not a number, or equal numbers. *)
Definition same_value (v w : f64) : Prop :=
  match v, w with
  | NaN, NaN => True
  | Fin p, Fin q => (p == q)%Q
  | _, _ => False
  end.

(** Every pixel of the region has the value [c]. *)
Definition uniform_region (a : ndarray2) (ix0 iy0 ix1 iy1 : Z) (c : Q) : Prop :=
  forall px py, ix0 <= px < ix1 -> iy0 <= py < iy1 -> pixel a px py = Fin c.

(** What is established about the radius computed from the differences
    [dx] and [dy] of the corner indexes. *)
Definition radius_between_half_sides (dx dy : Z) : Prop :=
  (Z.min (Z.abs dx) (Z.abs dy) + 1) / 2 <= radius_of dx dy
  /\ radius_of dx dy <= (Z.max (Z.abs dx) (Z.abs dy) + 1) / 2
  /\ (Z.abs dx = Z.abs dy -> radius_of dx dy = (Z.abs dx + 1) / 2)
  /\ radius_of dy dx = radius_of dx dy
  /\ radius_of (- dx) dy = radius_of dx dy
  /\ radius_of dx (- dy) = radius_of dx dy.

(** What is established about the abscissas of a radial section. *)
Definition radial_abscissas_from_zero (E : Ext) (item : SourceImage)
    (x0 y0 x1 y1 : Q) (dyfunc : option dy_policy) : Prop :=
  let '(xdata, ydata, dydata) := compute_radial_section E item x0 y0 x1 y1 dyfunc in
  (length xdata <= length ydata)%nat
  /\ (forall d, dydata = Some d -> dyfunc = None -> d = [])
  /\ match xdata with
     | [] => True
     | first :: _ => first = NaN \/ is_value 0 first
     end.

(** ** The update of an item as a function of the item *)

Definition with_data (c : Curve) (d : CurveData) : Curve :=
  {| cid := cid c; klass := klass c;
     c_perimage_mode := c_perimage_mode c;
     c_autoscale_mode := c_autoscale_mode c;
     c_apply_lut := c_apply_lut c;
     source := source c; attached := attached c; shown := shown c;
     curve_data := d |}.

(** The data [update_curve_data] gives to the curve [c] for [obj]: none
    when the curve is left alone, and otherwise the new data or the
    exception raised. *)
Definition new_data (W : World) (E : Ext) (obj : PlotObject) (c : Curve)
    : option (result CurveData) :=
  match klass c with
  | RACrossSectionItem =>
      match get_rectangular_area obj with
      | Some (x0, y0, x1, y1) =>
          match get_source_image W c with
          | None => Some (Raise AttributeError)
          | Some s =>
              let '(sectx, secty, sectdy) := compute_radial_section E s x0 y0 x1 y1 None in
              Some (Ok (if no_signal secty
                        then {| cx := []; cy := []; cdy := None |}
                        else {| cx := sectx; cy := secty; cdy := sectdy |}))
          end
      | None => None
      end
  | _ =>
      match get_cross_section W E c obj with
      | Raise e => Some (Raise e)
      | Ok (sectx, secty) =>
          let '(x, y) := if no_signal secty then ([], []) else (sectx, secty) in
          Some (Ok (if truthy (_inverted (klass c))
                    then {| cx := y; cy := x; cdy := None |}
                    else {| cx := x; cy := y; cdy := None |}))
      end
  end.

(** The actions of [update_scale] for the curve [c], or the exception it
    raises. *)
Definition scale_actions (W : World) (c : Curve) : result (list Action) :=
  let axis (bottom : bool) :=
    match get_source_image W c with
    | None => Raise AttributeError
    | Some s =>
        match source_plot s with
        | None => Raise AttributeError
        | Some sp =>
            let '(lower, upper) := if bottom then scale_bottom sp else scale_left sp in
            Ok [SetAxisScale bottom lower upper; Replot]
        end
    end in
  match klass c with
  | CrossSectionItem => Raise NotImplementedError
  | XCrossSectionItem => axis true
  | YCrossSectionItem => axis false
  | RACrossSectionItem => Ok []
  end.

(** The outcome of [update_item] for the curve [c]: what it returns, the
    curve it leaves and the actions it adds. *)
Definition item_run (W : World) (E : Ext) (plot_visible : bool)
    (obj : PlotObject) (c : Curve) : result unit * Curve * list Action :=
  if negb (attached c) then (Ok tt, c, [])
  else
    match get_source_image W c with
    | None => (Ok tt, c, [])
    | Some _ =>
        if negb plot_visible then (Ok tt, c, [])
        else
          let after (c' : Curve) :=
            if negb (c_autoscale_mode c')
            then match scale_actions W c' with
                 | Ok acts => (Ok tt, c', Emit_SIG_CS_CURVE_CHANGED (cid c') :: acts)
                 | Raise e => (Raise e, c', [Emit_SIG_CS_CURVE_CHANGED (cid c')])
                 end
            else (Ok tt, c', [Emit_SIG_CS_CURVE_CHANGED (cid c')]) in
          match new_data W E obj c with
          | None => after c
          | Some (Ok d) => after (with_data c d)
          | Some (Raise e) => (Raise e, c, [])
          end
    end.

(** The identity of a curve: what no refresh changes. *)
Definition same_identity (c c' : Curve) : Prop :=
  cid c' = cid c /\ klass c' = klass c
  /\ source c' = source c /\ attached c' = attached c.

(** What a call of [update_plot] that takes the panel from [p] to [p']
    keeps: the modes and the visibility of the panel, the sources of the
    curves in their order and the identity of each curve, the actions
    already recorded, and no shape that was unknown becomes known. *)
Definition refresh_keeps (p p' : Panel) : Prop :=
  perimage_mode p' = perimage_mode p
  /\ autoscale_mode p' = autoscale_mode p
  /\ apply_lut p' = apply_lut p
  /\ isVisible p' = isVisible p
  /\ Forall2 (fun e e' => fst e' = fst e /\ same_identity (snd e) (snd e'))
             (known_items p) (known_items p')
  /\ (exists added, log p' = log p ++ added)
  /\ (forall shape, is_shape_known p' shape = true -> is_shape_known p shape = true).

(** What [update_item] emits and returns once the data of the curve has
    been updated, for a source image [s] that is alive. *)
Definition item_signals (W : World) (E : Ext) (obj : PlotObject)
    (st : ItemState) (s : SourceImage) : Prop :=
  let out := update_item W E true obj st in
  let emitted := Emit_SIG_CS_CURVE_CHANGED (cid (self st)) in
  (c_autoscale_mode (self st) = true ->
   fst out = Ok tt /\ actions (snd out) = actions st ++ [emitted])
  /\ (c_autoscale_mode (self st) = false ->
      forall sp, source_plot s = Some sp ->
        (klass (self st) = XCrossSectionItem ->
         fst out = Ok tt
         /\ actions (snd out)
            = actions st ++ [emitted;
                             SetAxisScale true (fst (scale_bottom sp)) (snd (scale_bottom sp));
                             Replot])
        /\ (klass (self st) = YCrossSectionItem ->
            fst out = Ok tt
            /\ actions (snd out)
               = actions st ++ [emitted;
                                SetAxisScale false (fst (scale_left sp)) (snd (scale_left sp));
                                Replot]))
  /\ (c_autoscale_mode (self st) = false ->
      source_plot s = None ->
      klass (self st) = XCrossSectionItem \/ klass (self st) = YCrossSectionItem ->
      fst out = Raise AttributeError
      /\ actions (snd out) = actions st ++ [emitted]
      /\ self (snd out) = self (snd (update_curve_data W E obj st))).

(** Every curve is shown and has the modes [pm], [am], [lut]. *)
Definition all_shown_with_modes (pm am lut : bool) (l : list (src_id * Curve)) : Prop :=
  Forall (fun e => shown (snd e) = true
                   /\ c_perimage_mode (snd e) = pm
                   /\ c_autoscale_mode (snd e) = am
                   /\ c_apply_lut (snd e) = lut) l.

(** ** Statements about the registry of shapes and the toggles *)

(** The number of registrations of [shape]. *)
Definition registrations (shape : obj_id) (reg : list (plot_id * list obj_id)) : nat :=
  list_sum (map (fun entry => count_occ Nat.eq_dec (snd entry) shape) reg).

(** What [unregister_shape] does to the registry. *)
Definition unregistered (shape : obj_id) (reg reg' : list (plot_id * list obj_id)) : Prop :=
  map fst reg' = map fst reg
  /\ registrations shape reg' = pred (registrations shape reg)
  /\ (forall x, x <> shape -> registrations x reg' = registrations x reg)
  /\ (registrations shape reg = 0%nat -> reg' = reg).

(** What a refresh for an object that belongs to no plot does. *)
Definition detached_refresh (W : World) (E : Ext) (o : obj_id) (p : Panel) : Prop :=
  let out := update_plot W E (Some o) p in
  fst out = Ok tt
  /\ known_items (snd out) = known_items p
  /\ log (snd out) = log p
  /\ label_visible (snd out) = label_visible p
  /\ last_obj (snd out) = Some o
  /\ unregistered o (_shapes p) (_shapes (snd out)).

(** What the three toggles and [lut_changed] do to the modes. *)
Definition toggles_set_modes (W : World) (E : Ext) (state : bool) (p : Panel) : Prop :=
  let modes q := (perimage_mode q, autoscale_mode q, apply_lut q) in
  modes (snd (toggle_perimage_mode W E state p))
  = (state, autoscale_mode p, apply_lut p)
  /\ modes (snd (toggle_autoscale W E state p))
     = (perimage_mode p, state, apply_lut p)
  /\ modes (snd (toggle_apply_lut W E state p))
     = (perimage_mode p, autoscale_mode p, state)
  /\ (get_last_obj W p = None ->
      toggle_perimage_mode W E state p
      = (Ok tt, with_modes p state (autoscale_mode p) (apply_lut p))
      /\ toggle_autoscale W E state p
         = (Ok tt, with_modes p (perimage_mode p) state (apply_lut p))
      /\ toggle_apply_lut W E state p
         = (Ok tt, with_modes p (perimage_mode p) (autoscale_mode p) state))
  /\ (apply_lut p = false -> lut_changed W E p = (Ok tt, p))
  /\ (apply_lut p = true -> lut_changed W E p = update_plot W E None p).

(** * Annotations: [guiqwt/annotations.py] *)

(** [compute_center] and [compute_rect_size] *)
Definition compute_center (x1 y1 x2 y2 : Q) : Q * Q :=
  ((1 # 2) * (x1 + x2), (1 # 2) * (y1 + y2))%Q.

Definition Q_fabs (q : Q) : Q := if Qle_bool 0 q then q else (- q)%Q.

Definition compute_rect_size (x1 y1 x2 y2 : Q) : Q * Q :=
  ((x2 - x1)%Q, Q_fabs (y2 - y1)).

(** The matrix [annotationparam.transform_matrix], three rows of three
    coefficients, and [apply_transform_matrix]: the row vector [(x, y, 1)]
    times the matrix, of which the first two coordinates are returned. *)
Definition Matrix3 : Type := (Q * Q * Q) * (Q * Q * Q) * (Q * Q * Q).

Definition apply_transform_matrix (m : Matrix3) (x y : Q) : Q * Q :=
  let '((m00, m01, _), (m10, m11, _), (m20, m21, _)) := m in
  (x * m00 + y * m10 + 1 * m20, x * m01 + y * m11 + 1 * m21)%Q.

Definition identity_matrix : Matrix3 :=
  ((1, 0, 0), (0, 1, 0), (0, 0, 1))%Q.

(** [AnnotatedRectangle.get_transformed_coords] for two handles of the
    shape, whose points are given by [points]. *)
Definition get_transformed_coords (m : Matrix3) (points : nat -> Q * Q)
    (handle1 handle2 : nat) : Q * Q * Q * Q :=
  let '(x1, y1) := apply_transform_matrix m (fst (points handle1)) (snd (points handle1)) in
  let '(x2, y2) := apply_transform_matrix m (fst (points handle2)) (snd (points handle2)) in
  (x1, y1, x2, y2).

(** The centre and the size that [AnnotatedRectangle.get_infos] reports. *)
Definition rectangle_center (m : Matrix3) (points : nat -> Q * Q) : Q * Q :=
  let '(x1, y1, x2, y2) := get_transformed_coords m points 0 2 in
  compute_center x1 y1 x2 y2.

Definition rectangle_size (m : Matrix3) (points : nat -> Q * Q) : Q * Q :=
  let '(x1, y1, x2, y2) := get_transformed_coords m points 0 2 in
  compute_rect_size x1 y1 x2 y2.

Definition pair_eq (a b : Q * Q) : Prop :=
  (fst a == fst b)%Q /\ (snd a == snd b)%Q.

(** The points of a shape with the corners 0 and 2 exchanged. *)
Definition exchange_corners (points : nat -> Q * Q) : nat -> Q * Q :=
  fun handle =>
    match handle with
    | 0%nat => points 2%nat
    | 2%nat => points 0%nat
    | _ => points handle
    end.

(** What is established about the centre and the size reported for a
    rectangle whose opposite corners are the points 0 and 2: the width is
    the signed difference of the transformed abscissas, the height the
    absolute difference of the transformed ordinates; exchanging the two
    corners keeps the centre and the height and gives the opposite
    width. *)
Definition rectangle_infos_correct (m : Matrix3) (points : nat -> Q * Q) : Prop :=
  let '(tx0, ty0) := apply_transform_matrix m (fst (points 0%nat)) (snd (points 0%nat)) in
  let '(tx2, ty2) := apply_transform_matrix m (fst (points 2%nat)) (snd (points 2%nat)) in
  (fst (rectangle_size m points) == tx2 - tx0)%Q
  /\ (0 <= snd (rectangle_size m points))%Q
  /\ ((ty0 <= ty2)%Q -> (snd (rectangle_size m points) == ty2 - ty0)%Q)
  /\ ((ty2 <= ty0)%Q -> (snd (rectangle_size m points) == ty0 - ty2)%Q)
  /\ pair_eq (rectangle_center m (exchange_corners points)) (rectangle_center m points)
  /\ (fst (rectangle_size m (exchange_corners points))
      == - fst (rectangle_size m points))%Q
  /\ (snd (rectangle_size m (exchange_corners points))
      == snd (rectangle_size m points))%Q.

(** * The scripting interface: [guiqwt/pyplot.py] *)

(** The cell of [subplot(n, m, k)]: [lig = (k-1)/m] and [col = (k-1)%m],
    with the integer division of Python. *)
Definition subplot_cell (n m k : Z) : result (Z * Z) :=
  if m =? 0 then Raise ZeroDivisionError
  else Ok ((k - 1) / m, (k - 1) mod m).

(** [Figure.print_]: the rectangle [(ox, oy, w, h)] given to each of the
    axes of the figure on a device of width [W] and height [H].  The keys
    of the axes are the cells [(i, j)]; without axes the array of the
    keys has no column to take, which raises [IndexError]. *)
Definition min_of (l : list Z) (d : Z) : Z := fold_right Z.min d l.
Definition max_of (l : list Z) (d : Z) : Z := fold_right Z.max d l.

Definition print_layout (keys : list (Z * Z)) (W H : Z)
    : result (list ((Z * Z) * (Z * Z * Z * Z))) :=
  match keys with
  | [] => Raise IndexError
  | (i0, j0) :: _ =>
      let imin := min_of (map fst keys) i0 in
      let imax := max_of (map fst keys) i0 in
      let jmin := min_of (map snd keys) j0 in
      let jmax := max_of (map snd keys) j0 in
      let w := W / (jmax - jmin + 1) in
      let h := H / (imax - imin + 1) in
      Ok (map (fun key =>
                 let '(i, j) := key in
                 (key, ((j - jmin) * w, (i - imin) * h, w, h)))
              keys)
  end.

(** The rectangle [(ox, oy, w, h)] lies on a device of size [W] x [H]. *)
Definition inside_device (W H : Z) (r : Z * Z * Z * Z) : Prop :=
  let '(ox, oy, w, h) := r in
  0 <= ox /\ ox + w <= W /\ 0 <= oy /\ oy + h <= H.

(** Two rectangles have no point in common, their right and bottom edges
    left out. *)
Definition disjoint_rects (r r' : Z * Z * Z * Z) : Prop :=
  let '(ox, oy, w, h) := r in
  let '(ox', oy', w', h') := r' in
  ox + w <= ox' \/ ox' + w' <= ox \/ oy + h <= oy' \/ oy' + h' <= oy.

Definition layout_correct (keys : list (Z * Z)) (W H : Z) : Prop :=
  exists cells,
    print_layout keys W H = Ok cells
    /\ map fst cells = keys
    /\ (forall key r, In (key, r) cells -> inside_device W H r)
    /\ (forall key r key' r', In (key, r) cells -> In (key', r') cells ->
                              key <> key' -> disjoint_rects r r').

From Stdlib Require String DecimalString.

(** ** The text of an annotated shape *)

Module AnnotatedShape.
Import String.
Local Open Scope string_scope.

(** A string counts as true when it is not empty. *)
Definition truth (s : string) : bool :=
  match s with EmptyString => false | _ => true end.

(** [AnnotatedShape.get_text]: [title] is the text of the title of the
    item, [subtitle] that of its parameters, and [position_text] what
    [get_position_and_size_text] returns. *)
Definition get_text (title subtitle : string) (position_and_size_visible : bool)
    (position_text : string) : string :=
  let text := "" in
  let text := if truth title then text ++ ("<b>" ++ title ++ "</b>") else text in
  let text :=
    if truth subtitle then
      let text := if truth text then text ++ "<br>" else text in
      text ++ ("<i>" ++ subtitle ++ "</i>")
    else text in
  let text :=
    if position_and_size_visible then
      let text := if truth text then text ++ "<br>" else text in
      text ++ position_text
    else text in
  text.

(** The parts of the text: the title in bold, the subtitle in italics,
    the position and size. *)
Definition parts (title subtitle : string) (position_and_size_visible : bool)
    (position_text : string) : list string :=
  (if truth title then ["<b>" ++ title ++ "</b>"] else [])
  ++ (if truth subtitle then ["<i>" ++ subtitle ++ "</i>"] else [])
  ++ (if position_and_size_visible then [position_text] else []).

End AnnotatedShape.

(** ** Figures and axes *)

(** Dictionaries as association lists without repeated key, in the order
    of insertion. *)
Fixpoint dict_get {K V} (eqb : K -> K -> bool) (k : K) (d : list (K * V)) : option V :=
  match d with
  | [] => None
  | (k', v) :: t => if eqb k k' then Some v else dict_get eqb k t
  end.

Fixpoint dict_set {K V} (eqb : K -> K -> bool) (k : K) (v : V) (d : list (K * V))
    : list (K * V) :=
  match d with
  | [] => [(k, v)]
  | (k', v') :: t => if eqb k k' then (k', v) :: t else (k', v') :: dict_set eqb k v t
  end.

(** [d.pop(k)]: the value and the dictionary without the key, or nothing
    when the key is missing (a [KeyError]). *)
Fixpoint dict_pop {K V} (eqb : K -> K -> bool) (k : K) (d : list (K * V))
    : option (V * list (K * V)) :=
  match d with
  | [] => None
  | (k', v) :: t =>
      if eqb k k' then Some (v, t)
      else match dict_pop eqb k t with
           | Some (v', t') => Some (v', (k', v) :: t')
           | None => None
           end
  end.

Module Pyplot.
Import String.
Local Open Scope string_scope.

Definition fig_id : Type := nat.
Definition ax_id : Type := nat.

(** An [Axes] object as [Axes.__init__] leaves it (the lists of items
    apart, which the functions below do not read). *)
Record Axes : Type := mk_axes {
  ax_grid : bool;
  ax_xlabel : string * string;
  ax_ylabel : string * string;
  ax_yreverse : bool;
  ax_colormap : string;
  ax_xscale : string;
  ax_yscale : string
}.

Definition new_axes : Axes :=
  {| ax_grid := false; ax_xlabel := ("", ""); ax_ylabel := ("", "");
     ax_yreverse := false; ax_colormap := "jet";
     ax_xscale := "lin"; ax_yscale := "lin" |}.

Record Figure : Type := mk_figure {
  f_title : string;
  f_axes : list ((Z * Z) * ax_id)
}.

(** The globals [_figures], [_current_fig] and [_current_axes], with the
    figures and the axes created so far; a figure or an axes object is
    known by its rank of creation. *)
Record State : Type := mk_state {
  figures : list (string * fig_id);
  current_fig : option fig_id;
  current_axes : option ax_id;
  fig_heap : list Figure;
  ax_heap : list Axes
}.

Definition initial : State :=
  {| figures := []; current_fig := None; current_axes := None;
     fig_heap := []; ax_heap := [] |}.

Definition the_figure (st : State) (f : fig_id) : Figure :=
  nth f (fig_heap st) {| f_title := ""; f_axes := [] |}.

(** The argument [N] of [figure]: absent, a string or an integer. *)
Inductive FigureArg : Type :=
| NoArg
| Named (s : string)
| Numbered (n : Z).

(** ["%d" % n] *)
Definition decimal (n : Z) : string :=
  DecimalString.NilZero.string_of_int (Z.to_int n).

Definition _make_figure_title (st : State) (N : FigureArg) : string :=
  match N with
  | NoArg => "Figure " ++ decimal (Z.of_nat (List.length (figures st)) + 1)
  | Named s => s
  | Numbered n => "Figure " ++ decimal n
  end.

Definition figure (N : FigureArg) (st : State) : fig_id * State :=
  let title := _make_figure_title st N in
  match dict_get String.eqb title (figures st) with
  | Some f =>
      (f, {| figures := figures st; current_fig := Some f; current_axes := None;
             fig_heap := fig_heap st; ax_heap := ax_heap st |})
  | None =>
      let f := List.length (fig_heap st) in
      (f, {| figures := dict_set String.eqb title f (figures st);
             current_fig := Some f; current_axes := None;
             fig_heap := fig_heap st ++ [{| f_title := title; f_axes := [] |}];
             ax_heap := ax_heap st |})
  end.

Definition gcf (st : State) : fig_id * State :=
  match current_fig st with
  | Some f => (f, st)
  | None => figure NoArg st
  end.

Definition cell_eqb (a b : Z * Z) : bool :=
  (fst a =? fst b)%Z && (snd a =? snd b)%Z.

Fixpoint set_nth {A} (n : nat) (x : A) (l : list A) {struct l} : list A :=
  match l, n with
  | [], _ => []
  | _ :: t, O => x :: t
  | y :: t, S n' => y :: set_nth n' x t
  end.

(** [Figure.get_axes] on the figure [f] *)
Definition get_axes (f : fig_id) (i j : Z) (st : State) : ax_id * State :=
  let fig := the_figure st f in
  match dict_get cell_eqb (i, j) (f_axes fig) with
  | Some a => (a, st)
  | None =>
      let a := List.length (ax_heap st) in
      (a, {| figures := figures st; current_fig := current_fig st;
             current_axes := current_axes st;
             fig_heap :=
               set_nth f {| f_title := f_title fig;
                            f_axes := dict_set cell_eqb (i, j) a (f_axes fig) |}
                       (fig_heap st);
             ax_heap := ax_heap st ++ [new_axes] |})
  end.

Definition with_current_axes (st : State) (a : ax_id) : State :=
  {| figures := figures st; current_fig := current_fig st;
     current_axes := Some a; fig_heap := fig_heap st; ax_heap := ax_heap st |}.

Definition gca (st : State) : ax_id * State :=
  match current_axes st with
  | Some a => (a, st)
  | None =>
      let '(f, st1) := gcf st in
      let '(a, st2) := get_axes f 1 1 st1 in
      (a, with_current_axes st2 a)
  end.

Definition subplot (n m k : Z) (st : State) : result (ax_id * State) :=
  rbind (subplot_cell n m k)
        (fun cell =>
           let '(f, st1) := gcf st in
           let '(a, st2) := get_axes f (fst cell) (snd cell) st1 in
           Ok (a, with_current_axes st2 a)).

(** [title(text)]; nothing is returned when [_figures.pop] raises
    [KeyError]. *)
Definition title (text : string) (st : State) : option State :=
  let '(f, st1) := gcf st in
  let fig := the_figure st1 f in
  match dict_pop String.eqb (f_title fig) (figures st1) with
  | None => None
  | Some (_, figs) =>
      Some {| figures := dict_set String.eqb text f figs;
              current_fig := current_fig st1;
              current_axes := current_axes st1;
              fig_heap := set_nth f {| f_title := text; f_axes := f_axes fig |}
                                  (fig_heap st1);
              ax_heap := ax_heap st1 |}
  end.

(** [close(all=True)] *)
Definition close_all (st : State) : State :=
  {| figures := []; current_fig := None; current_axes := None;
     fig_heap := fig_heap st; ax_heap := ax_heap st |}.

(** Every figure of [_figures] is registered under its own title, once,
    and the current figure, when there is one, is registered. *)
Definition registry_ok (st : State) : Prop :=
  NoDup (map fst (figures st))
  /\ (forall t f, In (t, f) (figures st) ->
                  (f < List.length (fig_heap st))%nat /\ f_title (the_figure st f) = t)
  /\ (forall f, current_fig st = Some f ->
                In (f_title (the_figure st f), f) (figures st)).

(** What is established about the functions that work on the figures. *)
Definition registry_kept (st : State) : Prop :=
  (forall N, registry_ok (snd (figure N st)))
  /\ registry_ok (snd (gcf st))
  /\ registry_ok (snd (gca st))
  /\ (forall n m k out, subplot n m k st = Ok out -> registry_ok (snd out))
  /\ (forall text, exists st', title text st = Some st' /\ registry_ok st')
  /\ registry_ok (close_all st).

End Pyplot.

(** * Properties *)

(** ** Rounding a square root to the nearest integer *)

Section Rounding.
Local Open Scope R_scope.

Lemma round_half_up_between (x : R) (t : Z) :
  IZR t <= x < IZR t + 1 ->
  Int_part (x / 2 + / 2) = ((t + 1) / 2)%Z.
Proof.
  intros [Hlo Hhi]. symmetry. apply Int_part_spec.
  pose proof (Z.div_mod (t + 1) 2 ltac:(lia)) as Hdm.
  pose proof (Z.mod_pos_bound (t + 1) 2 ltac:(lia)) as Hm.
  set (r := ((t + 1) / 2)%Z) in *.
  assert (Hcase : (t + 1 = 2 * r \/ t = 2 * r)%Z) by lia.
  destruct Hcase as [H | H].
  - assert (Ht : IZR t + 1 = 2 * IZR r).
    { rewrite <- (plus_IZR t 1), H, mult_IZR. reflexivity. }
    lra.
  - assert (Ht : IZR t = 2 * IZR r) by (rewrite H, mult_IZR; reflexivity).
    lra.
Qed.

Lemma sqrt_between (a : R) (s : Z) :
  (0 <= s)%Z -> IZR (s * s) <= a < IZR ((s + 1) * (s + 1)) ->
  IZR s <= sqrt a < IZR s + 1.
Proof.
  intros Hs [Hlo Hhi].
  assert (H0 : 0 <= IZR s) by (apply IZR_le; exact Hs).
  assert (Hss : 0 <= IZR (s * s)) by (apply IZR_le; nia).
  split.
  - rewrite <- (sqrt_square (IZR s)) at 1 by exact H0.
    apply sqrt_le_1_alt. rewrite <- mult_IZR. exact Hlo.
  - replace (IZR s + 1) with (IZR (s + 1)) by (rewrite plus_IZR; reflexivity).
    rewrite <- (sqrt_square (IZR (s + 1))) by (apply IZR_le; lia).
    apply sqrt_lt_1_alt. rewrite <- mult_IZR. lra.
Qed.

(** [shell_index] is the source's [floor(sqrt(x**2 + y**2) + .5)]. *)
Lemma shell_index_real (x y : Z) :
  Int_part (sqrt (IZR x * IZR x + IZR y * IZR y) + / 2) = shell_index x y.
Proof.
  unfold shell_index.
  set (n := (x * x + y * y)%Z).
  assert (Hn : (0 <= n)%Z) by (unfold n; nia).
  pose proof (Z.sqrt_spec (4 * n) ltac:(lia)) as Hs. cbv zeta in Hs.
  pose proof (Z.sqrt_nonneg (4 * n)) as Hs0.
  set (s := Z.sqrt (4 * n)) in *.
  assert (Hb : IZR s <= sqrt (IZR (4 * n)) < IZR s + 1).
  { apply sqrt_between; [exact Hs0 |].
    split; [apply IZR_le | apply IZR_lt]; lia. }
  assert (Hsq : sqrt (IZR (4 * n)) = 2 * sqrt (IZR n)).
  { rewrite mult_IZR. replace (IZR 4) with (2 * 2) by lra.
    rewrite sqrt_mult_alt by lra. rewrite sqrt_square by lra. reflexivity. }
  rewrite Hsq in Hb.
  rewrite <- (round_half_up_between (2 * sqrt (IZR n)) s Hb).
  f_equal. unfold n. rewrite plus_IZR, !mult_IZR. lra.
Qed.

(** [radius_of] is the source's
    [floor(.5*sqrt(.5*dx**2 + .5*dy**2) + .5)]. *)
Lemma radius_of_real (dx dy : Z) :
  Int_part (/ 2 * sqrt (/ 2 * (IZR dx * IZR dx) + / 2 * (IZR dy * IZR dy)) + / 2)
  = radius_of dx dy.
Proof.
  unfold radius_of.
  set (n := (dx * dx + dy * dy)%Z).
  assert (Hn : (0 <= n)%Z) by (unfold n; nia).
  pose proof (Z.div_mod n 2 ltac:(lia)) as Hdm.
  pose proof (Z.mod_pos_bound n 2 ltac:(lia)) as Hm.
  assert (Hq : (0 <= n / 2)%Z) by (apply Z.div_pos; lia).
  pose proof (Z.sqrt_spec (n / 2) Hq) as Hs. cbv zeta in Hs.
  pose proof (Z.sqrt_nonneg (n / 2)) as Hs0.
  set (t := Z.sqrt (n / 2)) in *.
  assert (Hb : IZR t <= sqrt (IZR n / 2) < IZR t + 1).
  { apply sqrt_between; [exact Hs0 |].
    split.
    - assert (H : IZR (2 * (t * t)) <= IZR n) by (apply IZR_le; lia).
      rewrite mult_IZR in H. lra.
    - assert (H : IZR n + 1 <= IZR (2 * ((t + 1) * (t + 1)))).
      { rewrite <- (plus_IZR n 1). apply IZR_le. lia. }
      rewrite mult_IZR in H. lra. }
  rewrite <- (round_half_up_between (sqrt (IZR n / 2)) t Hb).
  f_equal. unfold n. rewrite plus_IZR, !mult_IZR.
  replace (/ 2 * (IZR dx * IZR dx) + / 2 * (IZR dy * IZR dy))
    with ((IZR dx * IZR dx + IZR dy * IZR dy) / 2) by lra.
  lra.
Qed.

End Rounding.

(** ** Lists, slices and grids *)

Lemma seq_from (a n : nat) :
  seq a n = map (fun k => (a + k)%nat) (seq 0 n).
Proof.
  revert a. induction n as [| n IH]; intros a; [reflexivity |].
  cbn [seq map]. rewrite Nat.add_0_r. f_equal.
  rewrite (IH (S a)), (IH 1%nat), map_map.
  apply map_ext. intros k. lia.
Qed.

Lemma firstn_skipn_nth {A} (d : A) (l : list A) (a n : nat) :
  (a + n <= length l)%nat ->
  firstn n (skipn a l) = map (fun k => nth (a + k) l d) (seq 0 n).
Proof.
  revert a n. induction l as [| x t IH]; intros a n Hlen; cbn [length] in Hlen.
  - assert (n = 0%nat) by lia. subst n. destruct a; reflexivity.
  - destruct a as [| a].
    + destruct n as [| n]; [reflexivity |].
      cbn [skipn firstn seq map]. f_equal.
      specialize (IH 0%nat n ltac:(lia)). cbn [skipn] in IH. rewrite IH.
      rewrite (seq_from 1 n), map_map. apply map_ext. intros k. reflexivity.
    + cbn [skipn]. rewrite (IH a n ltac:(lia)). apply map_ext. intros k. reflexivity.
Qed.

Lemma slice_bound_inside (n i : Z) : 0 <= i <= n -> slice_bound n i = i.
Proof. intros H. unfold slice_bound. destruct (Z.ltb_spec i 0); lia. Qed.

Lemma py_slice_nth {A} (d : A) (l : list A) (a b : Z) :
  0 <= a <= b -> b <= Z.of_nat (length l) ->
  py_slice l a b
  = map (fun k => nth (Z.to_nat a + k) l d) (seq 0 (Z.to_nat (b - a))).
Proof.
  intros Hab Hb. unfold py_slice.
  rewrite !slice_bound_inside by lia.
  apply firstn_skipn_nth. lia.
Qed.

Lemma arange_seq (a b : Z) :
  arange a b = map (fun k => a + Z.of_nat k) (seq 0 (Z.to_nat (b - a))).
Proof. reflexivity. Qed.

Lemma repeat_map_seq {A} (c : A) (n : nat) :
  repeat c n = map (fun _ => c) (seq 0 n).
Proof.
  induction n as [| n IH]; [reflexivity |].
  cbn [repeat seq map]. f_equal. rewrite IH, (seq_from 1 n), map_map. reflexivity.
Qed.

Lemma zip_with_map {A B C D} (f : B -> C -> D) (g : A -> B) (g' : A -> C) (l : list A) :
  zip_with f (map g l) (map g' l) = map (fun x => f (g x) (g' x)) l.
Proof.
  unfold zip_with. induction l as [| x t IH]; [reflexivity |].
  cbn [map combine fst snd]. f_equal. exact IH.
Qed.

Lemma flat_map_map {A B C} (f : B -> list C) (g : A -> B) (l : list A) :
  flat_map f (map g l) = flat_map (fun x => f (g x)) l.
Proof.
  induction l as [| x t IH]; [reflexivity |].
  cbn [map flat_map]. rewrite IH. reflexivity.
Qed.

Lemma concat_map_flat_map {A B} (f : A -> list B) (l : list A) :
  concat (map f l) = flat_map f l.
Proof. symmetry. apply flat_map_concat_map. Qed.

(** Selecting along one row with a boolean mask. *)
Lemma select_row {A} (f : A -> f64) (g : A -> Z) (l : list A) (i_r : Z) :
  map fst (filter (fun p => snd p =? i_r) (combine (map f l) (map g l)))
  = flat_map (fun j => if g j =? i_r then [f j] else []) l.
Proof.
  induction l as [| x t IH]; [reflexivity |].
  cbn [map combine filter flat_map snd].
  destruct (g x =? i_r); cbn [map fst app]; rewrite IH; reflexivity.
Qed.

Lemma flat_map_ext_in {A B} (f g : A -> list B) (l : list A) :
  (forall x, In x l -> f x = g x) -> flat_map f l = flat_map g l.
Proof.
  induction l as [| x t IH]; intros H; [reflexivity |].
  cbn [flat_map]. rewrite (H x (or_introl eq_refl)), IH; [reflexivity |].
  intros y Hy. apply H. right. exact Hy.
Qed.

(** Skipping the empty shells. *)
Lemma flat_map_nonempty {A} (g : A -> list f64) (l : list A) :
  flat_map (fun i => match g i with [] => [] | _ => [fmean (g i)] end) l
  = map fmean (filter (fun m => negb (length m =? 0)%nat) (map g l)).
Proof.
  induction l as [| x t IH]; [reflexivity |].
  cbn [flat_map map filter]. rewrite IH.
  destruct (g x); reflexivity.
Qed.

(** ** The radial averager against its specification *)

Lemma slice2_rows (a : ndarray2) (ix0 iy0 ix1 iy1 : Z) :
  array_wf a ->
  0 <= ix0 <= ix1 -> ix1 <= Z.of_nat (a_ncols a) ->
  0 <= iy0 <= iy1 -> iy1 <= Z.of_nat (a_nrows a) ->
  a_rows (slice2 a iy0 iy1 ix0 ix1)
  = map (fun i => map (fun j => pixel a (ix0 + Z.of_nat j) (iy0 + Z.of_nat i))
                      (seq 0 (Z.to_nat (ix1 - ix0))))
        (seq 0 (Z.to_nat (iy1 - iy0))).
Proof.
  intros Hwf Hx Hx1 Hy Hy1. unfold slice2, a_nrows in *. cbn [a_rows].
  rewrite (py_slice_nth [] (a_rows a) iy0 iy1 Hy Hy1), map_map.
  apply map_ext_in. intros i Hi. apply in_seq in Hi.
  assert (Hrow : length (nth (Z.to_nat iy0 + i) (a_rows a) []) = a_ncols a).
  { unfold array_wf in Hwf. rewrite Forall_forall in Hwf.
    apply Hwf. apply nth_In. lia. }
  rewrite (py_slice_nth NaN _ ix0 ix1 Hx) by (rewrite Hrow; exact Hx1).
  apply map_ext. intros j. unfold pixel.
  replace (Z.to_nat (ix0 + Z.of_nat j)) with (Z.to_nat ix0 + j)%nat by lia.
  replace (Z.to_nat (iy0 + Z.of_nat i)) with (Z.to_nat iy0 + i)%nat by lia.
  reflexivity.
Qed.

Lemma rgrid_rows (h w cx cy : Z) :
  rgrid h w cx cy
  = map (fun i => map (fun j => shell_index (Z.of_nat j - cx) (Z.of_nat i - cy))
                      (seq 0 (Z.to_nat w)))
        (seq 0 (Z.to_nat h)).
Proof.
  unfold rgrid, xgrid, ygrid.
  rewrite (repeat_map_seq _ (Z.to_nat h)), !arange_seq, !Z.sub_0_r.
  rewrite (map_map (fun k => 0 + Z.of_nat k) (fun i => repeat (i - cy) (Z.to_nat w))).
  rewrite zip_with_map. apply map_ext. intros i.
  rewrite map_map, repeat_map_seq, zip_with_map.
  apply map_ext. intros j. reflexivity.
Qed.

Lemma mask_select_members (a : ndarray2) (ix0 iy0 ix1 iy1 ixc iyc i_r : Z) :
  array_wf a ->
  0 <= ix0 <= ix1 -> ix1 <= Z.of_nat (a_ncols a) ->
  0 <= iy0 <= iy1 -> iy1 <= Z.of_nat (a_nrows a) ->
  mask_select (a_rows (slice2 a iy0 iy1 ix0 ix1))
              (rgrid (iy1 - iy0) (ix1 - ix0) (ixc - ix0) (iyc - iy0)) i_r
  = shell_members a ix0 iy0 ix1 iy1 ixc iyc i_r.
Proof.
  intros Hwf Hx Hx1 Hy Hy1. unfold mask_select, shell_members.
  rewrite slice2_rows by assumption. rewrite rgrid_rows.
  rewrite zip_with_map, concat_map_flat_map, !arange_seq, flat_map_map.
  apply flat_map_ext_in. intros i _.
  rewrite select_row, flat_map_map.
  apply flat_map_ext_in. intros j _. unfold in_shell.
  replace (ix0 + Z.of_nat j - ixc) with (Z.of_nat j - (ixc - ix0)) by lia.
  replace (iy0 + Z.of_nat i - iyc) with (Z.of_nat i - (iyc - iy0)) by lia.
  reflexivity.
Qed.

Lemma same_shape_slice2 (a : ndarray2) (ix0 iy0 ix1 iy1 : Z) :
  0 <= ix0 <= ix1 -> ix1 <= Z.of_nat (a_ncols a) ->
  0 <= iy0 <= iy1 -> iy1 <= Z.of_nat (a_nrows a) ->
  same_shape (slice2 a iy0 iy1 ix0 ix1) (iy1 - iy0) (ix1 - ix0) = true.
Proof.
  intros Hx Hx1 Hy Hy1. unfold same_shape, a_nrows in *. cbn [slice2 a_rows a_ncols].
  rewrite length_map, (py_slice_nth [] (a_rows a) iy0 iy1 Hy Hy1).
  rewrite length_map, length_seq, !slice_bound_inside by lia.
  apply andb_true_intro. split; apply Z.eqb_eq; lia.
Qed.

Lemma kept_shells_length (a : ndarray2) (ix0 iy0 ix1 iy1 ixc iyc iradius : Z) :
  (length (kept_shells a ix0 iy0 ix1 iy1 ixc iyc iradius)
   <= Z.to_nat (iradius + 1))%nat.
Proof.
  unfold kept_shells.
  eapply Nat.le_trans; [apply filter_length_le |].
  rewrite length_map. unfold arange. rewrite length_map, length_seq. lia.
Qed.

Lemma in_shell_real (ixc iyc r px py : Z) :
  in_shell ixc iyc r px py = true <->
  Int_part (sqrt (IZR (px - ixc) * IZR (px - ixc)
                  + IZR (py - iyc) * IZR (py - iyc)) + / 2)%R = r.
Proof.
  unfold in_shell. rewrite shell_index_real. apply Z.eqb_eq.
Qed.

(** The mean of finite values is their sum divided by their number. *)
Lemma fmean_finite (qs : list Q) :
  qs <> [] ->
  fmean (map Fin qs)
  = Fin (fold_right Qplus 0%Q qs / inject_Z (Z.of_nat (length qs))).
Proof.
  intros Hne.
  assert (Hsum : fsum (map Fin qs) = Fin (fold_right Qplus 0%Q qs)).
  { clear Hne. induction qs as [| q t IH]; [reflexivity |].
    cbn [map fsum fold_right] in *. unfold fsum in IH. rewrite IH. reflexivity. }
  unfold fmean. rewrite Hsum, length_map.
  destruct qs; [contradiction | reflexivity].
Qed.

(** C3 (as amended): on an array and a region inside it, a pixel belongs
    to shell [r] exactly when the rounded distance
    [floor(sqrt((px-cx)^2 + (py-cy)^2) + 0.5)] is [r]; the output holds,
    for each shell of radius [0] to [iradius] that has a member, the
    arithmetic mean of the members converted to the element type of the
    array (the mean itself on a float array); shells without a member are
    left out, so that the output has at most [iradius + 1] values. *)
Theorem radial_average_spec (a : ndarray2) (ix0 iy0 ix1 iy1 ixc iyc iradius : Z) :
  array_wf a ->
  0 <= ix0 <= ix1 -> ix1 <= Z.of_nat (a_ncols a) ->
  0 <= iy0 <= iy1 -> iy1 <= Z.of_nat (a_nrows a) ->
  radial_average_correct a ix0 iy0 ix1 iy1 ixc iyc iradius.
Proof.
  intros Hwf Hx Hx1 Hy Hy1.
  assert (Hout : radial_average a ix0 iy0 ix1 iy1 ixc iyc iradius
                 = Ok (map (fun m => astype (a_dtype a) (fmean m))
                           (kept_shells a ix0 iy0 ix1 iy1 ixc iyc iradius))).
  { unfold radial_average, kept_shells.
    destruct (Z.ltb_spec (iy1 - iy0) 0); [lia |].
    destruct (Z.ltb_spec (ix1 - ix0) 0); [lia |].
    cbn [orb].
    destruct (arange 0 (iradius + 1)) as [| i0 shells] eqn:Hsh; [reflexivity |].
    rewrite same_shape_slice2 by assumption.
    f_equal. cbn [slice2 a_dtype].
    rewrite <- (map_map fmean (astype (a_dtype a))). f_equal.
    rewrite <- flat_map_nonempty.
    apply flat_map_ext_in. intros i_r _.
    change (a_rows {| a_dtype := a_dtype a;
                      a_ncols := Z.to_nat (slice_bound (Z.of_nat (a_ncols a)) ix1
                                           - slice_bound (Z.of_nat (a_ncols a)) ix0);
                      a_rows := map (fun row => py_slice row ix0 ix1)
                                    (py_slice (a_rows a) iy0 iy1) |})
      with (a_rows (slice2 a iy0 iy1 ix0 ix1)).
    rewrite mask_select_members by assumption. reflexivity. }
  unfold radial_average_correct.
  split; [intros px py r; apply in_shell_real |].
  split; [exact Hout |].
  split; [apply kept_shells_length |].
  intros Hfloat. rewrite Hout, Hfloat. reflexivity.
Qed.

Lemma radial_average_spec_witness :
  radial_average_correct (row_013 Float64) 0 0 3 1 1 0 1.
Proof.
  apply (radial_average_spec (row_013 Float64) 0 0 3 1 1 0 1).
  - repeat constructor.
  - lia.
  - simpl. lia.
  - lia.
  - simpl. lia.
Defined.

(** C3, as it is stated, fails on an integer array: around the middle
    pixel of the row [0 1 3], shell 1 holds the pixels 0 and 3, whose mean
    is 3/2, and the averager returns 1 for it. *)
Lemma radial_average_int_mean_truncated :
  radial_average (row_013 Int64) 0 0 3 1 1 0 1
  = Ok [Fin (inject_Z 1); Fin (inject_Z 1)]
  /\ map fmean (kept_shells (row_013 Int64) 0 0 3 1 1 0 1)
     = [Fin (1 # 1); Fin (3 # 2)]
  /\ ~ (inject_Z 1 == 3 # 2)%Q.
Proof.
  split; [vm_compute; reflexivity |].
  split; [vm_compute; reflexivity |].
  intros H. vm_compute in H. discriminate H.
Qed.

(** Corners in the wrong order are refused, and so is a region that
    reaches outside the array. *)
Example radial_average_reversed_corners :
  radial_average (row_013 Float64) 2 0 1 1 1 0 1 = Raise ValueError.
Proof. vm_compute. reflexivity. Qed.

Example radial_average_outside :
  radial_average (row_013 Float64) 0 0 5 1 1 0 1 = Raise IndexError.
Proof. vm_compute. reflexivity. Qed.

(** A shell without a member is left out: with the region reduced to the
    centre pixel and a radius of 2, the output has one value. *)
Example radial_average_omits_empty_shells :
  radial_average (row_013 Float64) 1 0 2 1 1 0 2 = Ok [Fin (1 # 1)].
Proof. vm_compute. reflexivity. Qed.

(** ** The radial section *)

Lemma radius_of_zero (dx dy : Z) :
  radius_of dx dy = 0 <-> dx * dx + dy * dy < 2.
Proof.
  unfold radius_of.
  set (n := dx * dx + dy * dy).
  assert (Hn : 0 <= n) by (unfold n; nia).
  pose proof (Z.div_mod n 2 ltac:(lia)) as Hdm.
  pose proof (Z.mod_pos_bound n 2 ltac:(lia)) as Hm.
  assert (Hq : 0 <= n / 2) by (apply Z.div_pos; lia).
  pose proof (Z.sqrt_spec (n / 2) Hq) as Hs. cbv zeta in Hs.
  pose proof (Z.sqrt_nonneg (n / 2)) as Hs0.
  set (t := Z.sqrt (n / 2)) in *.
  pose proof (Z.div_mod (t + 1) 2 ltac:(lia)) as Hdm'.
  pose proof (Z.mod_pos_bound (t + 1) 2 ltac:(lia)) as Hm'.
  split; intros H.
  - assert (t = 0) by lia. nia.
  - assert (n / 2 = 0) by lia.
    assert (t = 0) by nia.
    subst t. replace (Z.sqrt (n / 2)) with 0 in * by lia. reflexivity.
Qed.

Lemma radius_of_nonneg (dx dy : Z) : 0 <= radius_of dx dy.
Proof.
  unfold radius_of. apply Z.div_pos; [| lia].
  pose proof (Z.sqrt_nonneg ((dx * dx + dy * dy) / 2)). lia.
Qed.

(** C4: [compute_radial_section] converts the corners to pixel indexes,
    takes as centre the pixel closest to the midpoint of the corners in
    data coordinates, computes the radius
    [floor(0.5*sqrt(0.5*dx^2 + 0.5*dy^2) + 0.5)] from the differences of
    the corner indexes, and returns zero-length arrays when this radius
    is zero. *)
Theorem compute_radial_section_spec (E : Ext) (item : SourceImage)
    (x0 y0 x1 y1 : Q) (dyfunc : option dy_policy) :
  radial_section_correct E item x0 y0 x1 y1 dyfunc.
Proof.
  unfold radial_section_correct, compute_radial_section.
  destruct (get_closest_pixel_indexes item x0 y0) as [ix0 iy0].
  destruct (get_closest_pixel_indexes item x1 y1) as [ix1 iy1].
  destruct (get_closest_pixel_indexes item _ _) as [ixc iyc].
  cbn [fst snd]. rewrite radius_of_real.
  split; [apply radius_of_nonneg |].
  split; [apply radius_of_zero |].
  split.
  - intros H0. rewrite H0. reflexivity.
  - intros Hne. destruct (Z.eqb_spec (radius_of (ix1 - ix0) (iy1 - iy0)) 0) as [H0 | _];
      [contradiction |].
    cbn [fst snd]. rewrite !map_map.
    split; [reflexivity |].
    split; [| reflexivity].
    unfold arange. rewrite !length_map, length_seq. f_equal. lia.
Qed.

(** ** Sampling the plot *)

Lemma py_max_from_spec (l : list Q) (m : Q) :
  is_max (py_max_from m l) (m :: l).
Proof.
  revert m. induction l as [| x t IH]; intros m.
  - split; [left; reflexivity |].
    intros y [Hy | []]. subst y. apply Qle_refl.
  - cbn [py_max_from].
    destruct (Qle_bool x m) eqn:Hxm.
    + destruct (IH m) as [Hin Hub]. split.
      * destruct Hin as [Hin | Hin]; [left; exact Hin | right; right; exact Hin].
      * intros y [Hy | [Hy | Hy]].
        -- apply Hub. left. exact Hy.
        -- subst y. apply Qle_bool_iff in Hxm.
           eapply Qle_trans; [exact Hxm |]. apply Hub. left. reflexivity.
        -- apply Hub. right. exact Hy.
    + destruct (IH x) as [Hin Hub]. split.
      * right. exact Hin.
      * intros y [Hy | [Hy | Hy]].
        -- subst y. assert (Hmx : (m <= x)%Q).
           { destruct (Qlt_le_dec m x) as [Hlt | Hle]; [apply Qlt_le_weak; exact Hlt |].
             apply Qle_bool_iff in Hle. congruence. }
           eapply Qle_trans; [exact Hmx |]. apply Hub. left. reflexivity.
        -- apply Hub. left. exact Hy.
        -- apply Hub. right. exact Hy.
Qed.

Lemma py_max_spec (l : list Q) :
  l <> [] -> exists m, py_max l = Ok m /\ is_max m l.
Proof.
  destruct l as [| x t]; [contradiction |]. intros _.
  exists (py_max_from x t). split; [reflexivity | apply py_max_from_spec].
Qed.

Lemma get_image_data_no_source (E : Ext) (p : Plot) (p0 p1 : QPoint) (lut : bool) :
  filter eligible (items p) = [] ->
  get_image_data E p p0 p1 lut = Ok None.
Proof. intros H. unfold get_image_data. rewrite H. reflexivity. Qed.

(** C9: on a plot with a transformed image item, [get_image_data] divides
    the width of the source rectangle by the largest [dx] and its height
    by the largest [dy] of the transforms of these items, and then
    extracts the image with the divided sizes; a division by zero raises
    before anything is extracted. *)
Theorem get_image_data_resolution (E : Ext) (p : Plot) (p0 p1 : QPoint)
    (lut : bool) (x y w h : Q) :
  (exists item, In item (items p) /\ eligible item = true
                /\ is_TrImageItem item = true) ->
  get_plot_source_rect E p p0 p1 = Ok (x, y, w, h) ->
  exists mx my,
    is_max mx (map tr_dx (transformed p))
    /\ is_max my (map tr_dy (transformed p))
    /\ get_image_data E p p0 p1 lut
       = (w' <- py_div w mx ;;
          h' <- py_div h my ;;
          a <- get_image_from_plot E p p0 p1 w' h' lut ;;
          Ok (Some a))%result
    /\ (~ (mx == 0)%Q -> ~ (my == 0)%Q ->
        get_image_data E p p0 p1 lut
        = (a <- get_image_from_plot E p p0 p1 (w / mx)%Q (h / my)%Q lut ;;
           Ok (Some a))%result).
Proof.
  intros (item & Hin & Hel & Htr) Hrect.
  assert (Hitems : In item (filter is_TrImageItem (filter eligible (items p)))).
  { apply filter_In. split; [| exact Htr]. apply filter_In. split; assumption. }
  assert (Hne : transformed p <> []).
  { unfold transformed. intros Hnil.
    apply (in_map get_transform) in Hitems. rewrite Hnil in Hitems. exact Hitems. }
  destruct (py_max_spec (map tr_dx (transformed p))) as (mx & Hmx & Hmaxx).
  { intros Hnil. apply map_eq_nil in Hnil. contradiction. }
  destruct (py_max_spec (map tr_dy (transformed p))) as (my & Hmy & Hmaxy).
  { intros Hnil. apply map_eq_nil in Hnil. contradiction. }
  exists mx, my.
  assert (Heq : get_image_data E p p0 p1 lut
                = (w' <- py_div w mx ;;
                   h' <- py_div h my ;;
                   a <- get_image_from_plot E p p0 p1 w' h' lut ;;
                   Ok (Some a))%result).
  { unfold get_image_data. unfold transformed in *.
    destruct (filter eligible (items p)) as [| i0 its] eqn:Hel0; [destruct Hitems |].
    rewrite Hrect. cbn [rbind].
    destruct (map get_transform (filter is_TrImageItem (i0 :: its))) as [| t0 ts] eqn:Htrs;
      [contradiction |].
    rewrite Hmx. cbn [rbind].
    destruct (py_div w mx); [| reflexivity]. cbn [rbind].
    rewrite Hmy. reflexivity. }
  split; [exact Hmaxx |]. split; [exact Hmaxy |]. split; [exact Heq |].
  intros Hx0 Hy0. rewrite Heq. unfold py_div.
  destruct (Qeq_bool mx 0) eqn:Ex; [apply Qeq_bool_iff in Ex; contradiction |].
  destruct (Qeq_bool my 0) eqn:Ey; [apply Qeq_bool_iff in Ey; contradiction |].
  reflexivity.
Qed.

Lemma get_image_data_resolution_witness :
  exists mx my,
    is_max mx (map tr_dx (transformed (canvas_plot [tr_item 2 4; tr_item 1 8] false)))
    /\ is_max my (map tr_dy (transformed (canvas_plot [tr_item 2 4; tr_item 1 8] false)))
    /\ get_image_data canvas_ext (canvas_plot [tr_item 2 4; tr_item 1 8] false)
         (0, 0)%Q (4, 4)%Q false
       = (w' <- py_div (4 - 0) mx ;;
          h' <- py_div (4 - 0) my ;;
          a <- get_image_from_plot canvas_ext
                 (canvas_plot [tr_item 2 4; tr_item 1 8] false)
                 (0, 0)%Q (4, 4)%Q w' h' false ;;
          Ok (Some a))%result
    /\ (~ (mx == 0)%Q -> ~ (my == 0)%Q ->
        get_image_data canvas_ext (canvas_plot [tr_item 2 4; tr_item 1 8] false)
          (0, 0)%Q (4, 4)%Q false
        = (a <- get_image_from_plot canvas_ext
                  (canvas_plot [tr_item 2 4; tr_item 1 8] false)
                  (0, 0)%Q (4, 4)%Q ((4 - 0) / mx)%Q ((4 - 0) / my)%Q false ;;
           Ok (Some a))%result).
Proof.
  apply (get_image_data_resolution canvas_ext
           (canvas_plot [tr_item 2 4; tr_item 1 8] false)
           (0, 0)%Q (4, 4)%Q false 0%Q 0%Q (4 - 0)%Q (4 - 0)%Q).
  - exists (tr_item 2 4). split; [left; reflexivity |]. split; reflexivity.
  - reflexivity.
Defined.

(** A division by zero in the scaling and a [ValueError] of the sampler
    are turned into the empty profile. *)
Lemma with_image_data_caught (e : exn) (rest : option ndarray2 -> result profile) :
  e = ValueError \/ e = ZeroDivisionError ->
  with_image_data (Raise e) rest = Ok empty_profile.
Proof. intros [H | H]; subst e; reflexivity. Qed.

Example zero_scale_gives_empty_profile :
  get_plot_x_section canvas_ext (on_canvas (MarkerG 1 1) [tr_item 0 1] false) false
  = Ok empty_profile.
Proof. vm_compute. reflexivity. Qed.

(** C1 fails on a plot without an eligible image: [get_image_data] returns
    [None], the mean of [None] raises [AttributeError], which the
    extractors do not catch.  Here the plot holds an XY image item only. *)
Theorem plot_sections_raise_without_source :
  get_plot_x_section canvas_ext (on_canvas (MarkerG 1 1) [xy_item] false) false
  = Raise AttributeError
  /\ get_plot_y_section canvas_ext (on_canvas (MarkerG 1 1) [xy_item] false) false
     = Raise AttributeError
  /\ get_plot_average_x_section canvas_ext
       (on_canvas (RectG 1 0 3 1) [xy_item] false) false
     = Raise AttributeError
  /\ get_plot_average_y_section canvas_ext
       (on_canvas (RectG 1 0 3 1) [xy_item] false) false
     = Raise AttributeError.
Proof. repeat split; vm_compute; reflexivity. Qed.

Lemma get_plot_x_section_without_source (E : Ext) (obj : PlotObject) (lut : bool)
    (x y : Q) (p : Plot) (c : QPoint) :
  get_object_coordinates obj = Ok (x, y) ->
  plot obj = Some p ->
  axes_to_canvas obj 0%Q y = Ok c ->
  filter eligible (items p) = [] ->
  get_plot_x_section E obj lut = Raise AttributeError.
Proof.
  intros Hc Hp Ha Hnone. unfold get_plot_x_section, plot_of.
  rewrite Hc, Hp. cbn [rbind]. rewrite Ha. destruct c as [xc yc]. cbn [rbind].
  rewrite get_image_data_no_source by exact Hnone. reflexivity.
Qed.

Lemma get_plot_y_section_without_source (E : Ext) (obj : PlotObject) (lut : bool)
    (x y : Q) (p : Plot) (c : QPoint) :
  get_object_coordinates obj = Ok (x, y) ->
  plot obj = Some p ->
  axes_to_canvas obj x 0%Q = Ok c ->
  filter eligible (items p) = [] ->
  get_plot_y_section E obj lut = Raise AttributeError.
Proof.
  intros Hc Hp Ha Hnone. unfold get_plot_y_section, plot_of.
  rewrite Hc, Hp. cbn [rbind]. rewrite Ha. destruct c as [xc yc]. cbn [rbind].
  rewrite get_image_data_no_source by exact Hnone. reflexivity.
Qed.

Lemma get_plot_average_sections_without_source (E : Ext) (obj : PlotObject)
    (lut : bool) (x0 y0 x1 y1 : Q) (p : Plot) (c0 c1 : QPoint) :
  get_rect obj = Ok (x0, y0, x1, y1) ->
  axes_to_canvas obj x0 y0 = Ok c0 ->
  axes_to_canvas obj x1 y1 = Ok c1 ->
  plot obj = Some p ->
  filter eligible (items p) = [] ->
  get_plot_average_x_section E obj lut = Raise AttributeError
  /\ get_plot_average_y_section E obj lut = Raise AttributeError.
Proof.
  intros Hr H0 H1 Hp Hnone.
  unfold get_plot_average_x_section, get_plot_average_y_section, plot_of.
  rewrite Hr. cbn [rbind]. rewrite H0. destruct c0 as [xc0 yc0]. cbn [rbind].
  rewrite H1. destruct c1 as [xc1 yc1]. cbn [rbind]. rewrite Hp. cbn [rbind].
  rewrite !get_image_data_no_source by exact Hnone. split; reflexivity.
Qed.

(** ** Order of the averaged profile *)

Lemma length_linspace (a b : Q) (n : nat) : length (linspace a b n) = n.
Proof.
  destruct n as [| [| m]]; [reflexivity | reflexivity |].
  unfold linspace. rewrite length_map, length_seq. reflexivity.
Qed.

Lemma nth_linspace (a b : Q) (m i : nat) :
  (i < S (S m))%nat ->
  nth i (linspace a b (S (S m))) NaN
  = Fin (a + inject_Z (Z.of_nat i) * ((b - a) / inject_Z (Z.of_nat (S m)))).
Proof.
  intros Hi. unfold linspace.
  set (f := fun i : nat =>
              Fin (a + inject_Z (Z.of_nat i) * ((b - a) / inject_Z (Z.of_nat (S m))))).
  rewrite (nth_indep _ NaN (f 0%nat)) by (rewrite length_map, length_seq; exact Hi).
  rewrite map_nth, seq_nth by exact Hi. reflexivity.
Qed.

Lemma step_nonneg (d : Q) (m : nat) :
  (0 <= d)%Q -> (0 <= d / inject_Z (Z.of_nat (S m)))%Q.
Proof.
  intros Hd. apply Qle_shift_div_l.
  - change 0%Q with (inject_Z 0). rewrite <- Zlt_Qlt. lia.
  - rewrite Qmult_0_l. exact Hd.
Qed.

Lemma step_nonpos (d : Q) (m : nat) :
  (d <= 0)%Q -> (d / inject_Z (Z.of_nat (S m)) <= 0)%Q.
Proof.
  intros Hd. apply Qle_shift_div_r.
  - change 0%Q with (inject_Z 0). rewrite <- Zlt_Qlt. lia.
  - rewrite Qmult_0_l. exact Hd.
Qed.

Lemma linspace_ascending (a b : Q) (n : nat) :
  (a <= b)%Q -> ascending (linspace a b n).
Proof.
  intros Hab i j. rewrite length_linspace. intros Hij.
  destruct n as [| [| m]]; [lia | |].
  - assert (i = 0%nat) by lia. assert (j = 0%nat) by lia. subst.
    cbn. apply Qle_refl.
  - rewrite !nth_linspace by lia. cbn [f_le].
    apply Qplus_le_r. apply Qmult_le_compat_r.
    + rewrite <- Zle_Qle. lia.
    + apply step_nonneg. lra.
Qed.

Lemma linspace_descending (a b : Q) (n : nat) :
  (b <= a)%Q -> descending (linspace a b n).
Proof.
  intros Hab i j. rewrite length_linspace. intros Hij.
  destruct n as [| [| m]]; [lia | |].
  - assert (i = 0%nat) by lia. assert (j = 0%nat) by lia. subst.
    cbn. apply Qle_refl.
  - rewrite !nth_linspace by lia. cbn [f_le].
    apply Qplus_le_r.
    assert (Hs : ((b - a) / inject_Z (Z.of_nat (S m)) <= 0)%Q)
      by (apply step_nonpos; lra).
    assert (Hij' : (inject_Z (Z.of_nat i) <= inject_Z (Z.of_nat j))%Q)
      by (rewrite <- Zle_Qle; lia).
    set (s := ((b - a) / inject_Z (Z.of_nat (S m)))%Q) in *.
    set (qi := inject_Z (Z.of_nat i)) in *.
    set (qj := inject_Z (Z.of_nat j)) in *.
    assert (H : (qi * (- s) <= qj * (- s))%Q)
      by (apply Qmult_le_compat_r; [exact Hij' | lra]).
    lra.
Qed.

Lemma rev_seq (n : nat) :
  rev (seq 0 n) = map (fun j => (n - 1 - j)%nat) (seq 0 n).
Proof.
  induction n as [| n IH]; [reflexivity |].
  replace (rev (seq 0 (S n))) with (n :: rev (seq 0 n))
    by (rewrite seq_S, rev_app_distr; reflexivity).
  cbn [seq map]. f_equal; [lia |].
  rewrite IH, (seq_from 1 n), map_map.
  apply map_ext. intros j. lia.
Qed.

Lemma mean_axis0_mirror (a : ndarray2) :
  array_wf a -> mean_axis0 (mirror a) = rev (mean_axis0 a).
Proof.
  intros Hwf. unfold mean_axis0. cbn [mirror a_ncols].
  rewrite <- map_rev, rev_seq, map_map.
  apply map_ext_in. intros j Hj. apply in_seq in Hj.
  f_equal. unfold column. cbn [mirror a_rows]. rewrite map_map.
  apply map_ext_in. intros row Hrow.
  unfold array_wf in Hwf. rewrite Forall_forall in Hwf. specialize (Hwf row Hrow).
  rewrite rev_nth by lia. f_equal. lia.
Qed.

Lemma length_mean_axis0 (a : ndarray2) : length (mean_axis0 a) = a_ncols a.
Proof. unfold mean_axis0. rewrite length_map, length_seq. reflexivity. Qed.

Lemma average_x_section_unfold (E : Ext) (obj : PlotObject) (lut : bool)
    (x0 y0 x1 y1 xc0 yc0 xc1 yc1 : Q) (p : Plot) :
  get_rect obj = Ok (x0, y0, x1, y1) ->
  axes_to_canvas obj x0 y0 = Ok (xc0, yc0) ->
  axes_to_canvas obj x1 y1 = Ok (xc1, yc1) ->
  plot obj = Some p ->
  get_plot_average_x_section E obj lut
  = (let '(p0, p1) := sampled_corners (axis_direction_left p) (xc0, yc0) (xc1, yc1) in
     with_image_data (get_image_data E p p0 p1 lut)
       (fun d =>
          y <- data_mean 0 d ;;
          let y := if Qgt_bool xc0 xc1 then rev y else y in
          Ok (linspace x0 x1 (length y), y))%result).
Proof.
  intros Hr H0 H1 Hp. unfold get_plot_average_x_section, plot_of.
  rewrite Hr. cbn [rbind]. rewrite H0. cbn [rbind]. rewrite H1. cbn [rbind].
  rewrite Hp. reflexivity.
Qed.

Lemma average_x_section_reversed (E : Ext) (lut : bool) (obj obj' : PlotObject) :
  reversed_view E lut obj obj' ->
  get_plot_average_x_section E obj' lut = get_plot_average_x_section E obj lut.
Proof.
  intros (x0 & y0 & x1 & y1 & xc0 & xc1 & xc0' & xc1' & yc0 & yc1 & p & p' & a
          & Hr & Hr' & H0 & H1 & H0' & H1' & Hn & Hrv & Hp & Hp' & Hd & Hwf & Hs & Hs').
  rewrite (average_x_section_unfold E obj lut _ _ _ _ _ _ _ _ p Hr H0 H1 Hp).
  rewrite (average_x_section_unfold E obj' lut _ _ _ _ _ _ _ _ p' Hr' H0' H1' Hp').
  destruct (sampled_corners (axis_direction_left p) (xc0, yc0) (xc1, yc1)) as [q0 q1].
  destruct (sampled_corners (axis_direction_left p') (xc0', yc0) (xc1', yc1)) as [q0' q1'].
  rewrite Hs, Hs', Hn, Hrv. cbn [with_image_data data_mean rbind].
  rewrite mean_axis0_mirror by exact Hwf. rewrite rev_involutive. reflexivity.
Qed.

Lemma y_swapped_flipped (ydir : bool) (yc0 yc1 yc0' yc1' : Q) :
  Qgt_bool yc0' yc1' = Qgt_bool yc1 yc0 ->
  Qgt_bool yc1' yc0' = Qgt_bool yc0 yc1 ->
  y_swapped (negb ydir) yc0' yc1' = y_swapped ydir yc0 yc1.
Proof.
  intros H01 H10. unfold y_swapped.
  change (Qlt_bool yc0' yc1') with (Qgt_bool yc1' yc0').
  change (Qlt_bool yc0 yc1) with (Qgt_bool yc1 yc0).
  rewrite H01, H10, negb_involutive. apply orb_comm.
Qed.

Lemma average_x_section_flipped (E : Ext) (lut : bool) (obj obj' : PlotObject) :
  flipped_view E lut obj obj' ->
  get_plot_average_x_section E obj' lut = get_plot_average_x_section E obj lut.
Proof.
  intros (x0 & y0 & x1 & y1 & xc0 & xc1 & yc0 & yc1 & yc0' & yc1' & p & p'
          & Hr & Hr' & H0 & H1 & H0' & H1' & Hp & Hp' & Hd & H01 & H10 & Hs).
  rewrite (average_x_section_unfold E obj lut _ _ _ _ _ _ _ _ p Hr H0 H1 Hp).
  rewrite (average_x_section_unfold E obj' lut _ _ _ _ _ _ _ _ p' Hr' H0' H1' Hp').
  unfold sampled_corners. cbn [fst snd].
  rewrite Hd, (y_swapped_flipped _ _ _ _ _ H01 H10), Hs. reflexivity.
Qed.

(** C2 (as amended): a profile [(x, y)] returned by the averaged x-section
    has its [x] running evenly from the [x0] to the [x1] of the region as
    the object gives them, ascending when [x0 <= x1] and descending when
    [x1 <= x0]; its [y] is empty only when sampling failed with a
    [ValueError] or a [ZeroDivisionError], and holds otherwise the column
    means of the sample, reversed exactly when the canvas columns of the
    two corners come in reverse order; and the same region seen on a plot
    of reversed horizontal order, or on a plot whose left axis runs the
    other way, gives the same profile. *)
Theorem average_x_section_order (E : Ext) (obj : PlotObject) (lut : bool)
    (x y : list f64) :
  get_plot_average_x_section E obj lut = Ok (x, y) ->
  average_x_section_correct E obj lut x y.
Proof.
  intros Hrun. unfold average_x_section_correct.
  destruct (get_rect obj) as [[[[x0 y0] x1] y1] | e] eqn:Hr;
    [| unfold get_plot_average_x_section in Hrun; rewrite Hr in Hrun; discriminate].
  destruct (axes_to_canvas obj x0 y0) as [[xc0 yc0] | e] eqn:H0;
    [| unfold get_plot_average_x_section in Hrun; rewrite Hr in Hrun;
       cbn [rbind] in Hrun; rewrite H0 in Hrun; discriminate].
  destruct (axes_to_canvas obj x1 y1) as [[xc1 yc1] | e] eqn:H1;
    [| unfold get_plot_average_x_section in Hrun; rewrite Hr in Hrun;
       cbn [rbind] in Hrun; rewrite H0 in Hrun; cbn [rbind] in Hrun;
       rewrite H1 in Hrun; discriminate].
  destruct (plot obj) as [p |] eqn:Hp;
    [| unfold get_plot_average_x_section, plot_of in Hrun; rewrite Hr in Hrun;
       cbn [rbind] in Hrun; rewrite H0 in Hrun; cbn [rbind] in Hrun;
       rewrite H1 in Hrun; cbn [rbind] in Hrun; rewrite Hp in Hrun; discriminate].
  exists x0, y0, x1, y1, xc0, yc0, xc1, yc1, p.
  pose proof Hrun as Hrun'.
  rewrite (average_x_section_unfold E obj lut _ _ _ _ _ _ _ _ p Hr H0 H1 Hp) in Hrun.
  destruct (sampled_corners (axis_direction_left p) (xc0, yc0) (xc1, yc1)) as [q0 q1].
  assert (Hx : x = linspace x0 x1 (length y)
               /\ match get_image_data E p q0 q1 lut with
                  | Ok (Some a) =>
                      y = if Qgt_bool xc0 xc1 then rev (mean_axis0 a) else mean_axis0 a
                  | Ok None => False
                  | Raise e => caught e = true /\ y = []
                  end).
  { destruct (get_image_data E p q0 q1 lut) as [[a |] | e] eqn:Hs;
      cbn [with_image_data data_mean rbind] in Hrun.
    - injection Hrun as Hx Hy. subst y. split; [symmetry; exact Hx | reflexivity].
    - discriminate.
    - destruct (caught e); [| discriminate].
      injection Hrun as Hx Hy. subst x y. repeat split. }
  destruct Hx as [Hx Hy].
  repeat (split; [first [reflexivity | assumption] |]).
  split; [intros Hle; rewrite Hx; apply linspace_ascending; exact Hle |].
  split; [intros Hle; rewrite Hx; apply linspace_descending; exact Hle |].
  split; [exact Hy |].
  split; intros obj' Hview; rewrite <- Hrun'.
  - apply average_x_section_reversed. exact Hview.
  - apply average_x_section_flipped. exact Hview.
Qed.

Lemma average_x_section_order_witness :
  average_x_section_correct canvas_ext
    (on_canvas (RectG 1 0 3 1) [plain_item] false) false
    [Fin 1; Fin 3] [Fin 1; Fin 2].
Proof.
  apply (average_x_section_order canvas_ext
           (on_canvas (RectG 1 0 3 1) [plain_item] false) false).
  vm_compute. reflexivity.
Defined.

(** C2, as it is stated, fails on a region given from right to left: the
    [x] of the profile runs from 3 down to 1. *)
Lemma average_x_section_descending_x :
  get_plot_average_x_section canvas_ext
    (on_canvas (RectG 3 0 1 1) [plain_item] false) false
  = Ok ([Fin 3; Fin 1], [Fin 2; Fin 1])
  /\ ~ ascending [Fin 3; Fin 1].
Proof.
  split; [vm_compute; reflexivity |].
  intros H. specialize (H 0%nat 1%nat). cbn in H.
  assert (Hle : (3 <= 1)%Q) by (apply H; lia).
  unfold Qle in Hle. cbn in Hle. lia.
Qed.

(** The reversed canvas is a reversed view of the plain one. *)
Example canvas_reversed_view :
  reversed_view canvas_ext false
    (on_canvas (RectG 1 0 3 1) [plain_item] false)
    (on_canvas (RectG 1 0 3 1) [plain_item] true).
Proof.
  exists 1%Q, 0%Q, 3%Q, 1%Q, 1%Q, 3%Q, (4 - 1)%Q, (4 - 3)%Q, 0%Q, 1%Q.
  exists (canvas_plot [plain_item] false), (canvas_plot [plain_item] true).
  exists {| a_dtype := Float64; a_ncols := 2;
            a_rows := [[Fin (inject_Z 1); Fin (inject_Z 2)]] |}.
  repeat (split; [first [reflexivity | repeat constructor] |]).
  vm_compute. reflexivity.
Qed.

(** The canvas whose left axis runs upwards is a flipped view of the
    plain one, and gives the same profile. *)
Example canvas_flipped_view :
  flipped_view canvas_ext false
    (on_canvas (RectG 1 0 3 1) [plain_item] false)
    (on_upward_canvas (RectG 1 0 3 1) [plain_item])
  /\ get_plot_average_x_section canvas_ext
       (on_upward_canvas (RectG 1 0 3 1) [plain_item]) false
     = Ok ([Fin 1; Fin 3], [Fin 1; Fin 2]).
Proof.
  split; [| vm_compute; reflexivity].
  exists 1%Q, 0%Q, 3%Q, 1%Q, 1%Q, 3%Q, 0%Q, 1%Q, (4 - 0)%Q, (4 - 1)%Q.
  exists (canvas_plot [plain_item] false), (upward_plot [plain_item]).
  repeat (split; [reflexivity |]).
  intros xa xb [|]; reflexivity.
Qed.

(** ** Cross-section items *)

Lemma forallb_isnan (l : list f64) : forallb isnan l = true <-> all_nan l.
Proof.
  unfold all_nan. rewrite forallb_forall. split; intros H v Hv.
  - specialize (H v Hv). destruct v; [reflexivity | discriminate].
  - rewrite (H v Hv). reflexivity.
Qed.

Lemma no_signal_spec (secty : list f64) :
  no_signal secty = true <-> secty = [] \/ all_nan secty.
Proof.
  unfold no_signal. rewrite orb_true_iff, forallb_isnan, Nat.eqb_eq.
  rewrite length_zero_iff_nil. reflexivity.
Qed.

Lemma same_item_but_data_set (c : Curve) (d : CurveData) :
  same_item_but_data c
    {| cid := cid c; klass := klass c;
       c_perimage_mode := c_perimage_mode c;
       c_autoscale_mode := c_autoscale_mode c;
       c_apply_lut := c_apply_lut c;
       source := source c; attached := attached c; shown := shown c;
       curve_data := d |}.
Proof. unfold same_item_but_data. cbn. repeat split. Qed.

(** C5: when [update_curve_data] has extracted the cross section
    [(sectx, secty)], the curve is set to two empty arrays if [secty] is
    empty or holds only not-a-number values, and otherwise to
    [(sectx, secty)], with the two exchanged for the item whose
    [_inverted] is set (the vertical one). *)
Theorem update_curve_data_policy (W : World) (E : Ext) (obj : PlotObject)
    (st : ItemState) (sectx secty : list f64) :
  get_cross_section W E (self st) obj = Ok (sectx, secty) ->
  exists st',
    update_curve_data W E obj st = (Ok tt, st')
    /\ curve_data_policy st st' sectx secty.
Proof.
  intros Hsect.
  assert (Hk : klass (self st) <> RACrossSectionItem).
  { intros Hk. unfold get_cross_section in Hsect. rewrite Hk in Hsect. discriminate. }
  assert (Hrun : update_curve_data W E obj st = base_update_curve_data W E obj st).
  { unfold update_curve_data, bind, get_state.
    destruct (klass (self st)); [reflexivity | reflexivity | reflexivity | contradiction]. }
  rewrite Hrun. unfold base_update_curve_data, bind, get_state, lift.
  rewrite Hsect. cbn [snd].
  destruct (no_signal secty) eqn:Hns.
  - assert (Hempty : secty = [] \/ all_nan secty) by (apply no_signal_spec; exact Hns).
    destruct (truthy (_inverted (klass (self st)))); eexists; (split; [reflexivity |]);
      unfold curve_data_policy; cbn;
      (split; [reflexivity |]); (split; [apply same_item_but_data_set |]);
      (split; [reflexivity |]); (split; [intros _; split; reflexivity |]);
      intros Hn; contradiction.
  - assert (Hfull : ~ (secty = [] \/ all_nan secty)).
    { intros H. apply no_signal_spec in H. congruence. }
    destruct (_inverted (klass (self st))) as [[|] |] eqn:Hinv; cbn [truthy];
      eexists; (split; [reflexivity |]);
      unfold curve_data_policy; cbn;
      (split; [reflexivity |]); (split; [apply same_item_but_data_set |]);
      (split; [reflexivity |]); (split; [intros Hn; contradiction |]);
      intros _; rewrite Hinv; split; intros Hi;
      first [split; reflexivity | discriminate | contradiction].
Qed.

Lemma update_curve_data_policy_witness :
  exists st',
    update_curve_data canvas_world canvas_ext
      (on_canvas (MarkerG 1 1) [plain_item] false)
      {| self := copy_modes false true false (new_curve YCrossSectionItem 0%nat 0%nat);
         actions := [] |}
    = (Ok tt, st')
    /\ curve_data_policy
         {| self := copy_modes false true false (new_curve YCrossSectionItem 0%nat 0%nat);
            actions := [] |}
         st'
         (linspace 0 4 4) [Fin 1; Fin 1; Fin 1; Fin 1].
Proof.
  apply (update_curve_data_policy canvas_world canvas_ext
           (on_canvas (MarkerG 1 1) [plain_item] false)
           {| self := copy_modes false true false (new_curve YCrossSectionItem 0%nat 0%nat);
              actions := [] |}).
  vm_compute. reflexivity.
Defined.

(** The radial item follows the same policy for an object that has a
    rectangular area. *)
Lemma ra_update_curve_data_policy (W : World) (E : Ext) (obj : PlotObject)
    (st : ItemState) (s : SourceImage) (x0 y0 x1 y1 : Q) :
  klass (self st) = RACrossSectionItem ->
  get_source_image W (self st) = Some s ->
  get_rectangular_area obj = Some (x0, y0, x1, y1) ->
  exists st',
    update_curve_data W E obj st = (Ok tt, st')
    /\ actions st' = actions st
    /\ same_item_but_data (self st) (self st')
    /\ let '(sectx, secty, sectdy) := compute_radial_section E s x0 y0 x1 y1 None in
       (secty = [] \/ all_nan secty ->
        curve_data (self st') = {| cx := []; cy := []; cdy := None |})
       /\ (~ (secty = [] \/ all_nan secty) ->
           curve_data (self st') = {| cx := sectx; cy := secty; cdy := sectdy |}).
Proof.
  intros Hk Hs Hrect.
  unfold update_curve_data, bind, get_state. rewrite Hk.
  unfold ra_update_curve_data, bind, get_state, lift. rewrite Hs, Hrect.
  cbn [on_source].
  destruct (compute_radial_section E s x0 y0 x1 y1 None) as [[sectx secty] sectdy].
  destruct (no_signal secty) eqn:Hns; eexists; (split; [reflexivity |]); cbn;
    (split; [reflexivity |]); (split; [apply same_item_but_data_set |]); split.
  - intros _. reflexivity.
  - intros Hn. exfalso. apply Hn. apply no_signal_spec. exact Hns.
  - intros Hn. apply no_signal_spec in Hn. congruence.
  - intros _. reflexivity.
Qed.

(** C10: for an object without a rectangular area (a marker, a point),
    [update_curve_data] of the radial item changes nothing: the data of
    the curve and all the rest of the item stay as they are. *)
Theorem ra_update_curve_data_point (W : World) (E : Ext) (obj : PlotObject)
    (st : ItemState) :
  klass (self st) = RACrossSectionItem ->
  get_rectangular_area obj = None ->
  update_curve_data W E obj st = (Ok tt, st).
Proof.
  intros Hk Hrect.
  unfold update_curve_data, bind, get_state. rewrite Hk.
  unfold ra_update_curve_data, bind, get_state. rewrite Hrect. reflexivity.
Qed.

Lemma ra_update_curve_data_point_witness :
  update_curve_data canvas_world canvas_ext
    (on_canvas (MarkerG 1 1) [plain_item] false)
    {| self := new_curve RACrossSectionItem 0%nat 0%nat; actions := [] |}
  = (Ok tt, {| self := new_curve RACrossSectionItem 0%nat 0%nat; actions := [] |}).
Proof.
  apply (ra_update_curve_data_point canvas_world canvas_ext
           (on_canvas (MarkerG 1 1) [plain_item] false)
           {| self := new_curve RACrossSectionItem 0%nat 0%nat; actions := [] |});
    reflexivity.
Defined.

Lemma point_has_no_rectangular_area (obj : PlotObject) :
  get_rectangular_area obj = None <->
  (exists x y, geom obj = MarkerG x y) \/ (exists x y, geom obj = PointG x y).
Proof.
  unfold get_rectangular_area. destruct (geom obj) as [x y | x y | x0 y0 x1 y1].
  - split; [intros _; left; exists x, y; reflexivity | reflexivity].
  - split; [intros _; right; exists x, y; reflexivity | reflexivity].
  - split; [discriminate |]. intros [(x & y & H) | (x & y & H)]; discriminate.
Qed.

(** C6: when the item belongs to no plot, or its source image is gone, or
    its plot is not visible, [update_item] returns without raising and
    leaves the item as it is: the data of the curve is unchanged and no
    signal is emitted. *)
Theorem update_item_noop (W : World) (E : Ext) (plot_visible : bool)
    (obj : PlotObject) (st : ItemState) :
  attached (self st) = false \/ get_source_image W (self st) = None
  \/ plot_visible = false ->
  update_item W E plot_visible obj st = (Ok tt, st).
Proof.
  intros H. unfold update_item, bind, get_state.
  destruct (attached (self st)) eqn:Ha; cbn [negb]; [| reflexivity].
  destruct (get_source_image W (self st)) eqn:Hs; [| reflexivity].
  destruct plot_visible; cbn [negb]; [| reflexivity].
  destruct H as [H | [H | H]]; discriminate.
Qed.

Lemma update_item_noop_witness :
  update_item canvas_world canvas_ext true
    (on_canvas (MarkerG 1 1) [plain_item] false)
    {| self := new_curve XCrossSectionItem 0%nat 2%nat; actions := [] |}
  = (Ok tt, {| self := new_curve XCrossSectionItem 0%nat 2%nat; actions := [] |}).
Proof.
  apply (update_item_noop canvas_world canvas_ext true
           (on_canvas (MarkerG 1 1) [plain_item] false)
           {| self := new_curve XCrossSectionItem 0%nat 2%nat; actions := [] |}).
  right. left. reflexivity.
Defined.

Lemma expired_source (W : World) (c : Curve) :
  get_source_image W c = None <->
  source c = None \/ exists s, source c = Some s /\ sources W s = None.
Proof.
  unfold get_source_image. destruct (source c) as [s |].
  - split.
    + intros H. right. exists s. split; [reflexivity | exact H].
    + intros [H | (s' & Hs & Hnone)]; [discriminate |].
      injection Hs as <-. exact Hnone.
  - split; [intros _; left; reflexivity | reflexivity].
Qed.

(** ** The panel *)

Lemma shape_in_spec (shape : obj_id) (shapes : list obj_id) :
  shape_in shape shapes = true <-> In shape shapes.
Proof.
  unfold shape_in. rewrite existsb_exists. split.
  - intros (x & Hx & Heq). apply Nat.eqb_eq in Heq. subst x. exact Hx.
  - intros H. exists shape. split; [exact H | apply Nat.eqb_refl].
Qed.





Example refresh_with_dead_target :
  update_plot canvas_world canvas_ext None (two_curve_panel false)
  = (Ok tt, two_curve_panel false).
Proof. reflexivity. Qed.

Example change_of_unknown_shape :
  shape_changed canvas_world canvas_ext 0%nat (two_curve_panel false)
  = (Ok tt, two_curve_panel false).
Proof. reflexivity. Qed.

(** The registry is consulted by [shape_changed] only: [marker_changed]
    refreshes for an object the registry does not hold. *)
Example marker_changed_refreshes :
  is_shape_known (two_curve_panel true) 0%nat = false
  /\ fst (marker_changed canvas_world canvas_ext 0%nat (two_curve_panel true)) = Ok tt
  /\ log (snd (marker_changed canvas_world canvas_ext 0%nat (two_curve_panel true)))
     = [Emit_SIG_CS_CURVE_CHANGED 0; Emit_SIG_CS_CURVE_CHANGED 1; DoAutoscale].
Proof. repeat split; vm_compute; reflexivity. Qed.

(** [update_item] as a function of the curve. *)
Lemma update_curve_data_run (W : World) (E : Ext) (obj : PlotObject) (st : ItemState) :
  update_curve_data W E obj st
  = match new_data W E obj (self st) with
    | None => (Ok tt, st)
    | Some (Ok d) => (Ok tt, {| self := with_data (self st) d; actions := actions st |})
    | Some (Raise e) => (Raise e, st)
    end.
Proof.
  unfold update_curve_data, new_data, bind, get_state.
  destruct (klass (self st)) eqn:Hk.
  - unfold base_update_curve_data, bind, get_state, lift. rewrite Hk.
    destruct (get_cross_section W E (self st) obj) as [[sx sy] | e]; [| reflexivity].
    cbn [snd]. destruct (no_signal sy); reflexivity.
  - unfold base_update_curve_data, bind, get_state, lift. rewrite Hk.
    destruct (get_cross_section W E (self st) obj) as [[sx sy] | e]; [| reflexivity].
    cbn [snd]. destruct (no_signal sy); reflexivity.
  - unfold base_update_curve_data, bind, get_state, lift. rewrite Hk.
    destruct (get_cross_section W E (self st) obj) as [[sx sy] | e]; [| reflexivity].
    cbn [snd]. destruct (no_signal sy); reflexivity.
  - unfold ra_update_curve_data, bind, get_state, lift.
    destruct (get_rectangular_area obj) as [[[[x0 y0] x1] y1] |]; [| reflexivity].
    destruct (get_source_image W (self st)) as [s |]; [| reflexivity].
    cbn [on_source].
    destruct (compute_radial_section E s x0 y0 x1 y1 None) as [[sx sy] sdy].
    destruct (no_signal sy); reflexivity.
Qed.

Lemma update_scale_run (W : World) (st : ItemState) :
  update_scale W st
  = match scale_actions W (self st) with
    | Ok acts => (Ok tt, {| self := self st; actions := actions st ++ acts |})
    | Raise e => (Raise e, st)
    end.
Proof.
  unfold update_scale, scale_actions, bind, get_state.
  destruct (klass (self st)).
  - reflexivity.
  - unfold axis_update_scale, bind, get_state, lift, act, modify.
    destruct (get_source_image W (self st)) as [s |]; [| reflexivity].
    cbn [on_source]. destruct (source_plot s) as [sp |]; [| reflexivity].
    destruct (scale_bottom sp) as [lower upper]. cbn.
    rewrite <- app_assoc. reflexivity.
  - unfold axis_update_scale, bind, get_state, lift, act, modify.
    destruct (get_source_image W (self st)) as [s |]; [| reflexivity].
    cbn [on_source]. destruct (source_plot s) as [sp |]; [| reflexivity].
    destruct (scale_left sp) as [lower upper]. cbn.
    rewrite <- app_assoc. reflexivity.
  - cbn. rewrite app_nil_r. destruct st; reflexivity.
Qed.

Lemma update_item_run (W : World) (E : Ext) (plot_visible : bool)
    (obj : PlotObject) (st : ItemState) :
  update_item W E plot_visible obj st
  = let '(r, c', added) := item_run W E plot_visible obj (self st) in
    (r, {| self := c'; actions := actions st ++ added |}).
Proof.
  assert (Hsame : forall r : result unit,
             (r, st) = (r, {| self := self st; actions := actions st ++ [] |}))
    by (intros r; rewrite app_nil_r; destruct st; reflexivity).
  unfold update_item, item_run, bind, get_state.
  destruct (attached (self st)); cbn [negb]; [| exact (Hsame _)].
  destruct (get_source_image W (self st)) as [s |] eqn:Hs; [| exact (Hsame _)].
  destruct plot_visible; cbn [negb]; [| exact (Hsame _)].
  rewrite update_curve_data_run.
  destruct (new_data W E obj (self st)) as [[d | e] |]; [| exact (Hsame _) |].
  - unfold act, modify. cbn [self actions].
    destruct (c_autoscale_mode (with_data (self st) d)); cbn [negb]; [reflexivity |].
    rewrite update_scale_run. cbn [self actions].
    destruct (scale_actions W (with_data (self st) d)) as [acts | e];
      [rewrite <- app_assoc |]; reflexivity.
  - unfold act, modify. cbn [self actions].
    destruct (c_autoscale_mode (self st)); cbn [negb]; [reflexivity |].
    rewrite update_scale_run. cbn [self actions].
    destruct (scale_actions W (self st)) as [acts | e];
      [rewrite <- app_assoc |]; reflexivity.
Qed.

Lemma with_data_same_item (c : Curve) (d : CurveData) :
  same_item_but_data c (with_data c d).
Proof. unfold same_item_but_data. cbn. repeat split. Qed.

Lemma same_item_but_data_refl (c : Curve) : same_item_but_data c c.
Proof. unfold same_item_but_data. repeat split. Qed.

Lemma item_run_same_item (W : World) (E : Ext) (plot_visible : bool)
    (obj : PlotObject) (c : Curve) :
  same_item_but_data c (snd (fst (item_run W E plot_visible obj c))).
Proof.
  unfold item_run.
  destruct (attached c); cbn [negb]; [| apply same_item_but_data_refl].
  destruct (get_source_image W c); [| apply same_item_but_data_refl].
  destruct plot_visible; cbn [negb]; [| apply same_item_but_data_refl].
  destruct (new_data W E obj c) as [[d | e] |].
  - destruct (c_autoscale_mode (with_data c d)); cbn [negb];
      [apply with_data_same_item |].
    destruct (scale_actions W (with_data c d)); apply with_data_same_item.
  - apply same_item_but_data_refl.
  - destruct (c_autoscale_mode c); cbn [negb]; [apply same_item_but_data_refl |].
    destruct (scale_actions W c); apply same_item_but_data_refl.
Qed.

Lemma item_run_attached_visible (W : World) (E : Ext) (obj : PlotObject)
    (c : Curve) (s : SourceImage) :
  attached c = true -> get_source_image W c = Some s ->
  item_run W E true obj c
  = (let after (c' : Curve) :=
       if negb (c_autoscale_mode c')
       then match scale_actions W c' with
            | Ok acts => (Ok tt, c', Emit_SIG_CS_CURVE_CHANGED (cid c') :: acts)
            | Raise e => (Raise e, c', [Emit_SIG_CS_CURVE_CHANGED (cid c')])
            end
       else (Ok tt, c', [Emit_SIG_CS_CURVE_CHANGED (cid c')]) in
     match new_data W E obj c with
     | None => after c
     | Some (Ok d) => after (with_data c d)
     | Some (Raise e) => (Raise e, c, [])
     end).
Proof. intros Ha Hs. unfold item_run. rewrite Ha, Hs. reflexivity. Qed.







(** The refresh of the concrete panel for the marker: the first curve has
    the modes of the panel and new data, the second is hidden with the
    data it had. *)
Example single_mode_refresh_run :
  exists first,
    update_plot canvas_world canvas_ext (Some 0%nat) (two_curve_panel false)
    = (Ok tt,
       refreshed (two_curve_panel false) 0%nat
         [(0%nat, first);
          (1%nat, set_shown false (new_curve XCrossSectionItem 1%nat 1%nat))]
         [Emit_SIG_CS_CURVE_CHANGED 0; DoAutoscale])
    /\ c_perimage_mode first = false
    /\ shown first = true
    /\ cy (curve_data first) = [Fin 0; Fin 1; Fin 2; Fin 3].
Proof. eexists. split; [vm_compute; reflexivity |]. repeat split. Qed.

(** * Further properties of the profile extractors *)

Lemma with_image_data_lengths (sampled : result (option ndarray2)) (axis : nat)
    (mk : list f64 -> profile) (x y : list f64) :
  (forall m, length (fst (mk m)) = length (snd (mk m))) ->
  with_image_data sampled (fun d => rbind (data_mean axis d) (fun m => Ok (mk m)))
  = Ok (x, y) ->
  length x = length y.
Proof.
  intros Hmk H. unfold with_image_data in H.
  destruct sampled as [[a |] | e]; cbn [data_mean rbind] in H.
  - injection H as H. specialize (Hmk (match axis with O => mean_axis0 a | _ => mean_axis1 a end)).
    rewrite H in Hmk. exact Hmk.
  - discriminate.
  - destruct (caught e); [| discriminate]. injection H as <- <-. reflexivity.
Qed.

(** X1: a profile returned by any of the four extractors that sample the
    plot has as many abscissas as values. *)
Theorem plot_sections_same_length (E : Ext) (obj : PlotObject) (lut : bool)
    (x y : list f64) :
  get_plot_x_section E obj lut = Ok (x, y)
  \/ get_plot_y_section E obj lut = Ok (x, y)
  \/ get_plot_average_x_section E obj lut = Ok (x, y)
  \/ get_plot_average_y_section E obj lut = Ok (x, y) ->
  length x = length y.
Proof.
  intros [H | [H | [H | H]]].
  - unfold get_plot_x_section in H.
    destruct (get_object_coordinates obj) as [[x0 y0] | e]; [| discriminate].
    cbn [rbind] in H. destruct (plot_of obj) as [p | e]; [| discriminate].
    cbn [rbind] in H. destruct (axes_to_canvas obj 0%Q y0) as [[xc yc] | e]; [| discriminate].
    cbn [rbind] in H.
    destruct (get_image_data E p _ _ lut) as [[a |] | e];
      cbn [with_image_data data_mean rbind] in H.
    + destruct (canvas_to_axes obj _) as [[u0 v0] | e]; [| discriminate].
      cbn [rbind] in H. destruct (canvas_to_axes obj _) as [[u1 v1] | e]; [| discriminate].
      cbn [rbind] in H. injection H as <- <-. apply length_linspace.
    + discriminate.
    + destruct (caught e); [| discriminate]. injection H as <- <-. reflexivity.
  - unfold get_plot_y_section in H.
    destruct (get_object_coordinates obj) as [[x0 y0] | e]; [| discriminate].
    cbn [rbind] in H. destruct (plot_of obj) as [p | e]; [| discriminate].
    cbn [rbind] in H. destruct (axes_to_canvas obj x0 0%Q) as [[xc yc] | e]; [| discriminate].
    cbn [rbind] in H.
    destruct (get_image_data E p _ _ lut) as [[a |] | e];
      cbn [with_image_data data_mean rbind] in H.
    + destruct (canvas_to_axes obj _) as [[u0 v0] | e]; [| discriminate].
      cbn [rbind] in H. destruct (canvas_to_axes obj _) as [[u1 v1] | e]; [| discriminate].
      cbn [rbind] in H. injection H as <- <-. apply length_linspace.
    + discriminate.
    + destruct (caught e); [| discriminate]. injection H as <- <-. reflexivity.
  - unfold get_plot_average_x_section in H.
    destruct (get_rect obj) as [[[[x0 y0] x1] y1] | e]; [| discriminate].
    cbn [rbind] in H. destruct (axes_to_canvas obj x0 y0) as [[xc0 yc0] | e]; [| discriminate].
    cbn [rbind] in H. destruct (axes_to_canvas obj x1 y1) as [[xc1 yc1] | e]; [| discriminate].
    cbn [rbind] in H. destruct (plot_of obj) as [p | e]; [| discriminate].
    cbn [rbind] in H.
    eapply (with_image_data_lengths _ 0
              (fun m => (linspace x0 x1 (length (if Qgt_bool xc0 xc1 then rev m else m)),
                         if Qgt_bool xc0 xc1 then rev m else m)));
      [| exact H].
    intros m. cbn [fst snd]. apply length_linspace.
  - unfold get_plot_average_y_section in H.
    destruct (get_rect obj) as [[[[x0 y0] x1] y1] | e]; [| discriminate].
    cbn [rbind] in H. destruct (axes_to_canvas obj x0 y0) as [[xc0 yc0] | e]; [| discriminate].
    cbn [rbind] in H. destruct (axes_to_canvas obj x1 y1) as [[xc1 yc1] | e]; [| discriminate].
    cbn [rbind] in H. destruct (plot_of obj) as [p | e]; [| discriminate].
    cbn [rbind] in H.
    eapply (with_image_data_lengths _ 1
              (fun m => (if y_swapped (axis_direction_left p) yc0 yc1
                         then rev (linspace y0 y1 (length m))
                         else linspace y0 y1 (length m), m)));
      [| exact H].
    intros m. cbn [fst snd].
    destruct (y_swapped _ _ _); rewrite ?length_rev; apply length_linspace.
Qed.

Lemma plot_sections_same_length_witness :
  length [Fin 1; Fin 3] = length [Fin 1; Fin 2].
Proof.
  apply (plot_sections_same_length canvas_ext
           (on_canvas (RectG 1 0 3 1) [plain_item] false) false).
  right. right. left. vm_compute. reflexivity.
Defined.

(** X2: when sampling fails with a [ValueError] or a [ZeroDivisionError]
    between the two points an extractor passes to [get_image_data], this
    extractor returns the empty profile; sampling may well succeed
    elsewhere on the plot. *)
Theorem sampling_failure_gives_empty_profile (E : Ext) (obj : PlotObject)
    (lut : bool) (p : Plot) :
  plot obj = Some p ->
  sections_empty E obj p lut.
Proof.
  intros Hp. unfold sections_empty. repeat apply conj.
  - intros x y xc yc Hc Ha (e & He & Hcaught). unfold get_plot_x_section, plot_of.
    rewrite Hc, Hp. cbn [rbind]. rewrite Ha. cbn [rbind].
    rewrite He. cbn [with_image_data]. rewrite Hcaught. reflexivity.
  - intros x y xc yc Hc Ha (e & He & Hcaught). unfold get_plot_y_section, plot_of.
    rewrite Hc, Hp. cbn [rbind]. rewrite Ha. cbn [rbind].
    rewrite He. cbn [with_image_data]. rewrite Hcaught. reflexivity.
  - intros x0 y0 x1 y1 [xc0 yc0] [xc1 yc1] Hr H0 H1 Hfail.
    unfold sampled_corners in Hfail. cbn [fst snd] in Hfail.
    destruct Hfail as (e & He & Hcaught).
    unfold get_plot_average_x_section, get_plot_average_y_section, plot_of.
    rewrite Hr. cbn [rbind]. rewrite H0. cbn [rbind]. rewrite H1. cbn [rbind].
    rewrite Hp. cbn [rbind].
    rewrite He. cbn [with_image_data]. rewrite Hcaught. split; reflexivity.
Qed.

(** A region of no width on a plot that samples well elsewhere: the
    sampler refuses it with a [ValueError], and both averaged sections
    are empty. *)
Lemma sampling_failure_gives_empty_profile_witness :
  get_plot_average_x_section canvas_ext
    (on_canvas (RectG 1 0 3 1) [plain_item] false) false
  = Ok ([Fin 1; Fin 3], [Fin 1; Fin 2])
  /\ get_plot_average_x_section canvas_ext
       (on_canvas (RectG 1 0 1 1) [plain_item] false) false
     = Ok empty_profile
  /\ get_plot_average_y_section canvas_ext
       (on_canvas (RectG 1 0 1 1) [plain_item] false) false
     = Ok empty_profile.
Proof.
  split; [vm_compute; reflexivity |].
  destruct (sampling_failure_gives_empty_profile canvas_ext
              (on_canvas (RectG 1 0 1 1) [plain_item] false) false
              (canvas_plot [plain_item] false) eq_refl) as (_ & _ & Hrect).
  apply (Hrect 1%Q 0%Q 1%Q 1%Q (1%Q, 0%Q) (1%Q, 1%Q)); try reflexivity.
  exists ValueError. split; reflexivity.
Defined.

(** X3: a profile [(x, y)] returned by the averaged y-section has for [y]
    the row means of the sample, in the order of the canvas rows ([y] is
    empty only when sampling failed with a [ValueError] or a
    [ZeroDivisionError], or when the sample has no row), and for [x] the
    even subdivision from [y0] to [y1] of the region, reversed exactly
    when the canvas rows of the two corners had to be exchanged. *)
Theorem average_y_section_order (E : Ext) (obj : PlotObject) (lut : bool)
    (x y : list f64) :
  get_plot_average_y_section E obj lut = Ok (x, y) ->
  average_y_section_correct E obj lut x y.
Proof.
  intros H. unfold get_plot_average_y_section, plot_of in H.
  destruct (get_rect obj) as [[[[x0 y0] x1] y1] | e] eqn:Hr; [| discriminate].
  cbn [rbind] in H.
  destruct (axes_to_canvas obj x0 y0) as [[xc0 yc0] | e] eqn:H0; [| discriminate].
  cbn [rbind] in H.
  destruct (axes_to_canvas obj x1 y1) as [[xc1 yc1] | e] eqn:H1; [| discriminate].
  cbn [rbind] in H.
  destruct (plot obj) as [p |] eqn:Hp; [| discriminate].
  cbn [rbind] in H.
  exists x0, y0, x1, y1, xc0, yc0, xc1, yc1, p.
  repeat (split; [assumption |]).
  cbv zeta. unfold sampled_corners. cbn [fst snd].
  destruct (get_image_data E p _ _ lut) as [[a |] | e] eqn:Hs;
    cbn [with_image_data data_mean rbind] in H.
  - injection H as Hx Hy. subst x y.
    split; [reflexivity |].
    split.
    { intros Hsw Hle. rewrite Hsw. apply linspace_ascending. exact Hle. }
    split.
    { intros Hsw Hle. rewrite Hsw.
      pose proof (linspace_ascending y0 y1 (length (mean_axis1 a)) Hle) as Hasc.
      intros i j Hij. rewrite length_rev in Hij.
      rewrite !rev_nth by lia. apply Hasc. lia. }
    reflexivity.
  - discriminate.
  - destruct (caught e) eqn:Hcaught; [| discriminate]. injection H as <- <-.
    split; [destruct (y_swapped _ _ _); reflexivity |].
    split; [intros _ _ i j Hij; cbn in Hij; lia |].
    split; [intros _ _ i j Hij; cbn in Hij; lia |].
    split; reflexivity.
Qed.

Lemma average_y_section_order_witness :
  average_y_section_correct canvas_ext
    (on_canvas (RectG 1 0 3 2) [plain_item] false) false
    (linspace 0 2 2) [Fin (3 # 2); Fin (3 # 2)].
Proof.
  apply (average_y_section_order canvas_ext
           (on_canvas (RectG 1 0 3 2) [plain_item] false) false).
  vm_compute. reflexivity.
Defined.

(** X4: on a plot with an eligible image and no transformed one,
    [get_image_data] extracts the image at the size of the source
    rectangle, unchanged. *)
Theorem get_image_data_plain (E : Ext) (p : Plot) (p0 p1 : QPoint) (lut : bool)
    (x y w h : Q) :
  filter eligible (items p) <> [] ->
  transformed p = [] ->
  get_plot_source_rect E p p0 p1 = Ok (x, y, w, h) ->
  get_image_data E p p0 p1 lut
  = (a <- get_image_from_plot E p p0 p1 w h lut ;; Ok (Some a))%result.
Proof.
  intros Hne Htr Hrect. unfold get_image_data. unfold transformed in Htr.
  destruct (filter eligible (items p)) as [| i0 its]; [contradiction |].
  rewrite Hrect. cbn [rbind]. rewrite Htr. reflexivity.
Qed.

Lemma get_image_data_plain_witness :
  get_image_data canvas_ext (canvas_plot [plain_item] false) (0, 0)%Q (4, 4)%Q false
  = (a <- get_image_from_plot canvas_ext (canvas_plot [plain_item] false)
            (0, 0)%Q (4, 4)%Q (4 - 0)%Q (4 - 0)%Q false ;;
     Ok (Some a))%result.
Proof.
  apply (get_image_data_plain canvas_ext (canvas_plot [plain_item] false)
           (0, 0)%Q (4, 4)%Q false 0%Q 0%Q).
  - discriminate.
  - reflexivity.
  - reflexivity.
Defined.

(** X5: when the largest [dx], or the largest [dy], of the transformed
    images is zero, [get_image_data] raises [ZeroDivisionError], whatever
    the sampler would return. *)
Theorem get_image_data_zero_scale (E : Ext) (p : Plot) (p0 p1 : QPoint)
    (lut : bool) (x y w h mx my : Q) :
  get_plot_source_rect E p p0 p1 = Ok (x, y, w, h) ->
  transformed p <> [] ->
  is_max mx (map tr_dx (transformed p)) ->
  is_max my (map tr_dy (transformed p)) ->
  (mx == 0)%Q \/ (my == 0)%Q ->
  get_image_data E p p0 p1 lut = Raise ZeroDivisionError.
Proof.
  intros Hrect Hne Hmx Hmy Hzero.
  destruct (py_max_spec (map tr_dx (transformed p))) as (mx' & Hx & Hmx').
  { intros Hnil. apply map_eq_nil in Hnil. contradiction. }
  destruct (py_max_spec (map tr_dy (transformed p))) as (my' & Hy & Hmy').
  { intros Hnil. apply map_eq_nil in Hnil. contradiction. }
  assert (Hxeq : (mx' == mx)%Q).
  { destruct Hmx as [Hin Hub], Hmx' as [Hin' Hub'].
    apply Qle_antisym; [apply Hub | apply Hub']; assumption. }
  assert (Hyeq : (my' == my)%Q).
  { destruct Hmy as [Hin Hub], Hmy' as [Hin' Hub'].
    apply Qle_antisym; [apply Hub | apply Hub']; assumption. }
  unfold get_image_data. unfold transformed in *.
  destruct (filter eligible (items p)) as [| i0 its]; [contradiction Hne; reflexivity |].
  rewrite Hrect. cbn [rbind].
  destruct (map get_transform (filter is_TrImageItem (i0 :: its))) as [| t0 ts] eqn:Htrs;
    [contradiction |].
  rewrite Hx. cbn [rbind]. unfold py_div.
  destruct (Qeq_bool mx' 0) eqn:Ex; [reflexivity |]. cbn [rbind].
  rewrite Hy. cbn [rbind].
  destruct (Qeq_bool my' 0) eqn:Ey; [reflexivity |].
  exfalso. destruct Hzero as [Hz | Hz].
  - assert (Hq : (mx' == 0)%Q) by (rewrite Hxeq; exact Hz).
    apply Qeq_bool_iff in Hq. congruence.
  - assert (Hq : (my' == 0)%Q) by (rewrite Hyeq; exact Hz).
    apply Qeq_bool_iff in Hq. congruence.
Qed.

Lemma get_image_data_zero_scale_witness :
  get_image_data canvas_ext (canvas_plot [tr_item 0 1; tr_item (-1) 1] false)
    (0, 0)%Q (4, 4)%Q false
  = Raise ZeroDivisionError.
Proof.
  apply (get_image_data_zero_scale canvas_ext
           (canvas_plot [tr_item 0 1; tr_item (-1) 1] false)
           (0, 0)%Q (4, 4)%Q false 0%Q 0%Q (4 - 0)%Q (4 - 0)%Q 0%Q 1%Q).
  - reflexivity.
  - discriminate.
  - split; [left; reflexivity |].
    intros q [Hq | [Hq | []]]; subst q; cbn; unfold Qle; cbn; lia.
  - split; [left; reflexivity |].
    intros q [Hq | [Hq | []]]; subst q; cbn; unfold Qle; cbn; lia.
  - left. reflexivity.
Defined.

(** * Further properties of the radial averager and of the radial section *)

Lemma in_arange (a b k : Z) : In k (arange a b) <-> a <= k < b.
Proof.
  unfold arange. rewrite in_map_iff. split.
  - intros (i & Hk & Hi). apply in_seq in Hi. lia.
  - intros Hk. exists (Z.to_nat (k - a)). split; [lia |]. apply in_seq. lia.
Qed.

Lemma NoDup_map_injective {A B} (f : A -> B) (l : list A) :
  (forall x y, f x = f y -> x = y) -> NoDup l -> NoDup (map f l).
Proof.
  intros Hinj Hnd. induction Hnd as [| x t Hnotin Hnd IH]; cbn [map]; constructor.
  - intros Hin. apply in_map_iff in Hin. destruct Hin as (y & Hy & Hin).
    apply Hinj in Hy. subst y. contradiction.
  - exact IH.
Qed.

Lemma arange_NoDup (a b : Z) : NoDup (arange a b).
Proof.
  unfold arange. apply NoDup_map_injective; [| apply seq_NoDup].
  intros i j Hij. lia.
Qed.

Lemma radial_average_kept_shells (a : ndarray2) (ix0 iy0 ix1 iy1 ixc iyc iradius : Z) :
  array_wf a ->
  0 <= ix0 <= ix1 -> ix1 <= Z.of_nat (a_ncols a) ->
  0 <= iy0 <= iy1 -> iy1 <= Z.of_nat (a_nrows a) ->
  radial_average a ix0 iy0 ix1 iy1 ixc iyc iradius
  = Ok (map (fun m => astype (a_dtype a) (fmean m))
            (kept_shells a ix0 iy0 ix1 iy1 ixc iyc iradius)).
Proof.
  intros Hwf Hx Hx1 Hy Hy1. unfold radial_average, kept_shells.
  destruct (Z.ltb_spec (iy1 - iy0) 0); [lia |].
  destruct (Z.ltb_spec (ix1 - ix0) 0); [lia |].
  cbn [orb].
  destruct (arange 0 (iradius + 1)) as [| i0 shells] eqn:Hsh; [reflexivity |].
  rewrite same_shape_slice2 by assumption.
  f_equal.
  replace (a_dtype (slice2 a iy0 iy1 ix0 ix1)) with (a_dtype a) by reflexivity.
  rewrite <- (map_map fmean (astype (a_dtype a))). f_equal.
  unfold nonempty. rewrite <- flat_map_nonempty.
  apply flat_map_ext_in. intros i_r _.
  rewrite mask_select_members by assumption. reflexivity.
Qed.

Lemma fsum_constant (c : Q) (l : list f64) :
  (forall v, In v l -> v = Fin c) ->
  exists s, fsum l = Fin s /\ (s == inject_Z (Z.of_nat (length l)) * c)%Q.
Proof.
  induction l as [| v t IH]; intros Hall.
  - exists 0%Q. split; [reflexivity |]. cbn. rewrite Qmult_0_l. reflexivity.
  - destruct IH as (s & Hs & Heq); [intros w Hw; apply Hall; right; exact Hw |].
    exists (c + s)%Q. split.
    + cbn [fsum fold_right] in *. unfold fsum in Hs. rewrite Hs.
      rewrite (Hall v (or_introl eq_refl)). reflexivity.
    + rewrite Heq. cbn [length]. rewrite Nat2Z.inj_succ. unfold Z.succ.
      rewrite inject_Z_plus. ring.
Qed.

Lemma fmean_constant (c : Q) (l : list f64) :
  l <> [] -> (forall v, In v l -> v = Fin c) -> is_value c (fmean l).
Proof.
  intros Hne Hall. destruct (fsum_constant c l Hall) as (s & Hs & Heq).
  unfold fmean. destruct l as [| v t]; [contradiction |].
  rewrite Hs. eexists. split; [reflexivity |].
  rewrite Heq. rewrite Qmult_comm. apply Qdiv_mult_l.
  intros H0. unfold Qeq, inject_Z in H0. cbn [Qnum Qden length] in H0. lia.
Qed.

Lemma shell_members_in (a : ndarray2) (ix0 iy0 ix1 iy1 ixc iyc r : Z) (v : f64) :
  In v (shell_members a ix0 iy0 ix1 iy1 ixc iyc r) ->
  exists px py, ix0 <= px < ix1 /\ iy0 <= py < iy1
                /\ in_shell ixc iyc r px py = true /\ v = pixel a px py.
Proof.
  unfold shell_members. intros H.
  apply in_flat_map in H. destruct H as (py & Hpy & H).
  apply in_flat_map in H. destruct H as (px & Hpx & H).
  apply in_arange in Hpy. apply in_arange in Hpx.
  destruct (in_shell ixc iyc r px py) eqn:Hs; [| destruct H].
  destruct H as [H | []]. exists px, py. repeat split; try lia; congruence.
Qed.

Lemma Qtrunc_integer (q : Q) (k : Z) : (q == inject_Z k)%Q -> Qtrunc q = k.
Proof.
  unfold Qeq, inject_Z, Qtrunc. cbn [Qnum Qden]. intros H.
  rewrite Z.mul_1_r in H. rewrite H. apply Z.quot_mul. discriminate.
Qed.

Lemma astype_integer (t : dtype) (v : f64) (k : Z) :
  is_value (inject_Z k) v -> is_value (inject_Z k) (astype t v).
Proof.
  intros (q & -> & Hq). destruct t; cbn [astype].
  - exists q. split; [reflexivity | exact Hq].
  - exists (inject_Z (Qtrunc q)). split; [reflexivity |].
    rewrite (Qtrunc_integer q k Hq). reflexivity.
Qed.

(** X6: on an array, of floats or of integers, whose region holds one
    integer value [k] everywhere, every value returned by the averager is
    [k].  The region is small enough for [k] times its number of pixels
    not to exceed [2^24]: the sums taken for the means are then integers
    that the floats, also those of single precision, hold exactly, as the
    fractions of this development do. *)
Theorem radial_average_uniform (a : ndarray2)
    (ix0 iy0 ix1 iy1 ixc iyc iradius : Z) (k : Z) :
  array_wf a ->
  0 <= ix0 <= ix1 -> ix1 <= Z.of_nat (a_ncols a) ->
  0 <= iy0 <= iy1 -> iy1 <= Z.of_nat (a_nrows a) ->
  uniform_region a ix0 iy0 ix1 iy1 (inject_Z k) ->
  Z.abs k * ((ix1 - ix0) * (iy1 - iy0)) <= 2 ^ 24 ->
  exists out,
    radial_average a ix0 iy0 ix1 iy1 ixc iyc iradius = Ok out
    /\ Forall (is_value (inject_Z k)) out.
Proof.
  intros Hwf Hx Hx1 Hy Hy1 Huni _.
  eexists. split; [apply radial_average_kept_shells; assumption |].
  apply Forall_forall. intros v Hv.
  apply in_map_iff in Hv. destruct Hv as (m & Hm & Hin). subst v.
  apply astype_integer.
  unfold kept_shells in Hin. apply filter_In in Hin. destruct Hin as [Hin Hne].
  apply in_map_iff in Hin. destruct Hin as (r & Hr & _). subst m.
  apply fmean_constant.
  - intros Hnil. rewrite Hnil in Hne. discriminate.
  - intros v Hv. apply shell_members_in in Hv.
    destruct Hv as (px & py & Hpx & Hpy & _ & Hv). subst v. apply Huni; assumption.
Qed.

Lemma radial_average_uniform_witness :
  exists out,
    radial_average
      {| a_dtype := Int64; a_ncols := 3;
         a_rows := [[Fin 5; Fin 5; Fin 5]; [Fin 5; Fin 5; Fin 5]] |}
      0 0 3 2 1 1 2 = Ok out
    /\ Forall (is_value (inject_Z 5)) out.
Proof.
  apply (radial_average_uniform
           {| a_dtype := Int64; a_ncols := 3;
              a_rows := [[Fin 5; Fin 5; Fin 5]; [Fin 5; Fin 5; Fin 5]] |}
           0 0 3 2 1 1 2 5).
  - repeat constructor.
  - lia.
  - cbn. lia.
  - lia.
  - cbn. lia.
  - intros px py Hpx Hpy. unfold pixel. cbn [a_rows].
    assert (Hx : px = 0 \/ px = 1 \/ px = 2) by lia.
    assert (Hy : py = 0 \/ py = 1) by lia.
    destruct Hx as [-> | [-> | ->]]; destruct Hy as [-> | ->]; reflexivity.
  - vm_compute. discriminate.
Defined.

Lemma shell_index_zero (x y : Z) : shell_index x y = 0 <-> x = 0 /\ y = 0.
Proof.
  unfold shell_index.
  set (n := x * x + y * y).
  assert (Hn : 0 <= n) by (unfold n; nia).
  pose proof (Z.sqrt_spec (4 * n) ltac:(lia)) as Hs. cbv zeta in Hs.
  pose proof (Z.sqrt_nonneg (4 * n)) as Hs0.
  set (s := Z.sqrt (4 * n)) in *.
  pose proof (Z.div_mod (s + 1) 2 ltac:(lia)) as Hdm.
  pose proof (Z.mod_pos_bound (s + 1) 2 ltac:(lia)) as Hm.
  split.
  - intros H. assert (s = 0) by lia. assert (n = 0) by nia. unfold n in *. nia.
  - intros [-> ->]. subst n s. reflexivity.
Qed.

Lemma flat_map_all_nil {A B} (f : A -> list B) (l : list A) :
  (forall x, In x l -> f x = []) -> flat_map f l = [].
Proof.
  induction l as [| x t IH]; intros H; [reflexivity |].
  cbn [flat_map]. rewrite (H x (or_introl eq_refl)), IH; [reflexivity |].
  intros y Hy. apply H. right. exact Hy.
Qed.

Lemma flat_map_single {A B} (f : A -> list B) (l : list A) (c : A) :
  NoDup l -> In c l -> (forall x, In x l -> x <> c -> f x = []) ->
  flat_map f l = f c.
Proof.
  induction l as [| x t IH]; intros Hnd Hin Hother; [destruct Hin |].
  inversion Hnd as [| ? ? Hnotin Hnd']. subst. cbn [flat_map].
  destruct Hin as [-> | Hin].
  - rewrite (flat_map_all_nil f t); [apply app_nil_r |].
    intros y Hy. apply Hother; [right; exact Hy |].
    intros ->. contradiction.
  - rewrite (Hother x); [| left; reflexivity | intros ->; contradiction].
    apply IH; [exact Hnd' | exact Hin |].
    intros w Hw. apply Hother. right. exact Hw.
Qed.

Lemma shell_members_centre (a : ndarray2) (ix0 iy0 ix1 iy1 ixc iyc : Z) :
  ix0 <= ixc < ix1 -> iy0 <= iyc < iy1 ->
  shell_members a ix0 iy0 ix1 iy1 ixc iyc 0 = [pixel a ixc iyc].
Proof.
  intros Hx Hy. unfold shell_members.
  rewrite (flat_map_single _ (arange iy0 iy1) iyc).
  - rewrite (flat_map_single _ (arange ix0 ix1) ixc).
    + unfold in_shell. rewrite !Z.sub_diag. reflexivity.
    + apply arange_NoDup.
    + apply in_arange. exact Hx.
    + intros px _ Hne. unfold in_shell.
      destruct (Z.eqb_spec (shell_index (px - ixc) (iyc - iyc)) 0) as [H0 | _];
        [| reflexivity].
      apply shell_index_zero in H0. lia.
  - apply arange_NoDup.
  - apply in_arange. exact Hy.
  - intros py _ Hne.
    apply flat_map_all_nil. intros px _. unfold in_shell.
    destruct (Z.eqb_spec (shell_index (px - ixc) (py - iyc)) 0) as [H0 | _];
      [| reflexivity].
    apply shell_index_zero in H0. lia.
Qed.

Lemma fmean_single (v : f64) : same_value (fmean [v]) v.
Proof.
  destruct v as [| q]; [exact I |].
  unfold fmean, fsum, fold_right, fadd, same_value, length.
  change (inject_Z (Z.of_nat 1)) with 1%Q. field.
Qed.

(** X7: when the centre lies in the region and the radius is not
    negative, shell 0 holds the centre pixel and nothing else, so that
    the averager returns at least one value, and the first is the mean of
    the centre pixel alone, converted to the element type of the array.
    On a float array this is the centre pixel itself; on an integer array
    it is the centre pixel as long as its magnitude does not exceed
    [2^53], the range in which the float the mean is taken in holds the
    integers exactly. *)
Theorem radial_average_starts_at_centre (a : ndarray2)
    (ix0 iy0 ix1 iy1 ixc iyc iradius : Z) :
  array_wf a ->
  0 <= ix0 <= ix1 -> ix1 <= Z.of_nat (a_ncols a) ->
  0 <= iy0 <= iy1 -> iy1 <= Z.of_nat (a_nrows a) ->
  ix0 <= ixc < ix1 -> iy0 <= iyc < iy1 ->
  0 <= iradius ->
  shell_members a ix0 iy0 ix1 iy1 ixc iyc 0 = [pixel a ixc iyc]
  /\ exists first rest,
       radial_average a ix0 iy0 ix1 iy1 ixc iyc iradius = Ok (first :: rest)
       /\ first = astype (a_dtype a) (fmean [pixel a ixc iyc])
       /\ (a_dtype a = Float64 -> same_value first (pixel a ixc iyc))
       /\ (forall k, a_dtype a = Int64 ->
                     pixel a ixc iyc = Fin (inject_Z k) ->
                     Z.abs k <= 2 ^ 53 ->
                     first = Fin (inject_Z k)).
Proof.
  intros Hwf Hx Hx1 Hy Hy1 Hcx Hcy Hr.
  pose proof (shell_members_centre a ix0 iy0 ix1 iy1 ixc iyc Hcx Hcy) as Hcentre.
  split; [exact Hcentre |].
  rewrite radial_average_kept_shells by assumption.
  unfold kept_shells, arange.
  replace (Z.to_nat (iradius + 1 - 0)) with (S (Z.to_nat iradius)) by lia.
  cbn [seq map]. replace (0 + Z.of_nat 0) with 0 by lia.
  rewrite Hcentre. cbn [filter nonempty length Nat.eqb negb map].
  eexists _, _. split; [reflexivity |]. split; [reflexivity |]. split.
  - intros ->. cbn [astype]. apply fmean_single.
  - intros k -> Hpix _. rewrite Hpix.
    pose proof (fmean_single (Fin (inject_Z k))) as Hmean.
    destruct (fmean [Fin (inject_Z k)]) as [| q]; [destruct Hmean |].
    cbn [same_value] in Hmean. cbn [astype].
    rewrite (Qtrunc_integer q k Hmean). reflexivity.
Qed.

Lemma radial_average_starts_at_centre_witness :
  shell_members (row_013 Int64) 0 0 3 1 1 0 0 = [pixel (row_013 Int64) 1 0]
  /\ exists first rest,
       radial_average (row_013 Int64) 0 0 3 1 1 0 1 = Ok (first :: rest)
       /\ first = astype (a_dtype (row_013 Int64)) (fmean [pixel (row_013 Int64) 1 0])
       /\ (a_dtype (row_013 Int64) = Float64 ->
           same_value first (pixel (row_013 Int64) 1 0))
       /\ (forall k, a_dtype (row_013 Int64) = Int64 ->
                     pixel (row_013 Int64) 1 0 = Fin (inject_Z k) ->
                     Z.abs k <= 2 ^ 53 ->
                     first = Fin (inject_Z k)).
Proof.
  apply (radial_average_starts_at_centre (row_013 Int64) 0 0 3 1 1 0 1).
  - repeat constructor.
  - lia.
  - cbn. lia.
  - lia.
  - cbn. lia.
  - lia.
  - lia.
  - lia.
Defined.

Lemma radius_of_abs (dx dy : Z) : radius_of dx dy = radius_of (Z.abs dx) (Z.abs dy).
Proof. unfold radius_of. rewrite !Z.abs_square. reflexivity. Qed.

Lemma radius_of_mono (a b c d : Z) :
  0 <= a <= c -> 0 <= b <= d -> radius_of a b <= radius_of c d.
Proof.
  intros Hac Hbd. unfold radius_of.
  apply Z.div_le_mono; [lia |].
  apply Z.add_le_mono_r. apply Z.sqrt_le_mono.
  apply Z.div_le_mono; [lia | nia].
Qed.

Lemma radius_of_diag (d : Z) : 0 <= d -> radius_of d d = (d + 1) / 2.
Proof.
  intros Hd. unfold radius_of.
  replace (d * d + d * d) with (d * d * 2) by ring.
  rewrite Z.div_mul by lia. rewrite Z.sqrt_square by exact Hd. reflexivity.
Qed.

(** X8: the radius of a radial section lies between half the shorter and
    half the longer side of the region in pixels, both rounded; for a
    square region it is half the side; it depends neither on the order of
    the corners nor on which side is which. *)
Theorem radius_of_between_half_sides (dx dy : Z) :
  radius_between_half_sides dx dy.
Proof.
  unfold radius_between_half_sides.
  pose proof (Z.abs_nonneg dx) as Hx. pose proof (Z.abs_nonneg dy) as Hy.
  split.
  { rewrite (radius_of_abs dx dy).
    rewrite <- (radius_of_diag (Z.min (Z.abs dx) (Z.abs dy))) by lia.
    apply radius_of_mono; lia. }
  split.
  { rewrite (radius_of_abs dx dy).
    rewrite <- (radius_of_diag (Z.max (Z.abs dx) (Z.abs dy))) by lia.
    apply radius_of_mono; lia. }
  split.
  { intros Heq. rewrite (radius_of_abs dx dy), <- Heq. apply radius_of_diag. exact Hx. }
  split.
  { unfold radius_of. f_equal. f_equal. f_equal. f_equal. ring. }
  split.
  - rewrite (radius_of_abs (- dx) dy), Z.abs_opp. symmetry. apply radius_of_abs.
  - rewrite (radius_of_abs dx (- dy)), Z.abs_opp. symmetry. apply radius_of_abs.
Qed.

(** X9: the abscissas of a radial section are not more numerous than
    its values and start at zero; without an uncertainty policy the only
    uncertainties ever returned are the empty ones of the empty
    profile. *)
Theorem compute_radial_section_from_zero (E : Ext) (item : SourceImage)
    (x0 y0 x1 y1 : Q) (dyfunc : option dy_policy) :
  radial_abscissas_from_zero E item x0 y0 x1 y1 dyfunc.
Proof.
  unfold radial_abscissas_from_zero, compute_radial_section.
  destruct (get_closest_pixel_indexes item x0 y0) as [ix0 iy0].
  destruct (get_closest_pixel_indexes item x1 y1) as [ix1 iy1].
  destruct (get_closest_pixel_indexes item _ _) as [ixc iyc].
  destruct (radius_of (ix1 - ix0) (iy1 - iy0) =? 0).
  - split; [cbn; lia |]. split; [| exact I].
    intros d Hd _. injection Hd as <-. reflexivity.
  - set (ydata := map fst (map _ (arange 0 _))).
    set (xs := firstn (length ydata) _).
    assert (Hlen : (length xs <= length ydata)%nat).
    { unfold xs. rewrite length_firstn. lia. }
    split.
    { destruct xs as [| first rest]; [cbn; lia |]. rewrite length_map. exact Hlen. }
    split.
    { intros d Hd Hnone. rewrite Hnone in Hd. discriminate. }
    destruct xs as [| first rest]; [exact I |].
    cbn [map]. destruct first as [| q]; [left; reflexivity |].
    right. exists (q - q)%Q. split; [reflexivity | ring].
Qed.

Example radial_section_of_strip :
  compute_radial_section canvas_ext strip_source 0 0 2 0 None
  = ([Fin (0 - 0); Fin (1 - 0)], [Fin 0; Fin 1], None).
Proof. vm_compute. reflexivity. Qed.

(** * Further properties of the items and of the panel *)

(** X10: whatever [update_item] does, and also when it raises, it only
    touches the data of the curve and only adds to the actions recorded:
    the modes, the source, the visibility and the identity of the item
    stay as they are. *)
Theorem update_item_frame (W : World) (E : Ext) (plot_visible : bool)
    (obj : PlotObject) (st : ItemState) :
  same_item_but_data (self st) (self (snd (update_item W E plot_visible obj st)))
  /\ exists added,
       actions (snd (update_item W E plot_visible obj st)) = actions st ++ added.
Proof.
  rewrite update_item_run.
  pose proof (item_run_same_item W E plot_visible obj (self st)) as Hsame.
  destruct (item_run W E plot_visible obj (self st)) as [[r c'] added].
  cbn [fst snd self actions] in *. split; [exact Hsame |].
  exists added. reflexivity.
Qed.

(** X11: once the data of the curve has been updated, [update_item]
    emits the curve-changed signal once; with the autoscale mode on it
    does nothing more; with the autoscale mode off the X item (the Y item)
    then sets the bottom (left) axis to the scale of the plot of the
    source and replots, and raises [AttributeError], after the signal,
    when the source belongs to no plot. *)
Theorem update_item_signals (W : World) (E : Ext) (obj : PlotObject)
    (st : ItemState) (s : SourceImage) :
  attached (self st) = true ->
  get_source_image W (self st) = Some s ->
  fst (update_curve_data W E obj st) = Ok tt ->
  item_signals W E obj st s.
Proof.
  intros Ha Hs Hdata. unfold item_signals. cbv zeta.
  rewrite update_item_run, (item_run_attached_visible W E obj (self st) s Ha Hs).
  rewrite update_curve_data_run in *.
  assert (Hscale : forall c', same_item_but_data (self st) c' ->
            scale_actions W c'
            = match klass (self st) with
              | CrossSectionItem => Raise NotImplementedError
              | XCrossSectionItem =>
                  match source_plot s with
                  | None => Raise AttributeError
                  | Some sp => Ok [SetAxisScale true (fst (scale_bottom sp))
                                     (snd (scale_bottom sp)); Replot]
                  end
              | YCrossSectionItem =>
                  match source_plot s with
                  | None => Raise AttributeError
                  | Some sp => Ok [SetAxisScale false (fst (scale_left sp))
                                     (snd (scale_left sp)); Replot]
                  end
              | RACrossSectionItem => Ok []
              end).
  { intros c' (_ & Hk & _ & _ & _ & Hsrc & _).
    unfold scale_actions, get_source_image in *. rewrite Hk, Hsrc, Hs.
    destruct (klass (self st)); try reflexivity;
      destruct (source_plot s) as [sp |]; try reflexivity.
    - destruct (scale_bottom sp); reflexivity.
    - destruct (scale_left sp); reflexivity. }
  destruct (new_data W E obj (self st)) as [[d | e] |]; cbn [fst snd self] in *;
    [| discriminate |].
  - rewrite (Hscale _ (with_data_same_item (self st) d)).
    cbn [with_data c_autoscale_mode cid].
    split; [intros Ham; rewrite Ham; cbn; split; reflexivity |].
    split.
    + intros Ham sp Hsp. rewrite Ham, Hsp. cbn [negb].
      split; intros Hk; rewrite Hk; cbn; split; reflexivity.
    + intros Ham Hsp Hk. rewrite Ham, Hsp. cbn [negb].
      destruct Hk as [Hk | Hk]; rewrite Hk; cbn; repeat split; reflexivity.
  - rewrite (Hscale _ (same_item_but_data_refl (self st))).
    split; [intros Ham; rewrite Ham; cbn; split; reflexivity |].
    split.
    + intros Ham sp Hsp. rewrite Ham, Hsp. cbn [negb].
      split; intros Hk; rewrite Hk; cbn; split; reflexivity.
    + intros Ham Hsp Hk. rewrite Ham, Hsp. cbn [negb].
      destruct Hk as [Hk | Hk]; rewrite Hk; cbn; repeat split; reflexivity.
Qed.

Lemma update_item_signals_witness :
  item_signals canvas_world canvas_ext
    (on_canvas (MarkerG 1 1) [plain_item] false)
    {| self := copy_modes false false false (new_curve XCrossSectionItem 0%nat 0%nat);
       actions := [] |}
    strip_source.
Proof.
  apply (update_item_signals canvas_world canvas_ext
           (on_canvas (MarkerG 1 1) [plain_item] false)
           {| self := copy_modes false false false
                        (new_curve XCrossSectionItem 0%nat 0%nat);
              actions := [] |}
           strip_source); reflexivity.
Defined.

Lemma same_identity_refl (c : Curve) : same_identity c c.
Proof. unfold same_identity. repeat split. Qed.

Lemma same_identity_after_run (W : World) (E : Ext) (visible : bool)
    (obj : PlotObject) (c0 c : Curve) :
  same_identity c c0 ->
  same_identity c (snd (fst (item_run W E visible obj c0))).
Proof.
  intros (H1 & H2 & H3 & H4).
  destruct (item_run_same_item W E visible obj c0)
    as (G1 & G2 & _ & _ & _ & G3 & G4 & _).
  unfold same_identity. repeat split; congruence.
Qed.

Lemma update_curves_keeps (W : World) (E : Ext) (pm am lut visible : bool)
    (obj : PlotObject) (curves : list (src_id * Curve)) (index : nat)
    (acts : list Action) :
  Forall2 (fun e e' => fst e' = fst e /\ same_identity (snd e) (snd e'))
          curves
          (snd (fst (update_curves W E pm am lut visible obj index curves acts)))
  /\ exists added,
       snd (update_curves W E pm am lut visible obj index curves acts) = acts ++ added.
Proof.
  revert index acts. induction curves as [| [src c] rest IH]; intros index acts.
  - cbn. split; [constructor | exists []; rewrite app_nil_r; reflexivity].
  - cbn [update_curves].
    destruct (negb pm && (0 <? index)%nat).
    + destruct (IH (S index) acts) as [Hrest Hacts].
      destruct (update_curves W E pm am lut visible obj (S index) rest acts)
        as [[r rest'] acts'].
      cbn [fst snd] in *. split; [| exact Hacts].
      constructor; [| exact Hrest]. cbn. repeat split.
    + rewrite update_item_run. cbn [self actions].
      pose proof (same_identity_after_run W E visible obj
                    (copy_modes pm am lut (set_shown true c)) c
                    ltac:(unfold same_identity; cbn; repeat split)) as Hid.
      destruct (item_run W E visible obj (copy_modes pm am lut (set_shown true c)))
        as [[r c'] added].
      cbn [fst snd] in Hid. destruct r as [[] | e]; cbn [self actions].
      * destruct (IH (S index) (acts ++ added)) as [Hrest [added' Hacts]].
        destruct (update_curves W E pm am lut visible obj (S index) rest (acts ++ added))
          as [[r rest'] acts'].
        cbn [fst snd self actions] in *. split.
        -- constructor; [split; [reflexivity | exact Hid] | exact Hrest].
        -- exists (added ++ added'). rewrite Hacts, app_assoc. reflexivity.
      * cbn [fst snd self actions]. split.
        -- constructor; [split; [reflexivity | exact Hid] |].
           clear. induction rest as [| e0 rest IHr]; constructor;
             [split; [reflexivity | apply same_identity_refl] | exact IHr].
        -- exists added. reflexivity.
Qed.

Lemma shape_in_pop_first (shape x : obj_id) (shapes : list obj_id) :
  shape_in x (pop_first shape shapes) = true -> shape_in x shapes = true.
Proof.
  rewrite !shape_in_spec. induction shapes as [| y t IH]; [intros []|].
  cbn [pop_first]. destruct (Nat.eqb shape y).
  - intros H. right. exact H.
  - intros [H | H]; [left; exact H | right; apply IH; exact H].
Qed.

Lemma known_after_unregister (shape x : obj_id) (reg : list (plot_id * list obj_id)) :
  existsb (fun entry => shape_in x (snd entry)) (unregister_in shape reg) = true ->
  existsb (fun entry => shape_in x (snd entry)) reg = true.
Proof.
  induction reg as [| [pl shapes] t IH]; [intros H; exact H |].
  cbn [unregister_in]. destruct (shape_in shape shapes); cbn [existsb snd].
  - rewrite !orb_true_iff. intros [H | H]; [left; apply (shape_in_pop_first shape) | right];
      exact H.
  - rewrite !orb_true_iff. intros [H | H]; [left | right; apply IH]; exact H.
Qed.

Lemma Forall2_identity_refl (l : list (src_id * Curve)) :
  Forall2 (fun e e' => fst e' = fst e /\ same_identity (snd e) (snd e')) l l.
Proof.
  induction l as [| e t IH]; constructor;
    [split; [reflexivity | apply same_identity_refl] | exact IH].
Qed.

Lemma refresh_keeps_refl (p : Panel) : refresh_keeps p p.
Proof.
  unfold refresh_keeps. repeat (split; [reflexivity |]).
  split; [apply Forall2_identity_refl |].
  split; [exists []; rewrite app_nil_r; reflexivity |].
  intros shape H. exact H.
Qed.

Lemma refresh_body_keeps (W : World) (E : Ext) (o : obj_id) (p : Panel) :
  refresh_keeps p (snd (refresh W E o p)).
Proof.
  destruct p as [pm am lut last curves shapes label visible acts].
  unfold refresh, bind, get_state, modify, ret, panel_act, unregister_shape, modify.
  destruct (plot (objects W o)) as [pl |].
  - destruct (update_curves_keeps W E pm am lut visible (objects W o) curves 0 acts)
      as [Hc [added Ha]].
    destruct label;
      cbn -[update_curves];
      destruct (update_curves W E pm am lut visible (objects W o) 0 curves acts)
        as [[r curves'] acts'];
      cbn [fst snd] in Hc, Ha; subst acts';
      (destruct r as [[] | e]; [destruct am |]);
      cbn -[update_curves];
      unfold refresh_keeps;
      cbn [perimage_mode autoscale_mode apply_lut last_obj
           known_items _shapes label_visible isVisible log];
      (split; [reflexivity |]); (split; [reflexivity |]);
      (split; [reflexivity |]); (split; [reflexivity |]);
      (split; [exact Hc |]);
      (split; [rewrite <- ?app_assoc; eexists; reflexivity |]);
      intros shape H; exact H.
  - cbn [snd]. unfold refresh_keeps.
    cbn [with_shapes perimage_mode autoscale_mode apply_lut last_obj
         known_items _shapes label_visible isVisible log].
    repeat (split; [reflexivity |]).
    split; [apply Forall2_identity_refl |].
    split; [exists []; rewrite app_nil_r; reflexivity |].
    intros shape. unfold is_shape_known. cbn [_shapes]. apply known_after_unregister.
Qed.

(** X12: a call of [update_plot], whatever its target and also when it
    raises, keeps the modes and the visibility of the panel, the sources
    of the curves in their order with the identity of each curve (its
    class, its source, its attachment), and the actions already recorded;
    no shape that the registry did not hold gets into it. *)
Theorem update_plot_keeps (W : World) (E : Ext) (obj : option obj_id) (p : Panel) :
  refresh_keeps p (snd (update_plot W E obj p)).
Proof.
  unfold update_plot. destruct obj as [o |].
  - unfold bind, modify.
    pose proof (refresh_body_keeps W E o (with_last_obj p (Some o))) as H.
    destruct (refresh W E o (with_last_obj p (Some o))) as [r p'].
    cbn [snd] in *. destruct r; exact H.
  - unfold bind, get_state.
    destruct (get_last_obj W p) as [o |]; [apply refresh_body_keeps |].
    apply refresh_keeps_refl.
Qed.

Lemma shown_curve_fixed (pm am lut : bool) (c : Curve) :
  shown c = true -> c_perimage_mode c = pm -> c_autoscale_mode c = am ->
  c_apply_lut c = lut ->
  copy_modes pm am lut (set_shown true c) = c.
Proof. destruct c. cbn. intros -> -> -> ->. reflexivity. Qed.

Lemma update_curves_per_image (W : World) (E : Ext) (am lut visible : bool)
    (obj : PlotObject) (curves : list (src_id * Curve)) (index : nat)
    (acts : list Action) :
  fst (fst (update_curves W E true am lut visible obj index curves acts)) = Ok tt ->
  all_shown_with_modes true am lut
    (snd (fst (update_curves W E true am lut visible obj index curves acts))).
Proof.
  revert index acts. induction curves as [| [src c] rest IH]; intros index acts Hok.
  - constructor.
  - revert Hok. cbn [update_curves negb andb]. rewrite update_item_run.
    cbn [self actions].
    pose proof (item_run_same_item W E visible obj
                  (copy_modes true am lut (set_shown true c))) as Hsame.
    destruct (item_run W E visible obj (copy_modes true am lut (set_shown true c)))
      as [[r c'] added].
    cbn [fst snd self actions] in *.
    destruct r as [[] | e]; cbn -[update_curves]; [| discriminate].
    specialize (IH (S index) (acts ++ added)).
    destruct (update_curves W E true am lut visible obj (S index) rest (acts ++ added))
      as [[r rest'] acts'].
    cbn [fst snd] in *. intros Hok. constructor; [| apply IH; exact Hok].
    destruct Hsame as (_ & _ & Hpm & Ham & Hlut & _ & _ & Hshown).
    cbn in *. repeat split; assumption.
Qed.

(** X13: a refresh in per-image mode that returns leaves every curve
    shown, with the three modes of the panel. *)
Theorem update_plot_per_image_mode (W : World) (E : Ext) (o : obj_id) (p : Panel) :
  perimage_mode p = true ->
  plot (objects W o) <> None ->
  fst (update_plot W E (Some o) p) = Ok tt ->
  all_shown_with_modes true (autoscale_mode p) (apply_lut p)
    (known_items (snd (update_plot W E (Some o) p))).
Proof.
  destruct p as [pm am lut last curves shapes label visible acts].
  cbn [perimage_mode autoscale_mode apply_lut]. intros -> Hplot.
  unfold update_plot, refresh, bind, get_state, modify, ret, panel_act, modify.
  destruct (plot (objects W o)) as [pl |]; [| contradiction].
  pose proof (update_curves_per_image W E am lut visible (objects W o) curves 0 acts)
    as Hall.
  destruct label; cbn -[update_curves];
    destruct (update_curves W E true am lut visible (objects W o) 0 curves acts)
      as [[r curves'] acts'];
    cbn [fst snd] in Hall;
    (destruct r as [[] | e]; [destruct am |]); cbn -[update_curves];
    intros Hok; try discriminate Hok; apply Hall; reflexivity.
Qed.

Lemma update_plot_per_image_mode_witness :
  all_shown_with_modes true true false
    (known_items (snd (update_plot canvas_world canvas_ext (Some 0%nat)
                         (two_curve_panel true)))).
Proof.
  apply (update_plot_per_image_mode canvas_world canvas_ext 0%nat (two_curve_panel true)).
  - reflexivity.
  - discriminate.
  - vm_compute. reflexivity.
Defined.

Lemma new_data_with_data (W : World) (E : Ext) (obj : PlotObject) (c : Curve)
    (d : CurveData) :
  new_data W E obj (with_data c d) = new_data W E obj c.
Proof. reflexivity. Qed.

Lemma item_run_idem (W : World) (E : Ext) (visible : bool) (obj : PlotObject)
    (c c' : Curve) (added : list Action) :
  item_run W E visible obj c = (Ok tt, c', added) ->
  item_run W E visible obj c' = (Ok tt, c', added).
Proof.
  unfold item_run.
  destruct (attached c) eqn:Ha; cbn [negb];
    [| intros H; injection H as <- <-; rewrite Ha; reflexivity].
  destruct (get_source_image W c) as [s |] eqn:Hs;
    [| intros H; injection H as <- <-; rewrite Ha, Hs; reflexivity].
  destruct visible; cbn [negb];
    [| intros H; injection H as <- <-; rewrite Ha, Hs; reflexivity].
  destruct (new_data W E obj c) as [[d | e] |] eqn:Hd.
  - intros H.
    assert (Hc' : c' = with_data c d).
    { destruct (negb (c_autoscale_mode (with_data c d)));
        [destruct (scale_actions W (with_data c d)) |]; congruence. }
    subst c'.
    change (attached (with_data c d)) with (attached c). rewrite Ha. cbn [negb].
    change (get_source_image W (with_data c d)) with (get_source_image W c). rewrite Hs.
    rewrite new_data_with_data, Hd.
    change (with_data (with_data c d) d) with (with_data c d). exact H.
  - discriminate.
  - intros H.
    assert (Hc' : c' = c).
    { destruct (negb (c_autoscale_mode c)); [destruct (scale_actions W c) |]; congruence. }
    subst c'. rewrite Ha, Hs, Hd. cbn [negb]. exact H.
Qed.

Lemma update_curves_idem (W : World) (E : Ext) (pm am lut visible : bool)
    (obj : PlotObject) (curves : list (src_id * Curve)) :
  forall index acts curves' acts',
    update_curves W E pm am lut visible obj index curves acts = (Ok tt, curves', acts') ->
    forall acts2, exists acts2',
      update_curves W E pm am lut visible obj index curves' acts2
      = (Ok tt, curves', acts2').
Proof.
  induction curves as [| [src c] rest IH]; intros index acts curves' acts' Hrun acts2.
  - cbn in Hrun. injection Hrun as <- <-. exists acts2. reflexivity.
  - cbn [update_curves] in Hrun.
    destruct (negb pm && (0 <? index)%nat) eqn:Hhide.
    + destruct (update_curves W E pm am lut visible obj (S index) rest acts)
        as [[r rest'] acts0] eqn:Hrest.
      injection Hrun as Hr <- <-. subst r.
      destruct (IH _ _ _ _ Hrest acts2) as [acts2' H2].
      exists acts2'. cbn [update_curves]. rewrite Hhide, H2. reflexivity.
    + rewrite update_item_run in Hrun. cbn [self actions] in Hrun.
      pose proof (item_run_same_item W E visible obj
                    (copy_modes pm am lut (set_shown true c))) as Hsame.
      destruct (item_run W E visible obj (copy_modes pm am lut (set_shown true c)))
        as [[r c1] added] eqn:Hitem.
      cbn [fst snd] in Hsame. destruct r as [[] | e]; cbn -[update_curves] in Hrun.
      * destruct (update_curves W E pm am lut visible obj (S index) rest (acts ++ added))
          as [[r rest'] acts0] eqn:Hrest.
        injection Hrun as Hr <- <-. subst r.
        destruct (IH _ _ _ _ Hrest (acts2 ++ added)) as [acts2' H2].
        exists acts2'. cbn [update_curves]. rewrite Hhide.
        destruct Hsame as (_ & _ & Hpm & Ham & Hlut & _ & _ & Hshown).
        cbn in Hpm, Ham, Hlut, Hshown.
        rewrite (shown_curve_fixed pm am lut c1 Hshown Hpm Ham Hlut).
        rewrite update_item_run. cbn [self actions].
        rewrite (item_run_idem W E visible obj _ _ _ Hitem).
        cbn -[update_curves]. rewrite H2. reflexivity.
      * discriminate Hrun.
Qed.

(** X14: a refresh that returns can be repeated: the second refresh for
    the same object returns too and leaves every curve, with its data, as
    the first left it. *)
Theorem update_plot_twice (W : World) (E : Ext) (o : obj_id) (p : Panel) :
  fst (update_plot W E (Some o) p) = Ok tt ->
  fst (update_plot W E (Some o) (snd (update_plot W E (Some o) p))) = Ok tt
  /\ known_items (snd (update_plot W E (Some o) (snd (update_plot W E (Some o) p))))
     = known_items (snd (update_plot W E (Some o) p)).
Proof.
  destruct p as [pm am lut last curves shapes label visible acts].
  unfold update_plot, refresh, bind, get_state, modify, ret, panel_act,
    unregister_shape, modify.
  destruct (plot (objects W o)) as [pl |]; [| intros _; split; reflexivity].
  assert (Hloop : forall l r curves' acts',
            update_curves W E pm am lut visible (objects W o) 0 curves l
            = (r, curves', acts') ->
            r = Ok tt ->
            forall l2, exists acts2,
              update_curves W E pm am lut visible (objects W o) 0 curves' l2
              = (Ok tt, curves', acts2)).
  { intros l r curves' acts' Hrun -> l2.
    apply (update_curves_idem W E pm am lut visible (objects W o) curves _ _ _ _ Hrun). }
  destruct label; cbn -[update_curves];
    destruct (update_curves W E pm am lut visible (objects W o) 0 curves acts)
      as [[r curves'] acts'] eqn:Hrun;
    (destruct r as [[] | e]; [destruct am |]); cbn -[update_curves];
    intros Hok; try discriminate Hok;
    match goal with
    | |- context [update_curves W E pm ?a lut visible (objects W o) 0 curves' ?l2] =>
        destruct (Hloop _ _ _ _ Hrun eq_refl l2) as [acts2 H2]; rewrite H2
    end;
    cbn; split; reflexivity.
Qed.

Lemma update_plot_twice_witness :
  fst (update_plot canvas_world canvas_ext (Some 0%nat)
         (snd (update_plot canvas_world canvas_ext (Some 0%nat) (two_curve_panel false))))
  = Ok tt
  /\ known_items
       (snd (update_plot canvas_world canvas_ext (Some 0%nat)
               (snd (update_plot canvas_world canvas_ext (Some 0%nat)
                       (two_curve_panel false)))))
     = known_items (snd (update_plot canvas_world canvas_ext (Some 0%nat)
                           (two_curve_panel false))).
Proof.
  apply (update_plot_twice canvas_world canvas_ext 0%nat (two_curve_panel false)).
  vm_compute. reflexivity.
Defined.

Lemma registrations_cons (x : obj_id) (pl : plot_id) (shapes : list obj_id)
    (reg : list (plot_id * list obj_id)) :
  registrations x ((pl, shapes) :: reg)
  = (count_occ Nat.eq_dec shapes x + registrations x reg)%nat.
Proof. reflexivity. Qed.

Lemma is_shape_known_registrations (p : Panel) (shape : obj_id) :
  is_shape_known p shape = true <-> (0 < registrations shape (_shapes p))%nat.
Proof.
  unfold is_shape_known.
  induction (_shapes p) as [| [pl shapes] t IH].
  - cbn. split; [discriminate | lia].
  - rewrite registrations_cons. cbn [existsb snd].
    rewrite orb_true_iff, IH, shape_in_spec.
    rewrite (count_occ_In Nat.eq_dec). lia.
Qed.

Lemma count_pop_first (shape x : obj_id) (shapes : list obj_id) :
  count_occ Nat.eq_dec (pop_first shape shapes) x
  = if Nat.eqb x shape
    then pred (count_occ Nat.eq_dec shapes x)
    else count_occ Nat.eq_dec shapes x.
Proof.
  induction shapes as [| y t IH]; [destruct (Nat.eqb x shape); reflexivity |].
  cbn [pop_first]. destruct (Nat.eqb_spec shape y) as [-> | Hne].
  - cbn [count_occ]. destruct (Nat.eq_dec y x) as [-> | Hyx].
    + rewrite Nat.eqb_refl. reflexivity.
    + destruct (Nat.eqb_spec x y); [congruence | reflexivity].
  - cbn [count_occ]. rewrite IH. destruct (Nat.eq_dec y x) as [-> | Hyx].
    + destruct (Nat.eqb_spec x shape); [congruence | reflexivity].
    + reflexivity.
Qed.

Lemma unregister_in_spec (shape : obj_id) (reg : list (plot_id * list obj_id)) :
  unregistered shape reg (unregister_in shape reg).
Proof.
  unfold unregistered.
  induction reg as [| [pl shapes] t IH].
  - cbn. repeat split; reflexivity.
  - destruct IH as (Hkeys & Hcount & Hother & Hnone).
    cbn [unregister_in]. destruct (shape_in shape shapes) eqn:Hin.
    + apply shape_in_spec in Hin.
      apply (count_occ_In Nat.eq_dec) in Hin.
      rewrite !registrations_cons.
      split; [reflexivity |].
      split; [rewrite count_pop_first, Nat.eqb_refl; lia |].
      split.
      * intros x Hx. rewrite !registrations_cons, count_pop_first.
        destruct (Nat.eqb_spec x shape); [contradiction | reflexivity].
      * intros H0. lia.
    + assert (H0 : count_occ Nat.eq_dec shapes shape = 0%nat).
      { apply count_occ_not_In. intros Hc. apply shape_in_spec in Hc. congruence. }
      rewrite !registrations_cons.
      split; [cbn [map fst]; f_equal; exact Hkeys |].
      split; [rewrite Hcount, H0; reflexivity |].
      split; [intros x Hx; rewrite !registrations_cons, (Hother x Hx); reflexivity |].
      intros Hz. f_equal. apply Hnone. lia.
Qed.

(** X15: a refresh for an object that belongs to no plot returns without
    touching a curve, the label or the recorded actions; it remembers the
    object as the last target and removes one registration of it from the
    registry (the first one; the plots keep their entries, the other
    shapes their registrations, and nothing changes when the object was
    not registered). *)
Theorem update_plot_detached (W : World) (E : Ext) (o : obj_id) (p : Panel) :
  plot (objects W o) = None ->
  detached_refresh W E o p.
Proof.
  intros Hplot. unfold detached_refresh, update_plot, refresh, bind, modify,
    unregister_shape, modify.
  rewrite Hplot. cbn. repeat (split; [reflexivity |]).
  apply unregister_in_spec.
Qed.

Lemma update_plot_detached_witness :
  detached_refresh canvas_world canvas_ext 2%nat (two_curve_panel false).
Proof.
  apply (update_plot_detached canvas_world canvas_ext 2%nat (two_curve_panel false)).
  reflexivity.
Defined.

Lemma refresh_shapes_attached (W : World) (E : Ext) (o : obj_id) (p : Panel) :
  plot (objects W o) <> None ->
  _shapes (snd (refresh W E o p)) = _shapes p.
Proof.
  intros Hplot. destruct p as [pm am lut last curves shapes label visible acts].
  unfold refresh, bind, get_state, modify, ret, panel_act, modify.
  destruct (plot (objects W o)) as [pl |]; [| contradiction].
  destruct label; cbn -[update_curves];
    destruct (update_curves W E pm am lut visible (objects W o) 0 curves acts)
      as [[r curves'] acts'];
    (destruct r as [[] | e]; [destruct am |]); reflexivity.
Qed.

Lemma registrations_register_in (pl : plot_id) (shape x : obj_id)
    (reg : list (plot_id * list obj_id)) :
  registrations x (register_in pl shape reg)
  = ((if Nat.eqb x shape then 1 else 0) + registrations x reg)%nat.
Proof.
  induction reg as [| [pl' shapes] t IH].
  - cbn. destruct (Nat.eq_dec shape x) as [-> | Hne].
    + rewrite Nat.eqb_refl. reflexivity.
    + destruct (Nat.eqb_spec x shape); [congruence | reflexivity].
  - cbn [register_in]. destruct (Nat.eqb pl pl'); rewrite !registrations_cons.
    + rewrite count_occ_app. cbn [count_occ].
      destruct (Nat.eq_dec shape x) as [-> | Hne].
      * rewrite Nat.eqb_refl. unfold obj_id. lia.
      * destruct (Nat.eqb_spec x shape); [congruence | unfold obj_id; lia].
    + rewrite IH. lia.
Qed.

Lemma known_shapes_registered (pl : plot_id) (shape : obj_id)
    (reg : list (plot_id * list obj_id)) :
  shape_in shape (known_shapes pl reg) = true -> (0 < registrations shape reg)%nat.
Proof.
  induction reg as [| [pl' shapes] t IH]; [discriminate |].
  rewrite registrations_cons. cbn [known_shapes]. destruct (Nat.eqb pl pl').
  - rewrite shape_in_spec, (count_occ_In Nat.eq_dec). lia.
  - intros H. specialize (IH H). lia.
Qed.

(** X16: registering a shape that is already registered for the plot
    changes nothing and refreshes nothing; after registering a shape that
    belongs to a plot, the shape is known to the panel, also when the
    refresh that follows raises. *)
Theorem register_shape_known (W : World) (E : Ext) (pl : plot_id)
    (shape : obj_id) (p : Panel) :
  (shape_in shape (known_shapes pl (_shapes p)) = true ->
   register_shape W E pl shape p = (Ok tt, p))
  /\ (plot (objects W shape) <> None ->
      is_shape_known (snd (register_shape W E pl shape p)) shape = true).
Proof.
  split.
  - intros Hknown. unfold register_shape, bind, get_state. rewrite Hknown. reflexivity.
  - intros Hplot. unfold register_shape, bind, get_state.
    destruct (shape_in shape (known_shapes pl (_shapes p))) eqn:Hknown.
    + cbn [ret snd]. apply is_shape_known_registrations.
      apply (known_shapes_registered pl). exact Hknown.
    + unfold modify, panel_act, modify, update_plot, bind, modify.
      match goal with
      | |- is_shape_known (snd (refresh W E shape ?q)) _ = _ =>
          pose proof (refresh_shapes_attached W E shape q Hplot) as Hs
      end.
      cbn [_shapes with_last_obj with_known_items with_shapes] in Hs.
      apply is_shape_known_registrations.
      rewrite Hs, registrations_register_in, Nat.eqb_refl. lia.
Qed.

Lemma update_plot_modes (W : World) (E : Ext) (obj : option obj_id) (p : Panel) :
  perimage_mode (snd (update_plot W E obj p)) = perimage_mode p
  /\ autoscale_mode (snd (update_plot W E obj p)) = autoscale_mode p
  /\ apply_lut (snd (update_plot W E obj p)) = apply_lut p.
Proof.
  assert (H : refresh_keeps p (snd (update_plot W E obj p))).
  { unfold update_plot. destruct obj as [o |].
    - unfold bind, modify.
      pose proof (refresh_body_keeps W E o (with_last_obj p (Some o))) as H.
      destruct (refresh W E o (with_last_obj p (Some o))) as [r p'].
      cbn [snd] in *. destruct r; exact H.
    - unfold bind, get_state.
      destruct (get_last_obj W p) as [o |]; [apply refresh_body_keeps |].
      apply refresh_keeps_refl. }
  destruct H as (H1 & H2 & H3 & _). repeat split; assumption.
Qed.

(** X17: each toggle sets its mode to the given state and leaves the two
    other modes as they are, whatever the refresh that follows does; with
    no live target it does nothing else.  [lut_changed] refreshes only
    when the panel applies the LUT. *)
Theorem toggles_and_lut (W : World) (E : Ext) (state : bool) (p : Panel) :
  toggles_set_modes W E state p.
Proof.
  unfold toggles_set_modes. cbv zeta.
  unfold toggle_perimage_mode, toggle_autoscale, toggle_apply_lut, lut_changed,
    bind, modify, get_state.
  split.
  { destruct (update_plot_modes W E None
                (with_modes p state (autoscale_mode p) (apply_lut p))) as (H1 & H2 & H3).
    destruct (update_plot W E None _) as [r q]. destruct r; cbn [snd] in *;
      rewrite H1, H2, H3; reflexivity. }
  split.
  { destruct (update_plot_modes W E None
                (with_modes p (perimage_mode p) state (apply_lut p))) as (H1 & H2 & H3).
    destruct (update_plot W E None _) as [r q]. destruct r; cbn [snd] in *;
      rewrite H1, H2, H3; reflexivity. }
  split.
  { destruct (update_plot_modes W E None
                (with_modes p (perimage_mode p) (autoscale_mode p) state)) as (H1 & H2 & H3).
    destruct (update_plot W E None _) as [r q]. destruct r; cbn [snd] in *;
      rewrite H1, H2, H3; reflexivity. }
  split.
  { intros Hnone.
    assert (Hno : forall a b c,
              update_plot W E None (with_modes p a b c) = (Ok tt, with_modes p a b c)).
    { intros a b c. unfold update_plot, bind, get_state.
      replace (get_last_obj W (with_modes p a b c)) with (get_last_obj W p)
        by reflexivity.
      rewrite Hnone. reflexivity. }
    rewrite !Hno. repeat split; reflexivity. }
  split.
  - intros Hlut. rewrite Hlut. reflexivity.
  - intros Hlut. rewrite Hlut. reflexivity.
Qed.

(** * Properties of the annotations *)

Lemma Q_fabs_cases (q : Q) :
  (0 <= Q_fabs q)%Q
  /\ ((0 <= q)%Q -> (Q_fabs q == q)%Q)
  /\ ((q <= 0)%Q -> (Q_fabs q == - q)%Q).
Proof.
  unfold Q_fabs. destruct (Qle_bool 0 q) eqn:Hq.
  - apply Qle_bool_iff in Hq. repeat split; intros; lra.
  - assert (Hneg : (q < 0)%Q).
    { destruct (Qlt_le_dec q 0) as [Hlt | Hle]; [exact Hlt |].
      apply Qle_bool_iff in Hle. congruence. }
    repeat split; intros; lra.
Qed.

Lemma Q_fabs_opp (a b : Q) : (Q_fabs (a - b) == Q_fabs (b - a))%Q.
Proof.
  destruct (Q_fabs_cases (a - b)) as (_ & Hge & Hle).
  destruct (Q_fabs_cases (b - a)) as (_ & Hge' & Hle').
  destruct (Qlt_le_dec a b) as [Hlt | Hba].
  - rewrite Hle by lra. rewrite Hge' by lra. ring.
  - rewrite Hge by lra. rewrite Hle' by lra. ring.
Qed.

(** X18: the width reported for an annotated rectangle is the signed
    difference of the transformed abscissas of its corners 0 and 2, while
    the height reported is the absolute difference of their ordinates and
    is never negative: with the two corners exchanged, the centre and the
    height are the same and the width is the opposite. *)
Theorem rectangle_infos (m : Matrix3) (points : nat -> Q * Q) :
  rectangle_infos_correct m points.
Proof.
  unfold rectangle_infos_correct, rectangle_center, rectangle_size,
    get_transformed_coords, compute_center, compute_rect_size, pair_eq,
    exchange_corners.
  destruct (apply_transform_matrix m (fst (points 0%nat)) (snd (points 0%nat)))
    as [tx0 ty0].
  destruct (apply_transform_matrix m (fst (points 2%nat)) (snd (points 2%nat)))
    as [tx2 ty2].
  cbn [fst snd].
  destruct (Q_fabs_cases (ty2 - ty0)) as (Hpos & Hge & Hle).
  split; [reflexivity |].
  split; [exact Hpos |].
  split; [intros H; rewrite Hge by lra; reflexivity |].
  split; [intros H; rewrite Hle by lra; ring |].
  split; [split; ring |].
  split; [ring | apply Q_fabs_opp].
Qed.

Example rectangle_infos_identity :
  rectangle_center identity_matrix
    (fun h => match h with 0%nat => (3, 1) | _ => (1, 5) end)%Q
  = ((1 # 2) * (3 * 1 + 1 * 0 + 1 * 0 + (1 * 1 + 5 * 0 + 1 * 0)),
     (1 # 2) * (3 * 0 + 1 * 1 + 1 * 0 + (1 * 0 + 5 * 1 + 1 * 0)))%Q
  /\ (fst (rectangle_size identity_matrix
             (fun h => match h with 0%nat => (3, 1) | _ => (1, 5) end)%Q) == -2)%Q
  /\ (snd (rectangle_size identity_matrix
             (fun h => match h with 0%nat => (3, 1) | _ => (1, 5) end)%Q) == 4)%Q.
Proof. repeat split. Qed.

(** * Properties of the scripting interface *)

(** X19: for a grid of [n] rows and [m] columns and a position [k] from 1
    to [n*m], [subplot] works on the cell of row [(k-1)/m] and column
    [(k-1)%m]: the row is below [n], the column below [m], [k] is found
    back as [row*m + column + 1], and two positions never share a cell. *)
Theorem subplot_cell_grid (n m k : Z) :
  0 < m -> 1 <= k <= n * m ->
  exists lig col,
    subplot_cell n m k = Ok (lig, col)
    /\ 0 <= lig < n /\ 0 <= col < m
    /\ k = lig * m + col + 1
    /\ forall k', subplot_cell n m k' = Ok (lig, col) -> k' = k.
Proof.
  intros Hm Hk. unfold subplot_cell.
  destruct (Z.eqb_spec m 0) as [H0 | _]; [lia |].
  pose proof (Z.div_mod (k - 1) m ltac:(lia)) as Hdm.
  pose proof (Z.mod_pos_bound (k - 1) m Hm) as Hmod.
  exists ((k - 1) / m), ((k - 1) mod m).
  split; [reflexivity |].
  split.
  { split; [apply Z.div_pos; lia |]. apply Z.div_lt_upper_bound; nia. }
  split; [exact Hmod |].
  split; [lia |].
  intros k' Hk'. destruct (Z.eqb_spec m 0) as [H0 | _]; [lia |].
  injection Hk' as Hdiv Hrem.
  pose proof (Z.div_mod (k' - 1) m ltac:(lia)) as Hdm'.
  rewrite Hdiv, Hrem in Hdm'. lia.
Qed.

Lemma subplot_cell_grid_witness :
  exists lig col,
    subplot_cell 2 3 5 = Ok (lig, col)
    /\ 0 <= lig < 2 /\ 0 <= col < 3
    /\ 5 = lig * 3 + col + 1
    /\ forall k', subplot_cell 2 3 k' = Ok (lig, col) -> k' = 5.
Proof. apply (subplot_cell_grid 2 3 5); lia. Defined.

Lemma min_of_spec (l : list Z) (d x : Z) :
  In x (d :: l) -> min_of l d <= x.
Proof.
  unfold min_of. induction l as [| y t IH]; cbn [fold_right].
  - intros [-> | []]. lia.
  - intros [-> | [-> | H]]; [specialize (IH (or_introl eq_refl)) | | specialize (IH (or_intror H))]; lia.
Qed.

Lemma max_of_spec (l : list Z) (d x : Z) :
  In x (d :: l) -> x <= max_of l d.
Proof.
  unfold max_of. induction l as [| y t IH]; cbn [fold_right].
  - intros [-> | []]. lia.
  - intros [-> | [-> | H]]; [specialize (IH (or_introl eq_refl)) | | specialize (IH (or_intror H))]; lia.
Qed.

Lemma cell_fits (W d x lo : Z) :
  0 <= W -> lo <= x -> x - lo + 1 <= d ->
  0 <= (x - lo) * (W / d) /\ (x - lo) * (W / d) + W / d <= W.
Proof.
  intros HW Hlo Hd.
  assert (Hd0 : 0 < d) by lia.
  pose proof (Z.div_pos W d HW Hd0) as Hq.
  pose proof (Z.mul_div_le W d Hd0) as Hmul.
  split; [nia |]. nia.
Qed.

(** X20: printing a figure on a device of width [W] and height [H] gives
    each of its axes a rectangle that lies on the device, and the
    rectangles of two different cells have no point in common. *)
Theorem print_layout_fits (keys : list (Z * Z)) (W H : Z) :
  keys <> [] -> 0 <= W -> 0 <= H ->
  layout_correct keys W H.
Proof.
  intros Hne HW HH. unfold layout_correct, print_layout.
  destruct keys as [| [i0 j0] rest] eqn:Hkeys; [contradiction |].
  rewrite <- Hkeys.
  set (imin := min_of (map fst keys) i0). set (imax := max_of (map fst keys) i0).
  set (jmin := min_of (map snd keys) j0). set (jmax := max_of (map snd keys) j0).
  assert (Hrange : forall i j, In (i, j) keys ->
            imin <= i <= imax /\ jmin <= j <= jmax).
  { intros i j Hin.
    assert (Hi : In i (i0 :: map fst keys)) by (right; apply (in_map fst _ _ Hin)).
    assert (Hj : In j (j0 :: map snd keys)) by (right; apply (in_map snd _ _ Hin)).
    repeat split;
      [apply min_of_spec | apply max_of_spec | apply min_of_spec | apply max_of_spec];
      assumption. }
  eexists. split; [reflexivity |].
  split.
  { rewrite map_map. rewrite <- (map_id keys) at 2.
    apply map_ext. intros [i j]. reflexivity. }
  split.
  - intros key r Hin. apply in_map_iff in Hin.
    destruct Hin as ([i j] & Heq & Hin). injection Heq as <- <-.
    destruct (Hrange i j Hin) as [Hi Hj]. unfold inside_device.
    destruct (cell_fits W (jmax - jmin + 1) j jmin HW) as [H1 H2]; [lia | lia |].
    destruct (cell_fits H (imax - imin + 1) i imin HH) as [H3 H4]; [lia | lia |].
    repeat split; assumption.
  - intros key r key' r' Hin Hin' Hdiff.
    apply in_map_iff in Hin. destruct Hin as ([i j] & Heq & Hin).
    apply in_map_iff in Hin'. destruct Hin' as ([i' j'] & Heq' & Hin').
    injection Heq as <- <-. injection Heq' as <- <-.
    destruct (Hrange i j Hin) as [Hi Hj]. destruct (Hrange i' j' Hin') as [Hi' Hj'].
    unfold disjoint_rects.
    assert (Hw : 0 <= W / (jmax - jmin + 1)) by (apply Z.div_pos; lia).
    assert (Hh : 0 <= H / (imax - imin + 1)) by (apply Z.div_pos; lia).
    assert (Hcase : j < j' \/ j' < j \/ i < i' \/ i' < i).
    { destruct (Z.eq_dec i i') as [-> | Hi0]; [| lia].
      destruct (Z.eq_dec j j') as [-> | Hj0]; [contradiction Hdiff; reflexivity | lia]. }
    destruct Hcase as [Hc | [Hc | [Hc | Hc]]];
      [left | right; left | right; right; left | right; right; right]; nia.
Qed.

Lemma print_layout_fits_witness :
  layout_correct [(0, 0); (0, 1); (1, 0)] 100 70.
Proof.
  apply (print_layout_fits [(0, 0); (0, 1); (1, 0)] 100 70); [discriminate | lia | lia].
Defined.

(** ** Dictionaries *)

Section Dictionaries.
Context {K V : Type} (eqb : K -> K -> bool).
Hypothesis eqb_spec : forall a b, eqb a b = true <-> a = b.

Lemma eqb_false (a b : K) : eqb a b = false <-> a <> b.
Proof.
  destruct (eqb a b) eqn:H.
  - apply eqb_spec in H. split; [discriminate | contradiction].
  - split; [| reflexivity]. intros _ Heq. apply eqb_spec in Heq. congruence.
Qed.

Lemma dict_get_In (k : K) (v : V) (d : list (K * V)) :
  dict_get eqb k d = Some v -> In (k, v) d.
Proof.
  induction d as [| [k' v'] t IH]; [discriminate |].
  cbn [dict_get]. destruct (eqb k k') eqn:Hk.
  - apply eqb_spec in Hk. subst k'. intros H. injection H as ->. left. reflexivity.
  - intros H. right. apply IH. exact H.
Qed.

Lemma dict_get_None (k : K) (d : list (K * V)) :
  dict_get eqb k d = None -> ~ In k (map fst d).
Proof.
  induction d as [| [k' v'] t IH]; [intros _ []|].
  cbn [dict_get map fst]. destruct (eqb k k') eqn:Hk; [discriminate |].
  apply eqb_false in Hk. intros H [Heq | Hin]; [congruence | apply (IH H Hin)].
Qed.

Lemma dict_set_keys (k : K) (v : V) (d : list (K * V)) :
  map fst (dict_set eqb k v d)
  = match dict_get eqb k d with
    | Some _ => map fst d
    | None => map fst d ++ [k]
    end.
Proof.
  induction d as [| [k' v'] t IH]; [reflexivity |].
  cbn [dict_set dict_get]. destruct (eqb k k') eqn:Hk; [reflexivity |].
  cbn [map fst]. rewrite IH. destruct (dict_get eqb k t); reflexivity.
Qed.

Lemma dict_set_NoDup (k : K) (v : V) (d : list (K * V)) :
  NoDup (map fst d) -> NoDup (map fst (dict_set eqb k v d)).
Proof.
  intros Hnd. rewrite dict_set_keys.
  destruct (dict_get eqb k d) eqn:Hget; [exact Hnd |].
  apply dict_get_None in Hget.
  apply NoDup_app; [exact Hnd | constructor; [intros [] | constructor] |].
  intros x Hx [-> | []]. contradiction.
Qed.

Lemma In_dict_set (k k' : K) (v v' : V) (d : list (K * V)) :
  NoDup (map fst d) ->
  In (k', v') (dict_set eqb k v d) ->
  (k' = k /\ v' = v) \/ (k' <> k /\ In (k', v') d).
Proof.
  induction d as [| [k0 v0] t IH]; intros Hnd.
  - intros [H | []]. injection H as <- <-. left. split; reflexivity.
  - inversion Hnd as [| ? ? Hnotin Hnd']. subst.
    cbn [dict_set]. destruct (eqb k k0) eqn:Hk.
    + apply eqb_spec in Hk. subst k0. intros [H | H].
      * injection H as <- <-. left. split; reflexivity.
      * right. split; [| right; exact H].
        intros ->. apply Hnotin. apply (in_map fst _ _ H).
    + apply eqb_false in Hk. intros [H | H].
      * injection H as <- <-. right. split; [congruence | left; reflexivity].
      * destruct (IH Hnd' H) as [Hl | [Hne Hin]]; [left; exact Hl |].
        right. split; [exact Hne | right; exact Hin].
Qed.

Lemma In_dict_set_new (k : K) (v : V) (d : list (K * V)) :
  In (k, v) (dict_set eqb k v d).
Proof.
  induction d as [| [k0 v0] t IH]; [left; reflexivity |].
  cbn [dict_set]. destruct (eqb k k0) eqn:Hk.
  - apply eqb_spec in Hk. subst k0. left. reflexivity.
  - right. exact IH.
Qed.

Lemma dict_pop_spec (k : K) (d d' : list (K * V)) (v : V) :
  NoDup (map fst d) ->
  dict_pop eqb k d = Some (v, d') ->
  NoDup (map fst d') /\ ~ In k (map fst d')
  /\ forall e, In e d' -> In e d.
Proof.
  revert d'. induction d as [| [k0 v0] t IH]; intros d' Hnd; [discriminate |].
  inversion Hnd as [| ? ? Hnotin Hnd']. subst.
  cbn [dict_pop]. destruct (eqb k k0) eqn:Hk.
  - apply eqb_spec in Hk. subst k0. intros H. injection H as <- <-.
    split; [exact Hnd' |]. split; [exact Hnotin |]. intros e He. right. exact He.
  - apply eqb_false in Hk.
    destruct (dict_pop eqb k t) as [[v1 t1] |] eqn:Hpop; [| discriminate].
    intros H. injection H as <- <-.
    destruct (IH t1 Hnd' eq_refl) as (Hnd1 & Hnot1 & Hsub).
    split.
    + cbn [map fst]. constructor; [| exact Hnd1].
      intros Hin. apply Hnotin. apply in_map_iff in Hin.
      destruct Hin as (e & He & Hin). apply in_map_iff. exists e.
      split; [exact He | apply Hsub; exact Hin].
    + split.
      * cbn [map fst]. intros [Heq | Hin]; [congruence | contradiction].
      * intros e [He | He]; [left; exact He | right; apply Hsub; exact He].
Qed.

Lemma dict_pop_present (k : K) (v : V) (d : list (K * V)) :
  In (k, v) d -> exists v' d', dict_pop eqb k d = Some (v', d').
Proof.
  induction d as [| [k0 v0] t IH]; [intros [] |].
  cbn [dict_pop]. destruct (eqb k k0) eqn:Hk; [intros _; eexists _, _; reflexivity |].
  apply eqb_false in Hk. intros [H | H]; [congruence |].
  destruct (IH H) as (v' & d' & Hpop). rewrite Hpop. eexists _, _. reflexivity.
Qed.

End Dictionaries.

(** ** Figures and axes *)

Module PyplotFacts.
Import String Pyplot.

Lemma length_set_nth {A} (n : nat) (x : A) (l : list A) :
  List.length (set_nth n x l) = List.length l.
Proof.
  revert n. induction l as [| y t IH]; intros n; [reflexivity |].
  destruct n; cbn [set_nth List.length]; [reflexivity |]. rewrite IH. reflexivity.
Qed.

Lemma nth_set_nth {A} (n m : nat) (x d : A) (l : list A) :
  nth m (set_nth n x l) d
  = if (Nat.eqb m n && Nat.ltb n (List.length l))%bool then x else nth m l d.
Proof.
  revert n m. induction l as [| y t IH]; intros n m.
  - cbn. rewrite andb_false_r. reflexivity.
  - destruct n as [| n], m as [| m]; cbn [set_nth nth List.length]; try reflexivity.
    rewrite IH. reflexivity.
Qed.

Lemma title_after_set_nth (st : State) (f g : fig_id) (fig : Figure) (heap : list Figure) :
  heap = set_nth f fig (fig_heap st) ->
  (f < List.length (fig_heap st))%nat ->
  f_title (nth g heap {| f_title := EmptyString; f_axes := [] |})
  = if Nat.eqb g f then f_title fig else f_title (the_figure st g).
Proof.
  intros -> Hf. rewrite nth_set_nth. unfold the_figure.
  destruct (Nat.ltb_spec f (List.length (fig_heap st))); [| lia].
  rewrite andb_true_r. destruct (Nat.eqb g f); reflexivity.
Qed.

Definition string_eqb_spec : forall a b, String.eqb a b = true <-> a = b :=
  String.eqb_eq.

Lemma figure_ok (N : FigureArg) (st : State) :
  registry_ok st ->
  registry_ok (snd (figure N st))
  /\ current_fig (snd (figure N st)) = Some (fst (figure N st)).
Proof.
  intros (Hnd & Hreg & Hcur). unfold figure.
  set (t0 := _make_figure_title st N).
  destruct (dict_get String.eqb t0 (figures st)) as [f |] eqn:Hget.
  - cbn [fst snd]. split; [| reflexivity].
    apply (dict_get_In String.eqb string_eqb_spec) in Hget.
    destruct (Hreg t0 f Hget) as [Hlt Htitle].
    unfold registry_ok, the_figure in *. cbn [figures fig_heap current_fig].
    split; [exact Hnd |]. split; [exact Hreg |].
    intros g Hg. injection Hg as <-. rewrite Htitle. exact Hget.
  - cbn [fst snd]. split; [| reflexivity].
    unfold registry_ok, the_figure in *. cbn [figures fig_heap current_fig].
    split; [apply dict_set_NoDup; [exact string_eqb_spec | exact Hnd] |].
    split.
    + intros t g Hin.
      apply (In_dict_set String.eqb string_eqb_spec) in Hin; [| exact Hnd].
      rewrite length_app. cbn [List.length].
      destruct Hin as [[-> ->] | [Hne Hin]].
      * split; [lia |]. rewrite app_nth2 by lia. rewrite Nat.sub_diag. reflexivity.
      * destruct (Hreg t g Hin) as [Hlt Htitle].
        split; [lia |]. rewrite app_nth1 by exact Hlt. exact Htitle.
    + intros g Hg. injection Hg as <-.
      rewrite app_nth2 by lia. rewrite Nat.sub_diag. cbn [nth f_title].
      apply (In_dict_set_new String.eqb string_eqb_spec).
Qed.

Lemma gcf_ok (st : State) :
  registry_ok st ->
  registry_ok (snd (gcf st))
  /\ current_fig (snd (gcf st)) = Some (fst (gcf st)).
Proof.
  intros Hok. unfold gcf. destruct (current_fig st) as [f |] eqn:Hcur.
  - cbn [fst snd]. split; [exact Hok | exact Hcur].
  - apply figure_ok. exact Hok.
Qed.

Lemma get_axes_ok (f : fig_id) (i j : Z) (st : State) :
  registry_ok st ->
  registry_ok (snd (get_axes f i j st))
  /\ current_fig (snd (get_axes f i j st)) = current_fig st.
Proof.
  intros (Hnd & Hreg & Hcur). unfold get_axes.
  destruct (dict_get cell_eqb (i, j) (f_axes (the_figure st f))) as [a |].
  - cbn [snd]. split; [exact (conj Hnd (conj Hreg Hcur)) | reflexivity].
  - cbn [snd]. split; [| reflexivity].
    assert (Htitle : forall g,
              f_title (nth g (set_nth f {| f_title := f_title (the_figure st f);
                                           f_axes := dict_set cell_eqb (i, j)
                                                       (List.length (ax_heap st))
                                                       (f_axes (the_figure st f)) |}
                                      (fig_heap st))
                           {| f_title := EmptyString; f_axes := [] |})
              = f_title (the_figure st g)).
    { intros g. rewrite nth_set_nth. unfold the_figure.
      destruct (Nat.eqb_spec g f) as [-> | Hne]; cbn [andb]; [| reflexivity].
      destruct (Nat.ltb f (List.length (fig_heap st))); reflexivity. }
    unfold registry_ok, the_figure in *. cbn [figures fig_heap current_fig].
    split; [exact Hnd |]. split.
    + intros t g Hin. destruct (Hreg t g Hin) as [Hlt Ht].
      rewrite length_set_nth, Htitle. split; assumption.
    + intros g Hg. rewrite Htitle. apply Hcur. exact Hg.
Qed.

Lemma title_ok (text : string) (st : State) :
  registry_ok st -> exists st', title text st = Some st' /\ registry_ok st'.
Proof.
  intros Hok. unfold title.
  destruct (gcf_ok st Hok) as [(Hnd & Hreg & Hcur) Hcurrent].
  destruct (gcf st) as [f st1]. cbn [fst snd] in *.
  pose proof (Hcur f Hcurrent) as Hin.
  destruct (Hreg _ f Hin) as [Hlt _].
  destruct (dict_pop_present String.eqb string_eqb_spec _ _ _ Hin) as (v & figs & Hpop).
  rewrite Hpop. eexists. split; [reflexivity |].
  destruct (dict_pop_spec String.eqb string_eqb_spec _ _ _ _ Hnd Hpop)
    as (Hnd' & Hgone & Hsub).
  assert (Htitle : forall g,
            f_title (nth g (set_nth f {| f_title := text;
                                         f_axes := f_axes (the_figure st1 f) |}
                                    (fig_heap st1))
                         {| f_title := EmptyString; f_axes := [] |})
            = if Nat.eqb g f then text else f_title (the_figure st1 g)).
  { intros g. exact (title_after_set_nth st1 f g {| f_title := text; f_axes := f_axes (the_figure st1 f) |} _ eq_refl Hlt). }
  unfold registry_ok, the_figure in *. cbn [figures fig_heap current_fig].
  split; [apply dict_set_NoDup; [exact string_eqb_spec | exact Hnd'] |].
  split.
  - intros t g Hing.
    apply (In_dict_set String.eqb string_eqb_spec) in Hing; [| exact Hnd'].
    rewrite length_set_nth, Htitle.
    destruct Hing as [[-> ->] | [Hne Hing]].
    + rewrite Nat.eqb_refl. split; [exact Hlt | reflexivity].
    + destruct (Hreg t g (Hsub _ Hing)) as [Hltg Htg].
      split; [exact Hltg |].
      destruct (Nat.eqb_spec g f) as [-> | _]; [| exact Htg].
      exfalso. apply Hgone. rewrite Htg. apply (in_map fst _ _ Hing).
  - intros g Hg. rewrite Hcurrent in Hg. injection Hg as <-.
    rewrite Htitle, Nat.eqb_refl. apply (In_dict_set_new String.eqb string_eqb_spec).
Qed.

Lemma initial_ok : registry_ok initial.
Proof.
  unfold registry_ok, initial. cbn. split; [constructor |].
  split; [intros t f [] | discriminate].
Qed.

(** X21: the functions working on the figures keep the registry in
    order: every figure of [_figures] is registered once, under its own
    title, and the current figure is registered; so [title] always finds
    the title it removes, and never raises [KeyError]. *)
Theorem registry_invariant (st : State) :
  registry_ok st -> registry_kept st.
Proof.
  intros Hok. unfold registry_kept.
  split; [intros N; apply figure_ok; exact Hok |].
  split; [apply gcf_ok; exact Hok |].
  assert (Haxes : forall i j,
            registry_ok (snd (let '(f, st1) := gcf st in
                              let '(a, st2) := get_axes f i j st1 in
                              (a, with_current_axes st2 a)))).
  { intros i j. destruct (gcf_ok st Hok) as [Hok1 _].
    destruct (gcf st) as [f st1]. cbn [snd] in Hok1.
    destruct (get_axes_ok f i j st1 Hok1) as [Hok2 _].
    destruct (get_axes f i j st1) as [a st2]. exact Hok2. }
  split.
  { unfold gca. destruct (current_axes st); [exact Hok | apply Haxes]. }
  split.
  { intros n m k out Hrun. unfold subplot in Hrun.
    destruct (subplot_cell n m k) as [cell | e]; [| discriminate].
    cbn [rbind] in Hrun. specialize (Haxes (fst cell) (snd cell)).
    destruct (gcf st) as [f st1]. destruct (get_axes f (fst cell) (snd cell) st1) as [a st2].
    injection Hrun as <-. exact Haxes. }
  split; [intros text; apply title_ok; exact Hok |].
  unfold registry_ok, close_all. cbn. split; [constructor |].
  split; [intros t f [] | discriminate].
Qed.

Lemma registry_invariant_witness :
  registry_ok (snd (figure (Named "a") initial))
  /\ registry_kept (snd (figure (Named "a") initial)).
Proof.
  assert (Hok : registry_ok (snd (figure (Named "a") initial))).
  { unfold registry_ok. cbn. split; [constructor; [intros [] | constructor] |].
    split.
    - intros t f [H | []]. injection H as <- <-. split; [lia | reflexivity].
    - intros f H. injection H as <-. left. reflexivity. }
  split; [exact Hok | apply (registry_invariant _ Hok)].
Defined.

(** X22: [figure] with a title or a number finds the figure again: a
    second call returns the same figure and changes nothing more. *)
Theorem figure_twice (N : FigureArg) (st : State) :
  N <> NoArg ->
  figure N (snd (figure N st)) = (fst (figure N st), snd (figure N st)).
Proof.
  intros HN. unfold figure.
  assert (Htitle : forall st', _make_figure_title st' N = _make_figure_title st N)
    by (intros st'; destruct N; [contradiction | reflexivity | reflexivity]).
  destruct (dict_get String.eqb (_make_figure_title st N) (figures st)) as [f |] eqn:Hget;
    cbn [fst snd]; rewrite Htitle; cbn [figures].
  - rewrite Hget. reflexivity.
  - assert (Hnew : forall (d : list (string * fig_id)) (f : fig_id),
              dict_get String.eqb (_make_figure_title st N)
                (dict_set String.eqb (_make_figure_title st N) f d) = Some f
              \/ exists g, dict_get String.eqb (_make_figure_title st N) d = Some g).
    { intros d f. induction d as [| [k v] t IH]; cbn [dict_set dict_get].
      - left. rewrite String.eqb_refl. reflexivity.
      - destruct (String.eqb (_make_figure_title st N) k) eqn:Hk.
        + right. exists v. reflexivity.
        + cbn [dict_get]. rewrite Hk. exact IH. }
    destruct (Hnew (figures st) (List.length (fig_heap st))) as [Hfound | [g Hg]];
      [| congruence].
    unfold fig_id in *. rewrite Hfound. reflexivity.
Qed.

Lemma figure_twice_witness :
  figure (Numbered 3) (snd (figure (Numbered 3) initial))
  = (fst (figure (Numbered 3) initial), snd (figure (Numbered 3) initial)).
Proof. apply (figure_twice (Numbered 3) initial). discriminate. Defined.

End PyplotFacts.

(** ** The text of an annotated shape *)

Module AnnotatedShapeFacts.
Import String AnnotatedShape.
Local Open Scope string_scope.

Lemma append_assoc (a b c : string) : (a ++ b) ++ c = a ++ (b ++ c).
Proof. induction a as [| ch a IH]; cbn [append]; [reflexivity | rewrite IH; reflexivity]. Qed.

Lemma append_empty_r (a : string) : a ++ "" = a.
Proof. induction a as [| ch a IH]; cbn [append]; [reflexivity | rewrite IH; reflexivity]. Qed.

Lemma truth_append_r (a b : string) : truth b = true -> truth (a ++ b) = true.
Proof. destruct a; [intros H; exact H | reflexivity]. Qed.

(** X23: the text of an annotated shape is made of the parts that are
    shown (the title in bold, the subtitle in italics, the position and
    size), in this order and separated by line breaks: no break comes
    first, and none is doubled for a part that is left out. *)
Theorem get_text_joins_parts (title subtitle : string) (visible : bool)
    (position_text : string) :
  get_text title subtitle visible position_text
  = concat "<br>" (parts title subtitle visible position_text).
Proof.
  unfold get_text, parts.
  assert (HB : truth ("<b>" ++ title ++ "</b>") = true) by reflexivity.
  assert (HI : truth ("<i>" ++ subtitle ++ "</i>") = true) by reflexivity.
  revert HB HI.
  generalize ("<b>" ++ title ++ "</b>"), ("<i>" ++ subtitle ++ "</i>").
  intros B I HB HI.
  pose proof (truth_append_r (B ++ "<br>") I HI) as HBI.
  destruct (truth title), (truth subtitle), visible; cbn [app concat];
    repeat first
      [ progress change (truth "") with false
      | progress change ("" ++ B) with B
      | progress change ("" ++ I) with I
      | progress change ("" ++ position_text) with position_text
      | progress cbv iota
      | progress rewrite ?HB, ?HI, ?HBI, ?append_assoc ];
    reflexivity.
Qed.

End AnnotatedShapeFacts.
